(** * Verification of the document-sync layer (firebase-db.js, firebase-auth.js)

    A shallow embedding of the two modules: the value codec
    ([objectToFirestoreFields], [parseFirestoreValue],
    [parseFirestoreDocument]), the token helpers of firebase-auth.js, and the
    read / create / update / migrate operations of firebase-db.js, followed by
    the properties stated for them. *)

From Stdlib Require Import Floats.PrimFloat.
From stdpp Require Import base strings list gmap pretty.

Local Open Scope string_scope.
Local Open Scope Z_scope.

(** ** JavaScript values *)

(** The values the two modules handle.  A [Date] carries its time value
    ([None] is the Invalid Date); a function is opaque and known by its
    name.  An object is the list of its own enumerable string-keyed
    properties in [Object.entries] order, which is taken to be the order of
    insertion for every key (JavaScript lists the keys that are array
    indices first); its prototype is [Object.prototype], as for every object
    that an object literal or [JSON.parse] creates. *)
#[warnings="-register-all"]
Inductive jsval : Type :=
| JUndefined
| JNull
| JBool (b : bool)
| JNum (n : float)
| JStr (s : string)
| JDate (t : option Z)
| JFun (name : string)
| JArr (items : list jsval)
| JObj (props : list (string * jsval)).

Abbreviation fields := (list (string * jsval)).

(** Errors a JavaScript computation can throw. *)
Inductive exn : Type :=
| TypeError (msg : string)
| RangeError (msg : string)
| SyntaxError (msg : string)
| Error (msg : string).

Inductive result (A : Type) : Type :=
| Ret (a : A)
| Throw (e : exn).
Arguments Ret {A} a.
Arguments Throw {A} e.

Definition rbind {A B} (k : A → result B) (r : result A) : result B :=
  match r with Ret a => k a | Throw e => Throw e end.

#[global] Instance result_ret : MRet result := @Ret.
#[global] Instance result_bind : MBind result := @rbind.

(** [xs.map(f)] for an [f] that may throw: left to right, first error wins. *)
Fixpoint mapR {A B} (f : A → result B) (xs : list A) : result (list B) :=
  match xs with
  | [] => Ret []
  | x :: xs' => y ← f x; ys ← mapR f xs'; Ret (y :: ys)
  end.

(** The exhaustion of the call stack by too deep a recursion. *)
Definition stack_overflow : exn := RangeError "Maximum call stack size exceeded".

(** *** Builtins of the host *)

(** Builtins of the JavaScript host that the modules call and whose results
    they only pass on. *)
Class Host := {
  (** [d.toISOString()] of a valid time value *)
  toISOString : Z → string;
  (** the time value of [new Date(v)] *)
  Date_new : jsval → option Z;
  (** [parseInt(v)] *)
  parseInt : jsval → float;
  (** [JSON.parse(s)]; [None] is a [SyntaxError] *)
  JSON_parse : string → option jsval;
  (** [String(v)] of a number, a date, a function, an array or an object *)
  host_toString : jsval → string;
  (** [f.length] of the function of that name *)
  function_length : string → nat
}.

(** *** Primitive operations *)

Definition typeof (v : jsval) : string :=
  match v with
  | JUndefined => "undefined"
  | JBool _ => "boolean"
  | JNum _ => "number"
  | JStr _ => "string"
  | JFun _ => "function"
  | JNull | JDate _ | JArr _ | JObj _ => "object"
  end.

(** ToBoolean. *)
Definition truthy (v : jsval) : bool :=
  match v with
  | JUndefined | JNull => false
  | JBool b => b
  | JNum n => negb (PrimFloat.is_zero n || PrimFloat.is_nan n)
  | JStr s => negb (String.eqb s "")
  | JDate _ | JFun _ | JArr _ | JObj _ => true
  end.

Definition is_undefined (v : jsval) : bool :=
  match v with JUndefined => true | _ => false end.

(** Own property lookup in a property list. *)
Fixpoint lookup_prop (k : string) (ps : fields) : option jsval :=
  match ps with
  | [] => None
  | (k', v) :: ps' => if String.eqb k' k then Some v else lookup_prop k ps'
  end.

(** Decimal rendering of an array index. *)
Definition index_key (i : nat) : string := pretty (N.of_nat i).

Fixpoint indexed_from {A} (i : nat) (xs : list A) : list (string * A) :=
  match xs with
  | [] => []
  | x :: xs' => (index_key i, x) :: indexed_from (S i) xs'
  end.

Fixpoint chars (s : string) : list jsval :=
  match s with
  | EmptyString => []
  | String c s' => JStr (String c EmptyString) :: chars s'
  end.

(** The number [n]. *)
Definition num_of_nat (n : nat) : float :=
  Nat.iter n (λ x, PrimFloat.add x 1%float) 0%float.

(** *** Inherited members *)

(** The string-keyed members of the prototype objects of ECMAScript 2023,
    Annex B included.  Every object inherits those of [Object.prototype];
    an array, a string, a number, a date and a function inherit in addition
    those of the prototype of their kind. *)
Definition Object_prototype_names : list string :=
  ["constructor"; "__defineGetter__"; "__defineSetter__"; "hasOwnProperty";
   "__lookupGetter__"; "__lookupSetter__"; "isPrototypeOf";
   "propertyIsEnumerable"; "toString"; "valueOf"; "__proto__";
   "toLocaleString"].

Definition Array_prototype_names : list string :=
  ["at"; "concat"; "copyWithin"; "entries"; "every"; "fill"; "filter";
   "find"; "findIndex"; "findLast"; "findLastIndex"; "flat"; "flatMap";
   "forEach"; "includes"; "indexOf"; "join"; "keys"; "lastIndexOf"; "map";
   "pop"; "push"; "reduce"; "reduceRight"; "reverse"; "shift"; "slice";
   "some"; "sort"; "splice"; "toReversed"; "toSorted"; "toSpliced";
   "unshift"; "values"; "with"].

Definition String_prototype_names : list string :=
  ["anchor"; "at"; "big"; "blink"; "bold"; "charAt"; "charCodeAt";
   "codePointAt"; "concat"; "endsWith"; "fixed"; "fontcolor"; "fontsize";
   "includes"; "indexOf"; "italics"; "lastIndexOf"; "link"; "localeCompare";
   "match"; "matchAll"; "normalize"; "padEnd"; "padStart"; "repeat";
   "replace"; "replaceAll"; "search"; "slice"; "small"; "split";
   "startsWith"; "strike"; "sub"; "substr"; "substring"; "sup";
   "toLocaleLowerCase"; "toLocaleUpperCase"; "toLowerCase"; "toUpperCase";
   "trim"; "trimEnd"; "trimLeft"; "trimRight"; "trimStart"].

Definition Number_prototype_names : list string :=
  ["toExponential"; "toFixed"; "toPrecision"].

Definition Date_prototype_names : list string :=
  ["getDate"; "getDay"; "getFullYear"; "getHours"; "getMilliseconds";
   "getMinutes"; "getMonth"; "getSeconds"; "getTime"; "getTimezoneOffset";
   "getUTCDate"; "getUTCDay"; "getUTCFullYear"; "getUTCHours";
   "getUTCMilliseconds"; "getUTCMinutes"; "getUTCMonth"; "getUTCSeconds";
   "getYear"; "setDate"; "setFullYear"; "setHours"; "setMilliseconds";
   "setMinutes"; "setMonth"; "setSeconds"; "setTime"; "setUTCDate";
   "setUTCFullYear"; "setUTCHours"; "setUTCMilliseconds"; "setUTCMinutes";
   "setUTCMonth"; "setUTCSeconds"; "setYear"; "toDateString"; "toGMTString";
   "toISOString"; "toJSON"; "toLocaleDateString"; "toLocaleTimeString";
   "toTimeString"; "toUTCString"].

Definition Function_prototype_names : list string :=
  ["apply"; "bind"; "call"].

(** [k] is one of [names]. *)
Definition named (names : list string) (k : string) : bool :=
  existsb (String.eqb k) names.

(** [k] names a member that every object inherits from
    [Object.prototype]. *)
Definition inherited_name (k : string) : bool :=
  named Object_prototype_names k.

(** The member [k] that a value inherits from its prototype, [undefined]
    when there is none: [ctor] is the constructor of the prototype,
    [names] are its methods besides those of [Object.prototype], and [proto]
    stands for the prototype object itself, by what [typeof] and
    [Object.entries] tell of it.  A method is the function of its name. *)
Definition inherited (ctor : string) (proto : jsval) (names : list string)
    (k : string) : jsval :=
  if String.eqb k "constructor" then JFun ctor
  else if String.eqb k "__proto__" then proto
  else if named names k || inherited_name k then JFun k
  else JUndefined.

(** What an object that has no own property [k] answers to [obj[k]]. *)
Definition Object_prototype (k : string) : jsval :=
  inherited "Object" (JObj []) [] k.

(** [v.k] / [v[k]]: a [TypeError] on [null] and [undefined]; otherwise the
    own property, when there is one (of an array and of a string: the
    elements and [length]; of a function: [name] and [length]), else the
    inherited member, else [undefined].  A function is opaque: it is of the
    kind without [caller] and [arguments] of its own (a built-in, an arrow
    function, a function of strict code), for which reading them throws, and
    the other properties a particular function may carry are not
    represented. *)
Definition get `{Host} (v : jsval) (k : string) : result jsval :=
  match v with
  | JUndefined | JNull =>
      Throw (TypeError ("Cannot read properties of " ++ typeof v))
  | JObj ps => Ret (default (Object_prototype k) (lookup_prop k ps))
  | JArr items =>
      Ret (default
             (if String.eqb k "length" then JNum (num_of_nat (length items))
              else inherited "Array" (JArr []) Array_prototype_names k)
             (lookup_prop k (indexed_from 0 items)))
  | JStr s =>
      Ret (default
             (if String.eqb k "length" then
                JNum (num_of_nat (String.length s))
              else inherited "String" (JObj []) String_prototype_names k)
             (lookup_prop k (indexed_from 0 (chars s))))
  | JNum _ => Ret (inherited "Number" (JObj []) Number_prototype_names k)
  | JBool _ => Ret (inherited "Boolean" (JObj []) [] k)
  | JDate _ => Ret (inherited "Date" (JObj []) Date_prototype_names k)
  | JFun name =>
      if String.eqb k "caller" || String.eqb k "arguments" then
        Throw (TypeError ("'caller', 'callee', and 'arguments' properties "
                          ++ "may not be accessed"))
      else if String.eqb k "name" then Ret (JStr name)
      else if String.eqb k "length" then
        Ret (JNum (num_of_nat (function_length name)))
      else Ret (inherited "Function" (JFun "") Function_prototype_names k)
  end.
Arguments get {_} !_ _ /.

(** The property list with [k] set to [v]: an existing key keeps its
    place.  This is the definition of a property, as an object literal and
    the object spread define it. *)
Fixpoint set_prop (k : string) (v : jsval) (ps : fields) : fields :=
  match ps with
  | [] => [(k, v)]
  | (k', v') :: ps' =>
      if String.eqb k' k then (k, v) :: ps' else (k', v') :: set_prop k v ps'
  end.

(** The assignment [obj[k] = v] to an object that the modules build from
    [{}].  For every key but [__proto__] it sets the own property.  The
    assignment to [__proto__] reaches the accessor that [Object.prototype]
    holds under this name: no own property is added; when [v] is an object
    or [null] it becomes the prototype of [obj], which the property list
    does not hold.  Of such an object the model keeps the own properties
    only. *)
Definition assign (k : string) (v : jsval) (ps : fields) : fields :=
  if String.eqb k "__proto__" then ps else set_prop k v ps.

(** [delete obj[k]]. *)
Fixpoint delete_prop (k : string) (ps : fields) : fields :=
  match ps with
  | [] => []
  | (k', v') :: ps' =>
      if String.eqb k' k then delete_prop k ps' else (k', v') :: delete_prop k ps'
  end.

(** The own enumerable string-keyed properties, as [Object.entries] and the
    object spread enumerate them. *)
Definition own_entries (v : jsval) : fields :=
  match v with
  | JObj ps => ps
  | JArr xs => indexed_from 0 xs
  | JStr s => indexed_from 0 (chars s)
  | _ => []
  end.

(** [Object.entries(v)]. *)
Definition Object_entries (v : jsval) : result fields :=
  match v with
  | JUndefined | JNull =>
      Throw (TypeError "Cannot convert undefined or null to object")
  | _ => Ret (own_entries v)
  end.

(** [d.toISOString()]. *)
Definition Date_toISOString `{Host} (t : option Z) : result string :=
  match t with
  | Some ms => Ret (toISOString ms)
  | None => Throw (RangeError "Invalid time value")
  end.

(** [String(v)], as a template literal and [Storage.setItem] apply it. *)
Definition ToString `{Host} (v : jsval) : string :=
  match v with
  | JStr s => s
  | JUndefined => "undefined"
  | JNull => "null"
  | JBool true => "true"
  | JBool false => "false"
  | _ => host_toString v
  end.

(** *** JSON text *)

Section JSON.
Context `{Host}.

(** The number that the JSON text of [n] denotes: [JSON.stringify] writes
    [null] for [NaN] and the infinities, and [0] for the negative zero. *)
Definition JSON_number (n : float) : jsval :=
  if PrimFloat.is_nan n || PrimFloat.is_infinity n then JNull
  else if PrimFloat.is_zero n && PrimFloat.get_sign n then JNum 0%float
  else JNum n.

(** The value that the text [JSON.stringify(v)] denotes, as [JSON.parse]
    reads it; [None] when [JSON.stringify] returns [undefined].  A property
    that holds [undefined] or a function is left out, such an element of an
    array becomes [null], and a date is written by its [toJSON], as the ISO
    string or as [null] when it is invalid.  (A function being opaque, an
    object is written by its properties also when it has a member [toJSON]
    of its own.) *)
Fixpoint JSON_value (v : jsval) : option jsval :=
  match v with
  | JUndefined | JFun _ => None
  | JNull | JBool _ | JStr _ => Some v
  | JNum n => Some (JSON_number n)
  | JDate (Some t) => Some (JStr (toISOString t))
  | JDate None => Some JNull
  | JArr items => Some (JArr (map (λ x, default JNull (JSON_value x)) items))
  | JObj ps =>
      Some (JObj (omap (λ p, pair p.1 <$> JSON_value p.2) ps))
  end.

End JSON.

(** ** The value codec (firebase-db.js) *)

Section Codec.
Context `{Host}.

(** The body of the [for] loop of [objectToFirestoreFields] for one entry:
    the chain of [if]/[else if] on the type of [value], which assigns
    [fields[key]].  [self] is the function itself, for the recursive
    calls. *)
Definition encode_entry (self : jsval → result fields)
    (acc : fields) (key : string) (value : jsval) : result fields :=
  match value with
  | JUndefined | JNull =>
      Ret (assign key (JObj [("nullValue", JNull)]) acc)
  | JNum _ =>
      Ret (assign key (JObj [("doubleValue", value)]) acc)
  | JStr _ =>
      Ret (assign key (JObj [("stringValue", value)]) acc)
  | JBool _ =>
      Ret (assign key (JObj [("booleanValue", value)]) acc)
  | JDate t =>
      iso ← Date_toISOString t;
      Ret (assign key (JObj [("timestampValue", JStr iso)]) acc)
  | JArr items =>
      values ← mapR (λ item,
                if String.eqb (typeof item) "object" then
                  fs ← self item;
                  Ret (JObj [("mapValue", JObj [("fields", JObj fs)])])
                else
                  fs ← self (JObj [("val", item)]);
                  get (JObj fs) "val")
             items;
      Ret (assign key
             (JObj [("arrayValue", JObj [("values", JArr values)])]) acc)
  | JObj _ =>
      fs ← self value;
      Ret (assign key (JObj [("mapValue", JObj [("fields", JObj fs)])]) acc)
  | JFun _ => Ret acc
  end.

(** The [for ... of Object.entries(obj)] loop. *)
Fixpoint encode_entries (self : jsval → result fields)
    (acc : fields) (entries : fields) : result fields :=
  match entries with
  | [] => Ret acc
  | (key, value) :: rest =>
      acc' ← encode_entry self acc key value;
      encode_entries self acc' rest
  end.

(** The body of [objectToFirestoreFields], with [self] for the recursive
    calls. *)
Definition objectToFirestoreFields_body (self : jsval → result fields)
    (obj : jsval) : result fields :=
  entries ← Object_entries obj;
  encode_entries self [] entries.

(** [objectToFirestoreFields(obj)] run with a call stack of [depth] frames. *)
Fixpoint objectToFirestoreFields_rec (depth : nat) (obj : jsval)
    : result fields :=
  match depth with
  | O => Throw stack_overflow
  | S d => objectToFirestoreFields_body (objectToFirestoreFields_rec d) obj
  end.

(** Nesting depth of a value. *)
Fixpoint height (v : jsval) : nat :=
  match v with
  | JArr items => S (foldr (λ x n, Nat.max (height x) n) O items)
  | JObj ps => S (foldr (λ p n, Nat.max (height p.2) n) O ps)
  | _ => O
  end.

(** [objectToFirestoreFields(obj)]: the stack is deep enough for [obj]. *)
Definition objectToFirestoreFields (obj : jsval) : result fields :=
  objectToFirestoreFields_rec (S (height obj)) obj.

(** The loop [for (const [key, val] of Object.entries(fields))
    obj[key] = parseFirestoreValue(val)], shared by [parseFirestoreValue]
    and [parseFirestoreDocument]. *)
Fixpoint decode_entries (self : jsval → result jsval)
    (acc : fields) (entries : fields) : result fields :=
  match entries with
  | [] => Ret acc
  | (key, val) :: rest =>
      v ← self val;
      decode_entries self (assign key v acc) rest
  end.

(** The body of [parseFirestoreValue], with [self] for the recursive
    calls. *)
Definition parseFirestoreValue_body (self : jsval → result jsval)
    (value : jsval) : result jsval :=
  stringValue ← get value "stringValue";
  if negb (is_undefined stringValue) then Ret stringValue else
  doubleValue ← get value "doubleValue";
  if negb (is_undefined doubleValue) then Ret doubleValue else
  integerValue ← get value "integerValue";
  if negb (is_undefined integerValue) then
    Ret (JNum (parseInt integerValue)) else
  booleanValue ← get value "booleanValue";
  if negb (is_undefined booleanValue) then Ret booleanValue else
  timestampValue ← get value "timestampValue";
  if negb (is_undefined timestampValue) then
    Ret (JDate (Date_new timestampValue)) else
  nullValue ← get value "nullValue";
  if negb (is_undefined nullValue) then Ret JNull else
  mapValue ← get value "mapValue";
  if truthy mapValue then
    fs0 ← get mapValue "fields";
    let fs := if truthy fs0 then fs0 else JObj [] in
    entries ← Object_entries fs;
    obj ← decode_entries self [] entries;
    Ret (JObj obj)
  else
  arrayValue ← get value "arrayValue";
  if truthy arrayValue then
    vs0 ← get arrayValue "values";
    let values := if truthy vs0 then vs0 else JArr [] in
    match values with
    | JArr items => xs ← mapR self items; Ret (JArr xs)
    | _ => Throw (TypeError "values.map is not a function")
    end
  else Ret JNull.

(** [parseFirestoreValue(value)] run with a call stack of [depth] frames. *)
Fixpoint parseFirestoreValue_rec (depth : nat) (value : jsval)
    : result jsval :=
  match depth with
  | O => Throw stack_overflow
  | S d => parseFirestoreValue_body (parseFirestoreValue_rec d) value
  end.

(** [parseFirestoreValue(value)]: the stack is deep enough for [value]. *)
Definition parseFirestoreValue (value : jsval) : result jsval :=
  parseFirestoreValue_rec (S (height value)) value.

(** [parseFirestoreDocument(firestoreDoc)]. *)
Definition parseFirestoreDocument (firestoreDoc : jsval) : result jsval :=
  if negb (truthy firestoreDoc) then Ret (JObj []) else
  fs ← get firestoreDoc "fields";
  if negb (truthy fs) then Ret (JObj []) else
  entries ← Object_entries fs;
  data ← decode_entries parseFirestoreValue [] entries;
  Ret (JObj data).

End Codec.

(** ** The environment of the two modules *)

(** The deployment constants and the path helper of the configuration script,
    which both modules read as globals ([FIREBASE_CONFIG], [getUserDocPath]). *)
Class Config := {
  firestoreUrl : string;
  identityToolkitUrl : string;
  apiKey : string;
  googleClientId : string;
  getUserDocPath : jsval → string
}.

(** An HTTP request as [fetch] receives it.  [req_body] is the value handed
    to [JSON.stringify]. *)
Record request := Request {
  req_method : string;
  req_url : string;
  req_headers : list (string * string);
  req_body : option jsval
}.

(** An HTTP response: the status and the JSON body ([None] when the body is
    not JSON, so that [response.json()] rejects). *)
Record response := Response {
  status : Z;
  json_body : option jsval
}.

(** [response.ok]. *)
Definition ok (r : response) : bool := (200 <=? status r) && (status r <=? 299).

(** The functions that the page registers with [onAuthStateChanged]:
    [listener name history user] is the outcome of the call [f(user)] of the
    function [f] of that name after the calls [history] it received before;
    it returns or throws.  During the call the function is taken to leave
    the storages and the state of the two modules alone. *)
Class Listener := {
  listener : string → list jsval → jsval → result unit
}.

Section World.
Context `{Host} `{Config} {listeners : Listener}.
(** The remote side: a state and its reaction to a request ([None] is a
    transport failure, on which [fetch] rejects). *)
Context {server : Type} (serve : server → request → server * option response).

(** Everything the two modules read or write. *)
Record world := World {
  sessionStorage : gmap string string;
  localStorage : gmap string string;
  (** [currentUser] of firebase-auth.js: [null] or the user object *)
  currentUser : jsval;
  (** [authStateCallback] of firebase-auth.js: [null] or the value
      registered, and the arguments with which it was called *)
  authStateCallback : jsval;
  notified : list jsval;
  (** the remote side and the requests sent so far, oldest first *)
  remote : server;
  requests : list request;
  (** the time values successive [new Date()] obtain *)
  clock : nat → Z;
  ticks : nat
}.

Definition with_sessionStorage (f : gmap string string → gmap string string)
    (w : world) : world :=
  World (f (sessionStorage w)) (localStorage w) (currentUser w)
    (authStateCallback w) (notified w) (remote w) (requests w) (clock w)
    (ticks w).

Definition with_localStorage (f : gmap string string → gmap string string)
    (w : world) : world :=
  World (sessionStorage w) (f (localStorage w)) (currentUser w)
    (authStateCallback w) (notified w) (remote w) (requests w) (clock w)
    (ticks w).

(** Computations of the modules: a state transformer that returns or
    throws; the state reached is kept in both cases. *)
Definition M (A : Type) : Type := world → result A * world.

#[local] Instance M_ret : MRet M := λ A a w, (Ret a, w).
#[local] Instance M_bind : MBind M := λ A B k m w,
  match m w with
  | (Ret a, w') => k a w'
  | (Throw e, w') => (Throw e, w')
  end.

Definition throw {A} (e : exn) : M A := λ w, (Throw e, w).

(** A pure step that may throw. *)
Definition lift {A} (r : result A) : M A := λ w, (r, w).

(** [try { m } catch (error) { h error }]. *)
Definition try_catch {A} (m : M A) (h : exn → M A) : M A := λ w,
  match m w with
  | (Ret a, w') => (Ret a, w')
  | (Throw e, w') => h e w'
  end.

(** [console.error(...)]: no effect on the state. *)
Definition console_error : M unit := mret ().

(** The value of [Storage.getItem]: the string or [null]. *)
Definition item (o : option string) : jsval := from_option JStr JNull o.

Definition sessionStorage_getItem (k : string) : M jsval :=
  λ w, (Ret (item (sessionStorage w !! k)), w).
Definition sessionStorage_setItem (k : string) (v : jsval) : M unit :=
  λ w, (Ret (), with_sessionStorage (insert k (ToString v)) w).
Definition sessionStorage_removeItem (k : string) : M unit :=
  λ w, (Ret (), with_sessionStorage (delete k) w).
Definition localStorage_getItem (k : string) : M jsval :=
  λ w, (Ret (item (localStorage w !! k)), w).
Definition localStorage_removeItem (k : string) : M unit :=
  λ w, (Ret (), with_localStorage (delete k) w).

(** The world after one more reading of the clock. *)
Definition tick (w : world) : world :=
  World (sessionStorage w) (localStorage w) (currentUser w)
    (authStateCallback w) (notified w) (remote w) (requests w) (clock w)
    (S (ticks w)).

(** [new Date().toISOString()]. *)
Definition now_iso : M string := λ w,
  (Ret (toISOString (clock w (ticks w))), tick w).

(** The world after the request [rq] has been sent and the remote side has
    moved to [s']. *)
Definition sent (rq : request) (s' : server) (w : world) : world :=
  World (sessionStorage w) (localStorage w) (currentUser w)
    (authStateCallback w) (notified w) s' (requests w ++ [rq]) (clock w)
    (ticks w).

(** [await fetch(url, {method, headers, body})]. *)
Definition fetch (rq : request) : M response := λ w,
  let '(s', r) := serve (remote w) rq in
  match r with
  | Some resp => (Ret resp, sent rq s' w)
  | None => (Throw (TypeError "Failed to fetch"), sent rq s' w)
  end.

(** [await response.json()]. *)
Definition response_json (r : response) : M jsval :=
  lift (match json_body r with
        | Some v => Ret v
        | None => Throw (SyntaxError "Unexpected token")
        end).

Definition json_headers : list (string * string) :=
  [("Content-Type", "application/json")].

Definition bearer_headers (token : jsval) : list (string * string) :=
  [("Authorization", "Bearer " ++ ToString token);
   ("Content-Type", "application/json")].

(** *** firebase-auth.js *)

Definition getCurrentUser : M jsval := λ w, (Ret (currentUser w), w).

Definition getAuthToken : M jsval := sessionStorage_getItem "firebaseToken".

Definition isSignedIn : M bool :=
  λ w, (Ret (match currentUser w with JNull => false | _ => true end), w).

(** [if (authStateCallback) authStateCallback(user)]: the call of a value
    that is not a function throws a [TypeError]. *)
Definition notifyAuthStateChange (user : jsval) : M unit := λ w,
  if truthy (authStateCallback w) then
    match authStateCallback w with
    | JFun name =>
        (listener name (notified w) user,
         World (sessionStorage w) (localStorage w) (currentUser w)
           (authStateCallback w) (notified w ++ [user]) (remote w)
           (requests w) (clock w) (ticks w))
    | _ => (Throw (TypeError "authStateCallback is not a function"), w)
    end
  else (Ret (), w).

Definition signOut : M unit :=
  sessionStorage_removeItem "firebaseToken";;
  sessionStorage_removeItem "refreshToken";;
  sessionStorage_removeItem "userId";;
  sessionStorage_removeItem "userEmail";;
  sessionStorage_removeItem "userDisplayName";;
  sessionStorage_removeItem "userPhotoURL";;
  (λ w, (Ret (),
         World (sessionStorage w) (localStorage w) JNull
           (authStateCallback w) (notified w) (remote w) (requests w)
           (clock w) (ticks w)));;
  notifyAuthStateChange JNull.

Definition refreshAuthToken : M jsval :=
  refreshToken ← sessionStorage_getItem "refreshToken";
  if negb (truthy refreshToken) then
    throw (Error "No refresh token available")
  else
  let url := "https://securetoken.googleapis.com/v1/token?key=" ++ apiKey in
  response ← fetch (Request "POST" url json_headers
                      (Some (JObj [("grant_type", JStr "refresh_token");
                                   ("refresh_token", refreshToken)])));
  if negb (ok response) then throw (Error "Failed to refresh token") else
  data ← response_json response;
  id_token ← lift (get data "id_token");
  sessionStorage_setItem "firebaseToken" id_token;;
  refresh_token ← lift (get data "refresh_token");
  sessionStorage_setItem "refreshToken" refresh_token;;
  mret id_token.

(** *** firebase-db.js *)

(** [`${FIREBASE_CONFIG.firestoreUrl}/${docPath}`] for
    [docPath = getUserDocPath(userId)]. *)
Definition doc_url (userId : jsval) : string :=
  firestoreUrl ++ "/" ++ getUserDocPath userId.

Definition readUserDataWithToken (token : jsval) : M jsval :=
  userId ← sessionStorage_getItem "userId";
  let url := doc_url userId in
  response ← fetch (Request "GET" url (bearer_headers token) None);
  if negb (ok response) then
    throw (Error "Failed to read user data after token refresh")
  else
  firestoreDoc ← response_json response;
  lift (parseFirestoreDocument firestoreDoc).

(** The names of the seven game sub-records, in the order of the
    [initialData] literal. *)
Definition game_names : list string :=
  ["typing"; "dualNBack"; "mathGame"; "speedProcessing"; "stroop"; "cpt";
   "taskSwitching"].

(** The object literal [getDefaultGameFields] returns, for the ISO string
    of the current time. *)
Definition default_game_fields (lastPlayed : string) : fields :=
  [("personalBests",
    JObj [("mapValue",
           JObj [("fields",
                  JObj [("sessionsPlayed",
                         JObj [("doubleValue", JNum PrimFloat.zero)]);
                        ("lastPlayed",
                         JObj [("timestampValue", JStr lastPlayed)])])])]);
   ("sessions", JObj [("arrayValue", JObj [("values", JArr [])])])].

Definition getDefaultGameFields : M fields :=
  lastPlayed ← now_iso;
  mret (default_game_fields lastPlayed).

(** [e || ''] *)
Definition or_empty (v : jsval) : jsval := if truthy v then v else JStr "".

(** [{ mapValue: { fields: fs } }] *)
Definition map_value (fs : fields) : jsval :=
  JObj [("mapValue", JObj [("fields", JObj fs)])].

(** The [profile] entry of the [initialData] literal. *)
Definition profile_value (email displayName photoURL : jsval)
    (createdAt : string) : jsval :=
  map_value [("email", JObj [("stringValue", or_empty email)]);
             ("displayName", JObj [("stringValue", or_empty displayName)]);
             ("photoURL", JObj [("stringValue", or_empty photoURL)]);
             ("createdAt", JObj [("timestampValue", JStr createdAt)])].

(** The [initialData] literal of [createUserDocument]. *)
Definition initialData (profile : jsval)
    (typing dualNBack mathGame speedProcessing stroop cpt taskSwitching
       : fields) : jsval :=
  JObj [("fields",
         JObj [("profile", profile);
               ("typing", map_value typing);
               ("dualNBack", map_value dualNBack);
               ("mathGame", map_value mathGame);
               ("speedProcessing", map_value speedProcessing);
               ("stroop", map_value stroop);
               ("cpt", map_value cpt);
               ("taskSwitching", map_value taskSwitching)])].

Definition createUserDocument : M jsval :=
  userId ← sessionStorage_getItem "userId";
  token ← getAuthToken;
  user ← getCurrentUser;
  let url := doc_url userId in
  email ← lift (get user "email");
  displayName ← lift (get user "displayName");
  photoURL ← lift (get user "photoURL");
  createdAt ← now_iso;
  let profile := profile_value email displayName photoURL createdAt in
  typing ← getDefaultGameFields;
  dualNBack ← getDefaultGameFields;
  mathGame ← getDefaultGameFields;
  speedProcessing ← getDefaultGameFields;
  stroop ← getDefaultGameFields;
  cpt ← getDefaultGameFields;
  taskSwitching ← getDefaultGameFields;
  let body := initialData profile typing dualNBack mathGame speedProcessing
                stroop cpt taskSwitching in
  try_catch
    (response ← fetch (Request "PATCH" url (bearer_headers token)
                         (Some body));
     if negb (ok response) then
       throw (Error "Failed to create user document")
     else
     firestoreDoc ← response_json response;
     lift (parseFirestoreDocument firestoreDoc))
    (λ error, console_error;; throw error).

Definition readUserData : M jsval :=
  userId ← sessionStorage_getItem "userId";
  token ← getAuthToken;
  if negb (truthy userId) || negb (truthy token) then
    throw (Error "User not authenticated")
  else
  let url := doc_url userId in
  try_catch
    (response ← fetch (Request "GET" url (bearer_headers token) None);
     if status response =? 404 then createUserDocument else
     if negb (ok response) then
       if status response =? 401 then
         newToken ← refreshAuthToken;
         readUserDataWithToken newToken
       else throw (Error "Failed to read user data")
     else
     firestoreDoc ← response_json response;
     lift (parseFirestoreDocument firestoreDoc))
    (λ error, console_error;; throw error).

(** [sessions.unshift(sessionData)]: the array with the new head; a
    [TypeError] when [sessions] is not an array. *)
Definition unshift (sessions sessionData : jsval) : result (list jsval) :=
  match sessions with
  | JArr items => Ret (sessionData :: items)
  | JUndefined | JNull =>
      Throw (TypeError ("Cannot read properties of " ++ typeof sessions))
  | _ => Throw (TypeError "gameData.sessions.unshift is not a function")
  end.

(** The part of [updateGameData] between the read and the write: the new
    session list of the category and the [firestoreUpdate] literal.  (The
    assignment [gameData.personalBests = personalBests] has no later reader:
    the literal takes the bests from the parameter.) *)
Definition firestoreUpdate (gameName : string)
    (userData sessionData personalBests : jsval) : result jsval :=
  stored ← get userData gameName;
  let gameData :=
    if truthy stored then stored
    else JObj [("sessions", JArr []); ("personalBests", JObj [])] in
  sessions0 ← get gameData "sessions";
  sessions1 ← unshift sessions0 sessionData;
  let sessions :=
    if (30 <? length sessions1)%nat then take 30 sessions1 else sessions1 in
  bests ← objectToFirestoreFields personalBests;
  values ← mapR (λ session,
                   fs ← objectToFirestoreFields session;
                   Ret (map_value fs))
                sessions;
  Ret (JObj [("fields",
              JObj [(gameName,
                     map_value
                       [("personalBests", map_value bests);
                        ("sessions",
                         JObj [("arrayValue",
                                JObj [("values", JArr values)])])])])]).

Definition updateGameData (gameName : string)
    (sessionData personalBests : jsval) : M jsval :=
  userId ← sessionStorage_getItem "userId";
  token ← getAuthToken;
  if negb (truthy userId) || negb (truthy token) then
    throw (Error "User not authenticated")
  else
  try_catch
    (userData ← readUserData;
     body ← lift (firestoreUpdate gameName userData sessionData
                    personalBests);
     let url := doc_url userId ++ "?updateMask.fieldPaths=" ++ gameName in
     response ← fetch (Request "PATCH" url (bearer_headers token)
                         (Some body));
     if negb (ok response) then throw (Error "Failed to update game data")
     else response_json response)
    (λ error, console_error;; throw error).

(** [{ timestamp: ts, ...parsedData }] followed by
    [delete session.lastPlayed]. *)
Definition migrated_session (timestamp parsedData : jsval) : jsval :=
  JObj (delete_prop "lastPlayed"
          (foldl (λ acc p, set_prop p.1 p.2 acc) [("timestamp", timestamp)]
                 (own_entries parsedData))).

Definition migrateLocalStorage (gameName localStorageKey : string) : M bool :=
  try_catch
    (localData ← localStorage_getItem localStorageKey;
     if negb (truthy localData) then mret false else
     parsedData ← lift (match JSON_parse (ToString localData) with
                         | Some v => Ret v
                         | None => Throw (SyntaxError "Unexpected token")
                         end);
     lastPlayed ← lift (get parsedData "lastPlayed");
     timestamp ← (if truthy lastPlayed then mret lastPlayed
                   else iso ← now_iso; mret (JStr iso));
     let session := migrated_session timestamp parsedData in
     updateGameData gameName session parsedData;;
     localStorage_removeItem localStorageKey;;
     mret true)
    (λ error, console_error;; mret false).

(** [checkLocalStorageData()]. *)
Definition legacy_keys : list (string * string) :=
  [("speedProcessing", "focus-games-speed-processing");
   ("stroop", "focus-games-stroop");
   ("cpt", "focus-games-cpt");
   ("taskSwitching", "focus-games-task-switching")].

Definition checkLocalStorageData : M (list (string * string)) := λ w,
  (Ret (filter (λ p, truthy (item (localStorage w !! p.2))) legacy_keys), w).

End World.

(** ** Supported values and their tagged form *)

Section CodecSpec.
Context `{Host}.

(** The values an array may hold for [supported_with]. *)
Definition any_item (x : jsval) : bool := true.

(** The array elements that [objectToFirestoreFields] tags by their own
    type: the primitives other than [null], and keyed objects. *)
Definition tagged_item (x : jsval) : bool :=
  match x with
  | JBool _ | JNum _ | JStr _ | JObj _ => true
  | _ => false
  end.

(** Values composed of numbers, strings, booleans, [null], valid dates
    that the host reads back from their ISO form, arrays and keyed
    objects with distinct keys; [item_ok] restricts the elements of
    arrays. *)
Fixpoint supported_with (item_ok : jsval → bool) (v : jsval) : bool :=
  match v with
  | JNull | JBool _ | JNum _ | JStr _ => true
  | JDate (Some t) => bool_decide (Date_new (JStr (toISOString t)) = Some t)
  | JArr items =>
      forallb (λ x, item_ok x && supported_with item_ok x) items
  | JObj ps =>
      bool_decide (NoDup ps.*1)
      && forallb (λ p, supported_with item_ok p.2) ps
  | JUndefined | JDate None | JFun _ => false
  end.

(** The supported values of the codec contract. *)
Definition supported : jsval → bool := supported_with any_item.

(** The supported values whose arrays hold only elements that the encoder
    tags by their own type. *)
Definition plain : jsval → bool := supported_with tagged_item.

(** The tagged value of a supported value: one tag per native type. *)
Fixpoint wire_of (v : jsval) : jsval :=
  match v with
  | JNull => JObj [("nullValue", JNull)]
  | JBool _ => JObj [("booleanValue", v)]
  | JNum _ => JObj [("doubleValue", v)]
  | JStr _ => JObj [("stringValue", v)]
  | JDate (Some t) => JObj [("timestampValue", JStr (toISOString t))]
  | JArr items =>
      JObj [("arrayValue", JObj [("values", JArr (map wire_of items))])]
  | JObj ps =>
      JObj [("mapValue",
             JObj [("fields", JObj (map (λ p, (p.1, wire_of p.2)) ps))])]
  | JUndefined | JDate None | JFun _ => JUndefined
  end.

(** [decode(encode(x))] for a keyed object [x]: the encoded fields are
    wrapped in a map tag, as [updateGameData] wraps them, and decoded. *)
Definition roundtrip (x : jsval) : result jsval :=
  fs ← objectToFirestoreFields x;
  parseFirestoreValue (JObj [("mapValue", JObj [("fields", JObj fs)])]).

End CodecSpec.

(** ** Tagged wire values *)

(** The wire values the decoder is meant for: an object whose map tag, when
    it is an object with [fields], holds tagged values, and whose array tag
    is not itself an array or a function and, when it is an object, has
    [values] absent (falsy) or an array of tagged values. *)
Fixpoint tagged (v : jsval) : bool :=
  match v with
  | JObj ps =>
      forallb (λ p,
        if String.eqb p.1 "mapValue" then
          match p.2 with
          | JObj m =>
              forallb (λ q,
                if String.eqb q.1 "fields" then
                  match q.2 with
                  | JObj fs => forallb (λ r, tagged r.2) fs
                  | JArr items => forallb tagged items
                  | _ => true
                  end
                else true) m
          | _ => true
          end
        else if String.eqb p.1 "arrayValue" then
          match p.2 with
          | JObj a =>
              forallb (λ q,
                if String.eqb q.1 "values" then
                  match q.2 with
                  | JArr items => forallb tagged items
                  | other => negb (truthy other)
                  end
                else true) a
          | JArr _ | JFun _ => false
          | _ => true
          end
        else true) ps
  | _ => false
  end.

(** No object of the value has an own property named [__proto__]. *)
Fixpoint proto_free (v : jsval) : bool :=
  match v with
  | JArr items => forallb proto_free items
  | JObj ps =>
      forallb (λ p, negb (String.eqb p.1 "__proto__") && proto_free p.2) ps
  | _ => true
  end.


(** ** Names of data *)

(** The first character of the string is a decimal digit, as that of every
    array index. *)
Definition digit_head (s : string) : bool :=
  match s with
  | String c _ =>
      (48 <=? Ascii.nat_of_ascii c)%nat && (Ascii.nat_of_ascii c <=? 57)%nat
  | EmptyString => false
  end.

(** The names under which some value has a member without holding a
    property of that name in its property list. *)
Definition member_names : list string :=
  ["length"; "name"; "caller"; "arguments"]
  ++ Object_prototype_names ++ Array_prototype_names
  ++ String_prototype_names ++ Number_prototype_names
  ++ Date_prototype_names ++ Function_prototype_names.

(** A name of data: neither an array index nor the name of a member. *)
Definition data_name (k : string) : bool :=
  negb (digit_head k) && negb (named member_names k).

(** The own property [k] of an object and [undefined] for every other
    value: what [v.k] is when [k] is a name of data. *)
Definition own_property (v : jsval) (k : string) : result jsval :=
  match v with
  | JUndefined | JNull =>
      Throw (TypeError ("Cannot read properties of " ++ typeof v))
  | JObj ps => Ret (default JUndefined (lookup_prop k ps))
  | _ => Ret JUndefined
  end.






(** An object nested [n] levels deep through its property [self]. *)
Fixpoint nested (n : nat) : jsval :=
  match n with
  | O => JObj []
  | S m => JObj [("self", nested m)]
  end.

(** ** A host for the examples *)

(** A host that knows one instant, the epoch, and one legacy record; it
    serves to run the definitions on concrete inputs. *)
Definition epoch_iso : string := "1970-01-01T00:00:00.000Z".

(** The double quote, and the JSON text of the legacy record
    [{highScore: 50, lastPlayed: '2024-01-01'}]. *)
Definition dq : string :=
  String (Ascii.Ascii false true false false false true false false) "".

Definition legacy_stroop : string :=
  "{" +:+ dq +:+ "highScore" +:+ dq +:+ ":50," +:+ dq +:+ "lastPlayed" +:+ dq
  +:+ ":" +:+ dq +:+ "2024-01-01" +:+ dq +:+ "}".

Definition example_host : Host := {|
  toISOString t := if bool_decide (t = 0) then epoch_iso else "";
  Date_new v :=
    match v with
    | JStr s => if String.eqb s epoch_iso then Some 0 else None
    | _ => None
    end;
  parseInt _ := PrimFloat.nan;
  JSON_parse s :=
    if String.eqb s legacy_stroop then
      Some (JObj [("highScore", JNum 50%float);
                  ("lastPlayed", JStr "2024-01-01")])
    else None;
  host_toString _ := "";
  function_length _ := O
|}.

(** The functions of the examples: [crash] throws on every call, every
    other function returns. *)
Definition example_listener : Listener := {|
  listener name _ _ :=
    if String.eqb name "crash" then Throw (Error "crash") else Ret ()
|}.

(** The host and the functions of the examples serve wherever none is
    given. *)
#[global] Existing Instance example_host.
#[global] Existing Instance example_listener.

(** ** A model of the remote document store *)

(** The store as section 6 of the specification describes it, for one user
    document: a GET reads the document, a PATCH replaces it, and a PATCH with
    the field-mask parameter replaces the one named top-level field; a
    request whose bearer token is not the one the store accepts is answered
    with 401.  The store reads the body of a request as the JSON text
    carries it, [JSON_value]. *)
Record store := Store {
  st_path : string;
  st_token : string;
  st_doc : option fields
}.

(** [s] without its prefix [p]. *)
Fixpoint strip_prefix (p s : string) : option string :=
  match p, s with
  | EmptyString, _ => Some s
  | String a p', String b s' =>
      if Ascii.eqb a b then strip_prefix p' s' else None
  | String _ _, EmptyString => None
  end.

(** The value of a header. *)
Fixpoint lookup_header (k : string) (hs : list (string * string))
    : option string :=
  match hs with
  | [] => None
  | (k', v) :: hs' => if String.eqb k' k then Some v else lookup_header k hs'
  end.

Definition mask_parameter : string := "?updateMask.fieldPaths=".

(** The fields of the document after a PATCH with the given mask and body. *)
Definition patch_fields (mask : option string) (body : option jsval)
    (doc : option fields) : fields :=
  let new :=
    match body with
    | Some (JObj b) =>
        match lookup_prop "fields" b with Some (JObj fs) => fs | _ => [] end
    | _ => []
    end in
  match mask with
  | None => new
  | Some name =>
      match lookup_prop name new with
      | Some v => set_prop name v (default [] doc)
      | None => delete_prop name (default [] doc)
      end
  end.

Definition firestore `{Host} (st : store) (rq : request)
    : store * option response :=
  if negb (bool_decide (lookup_header "Authorization" (req_headers rq)
                        = Some ("Bearer " +:+ st_token st))) then
    (st, Some (Response 401 (Some (JObj [("error", JStr "UNAUTHENTICATED")]))))
  else if String.eqb (req_method rq) "GET" then
    if String.eqb (req_url rq) (st_path st) then
      match st_doc st with
      | Some fs =>
          (st, Some (Response 200 (Some (JObj [("fields", JObj fs)]))))
      | None =>
          (st, Some (Response 404 (Some (JObj [("error", JStr "NOT_FOUND")]))))
      end
    else (st, Some (Response 404 (Some (JObj [("error", JStr "NOT_FOUND")]))))
  else if String.eqb (req_method rq) "PATCH" then
    let target :=
      if String.eqb (req_url rq) (st_path st) then Some None
      else Some <$> strip_prefix (st_path st +:+ mask_parameter) (req_url rq) in
    match target with
    | Some mask =>
        let fs := patch_fields mask (req_body rq ≫= JSON_value) (st_doc st) in
        (Store (st_path st) (st_token st) (Some fs),
         Some (Response 200 (Some (JObj [("fields", JObj fs)]))))
    | None =>
        (st, Some (Response 400 (Some (JObj [("error", JStr "INVALID")]))))
    end
  else (st, Some (Response 400 (Some (JObj [("error", JStr "INVALID")])))).

(** ** Sequences of updates, and the worlds of the examples *)

Section Runs.
Context `{Host} `{Config}.
Context {server : Type} (serve : server → request → server * option response).


(** Every run of [m] relates the initial world to the final one by [R]. *)
Definition stable {A} (R : relation (@world server)) (m : @M server A)
    : Prop :=
  ∀ w, R w (m w).2.

(** The local storage is the same. *)
Definition same_local : relation (@world server) :=
  λ w w', localStorage w' = localStorage w.

(** The request [readUserData] and [readUserDataWithToken] send. *)
Definition read_request (userId token : jsval) : request :=
  Request "GET" (doc_url userId) (bearer_headers token) None.

(** The request [refreshAuthToken] sends. *)
Definition refresh_request (refreshToken : jsval) : request :=
  Request "POST" ("https://securetoken.googleapis.com/v1/token?key=" +:+ apiKey)
    json_headers
    (Some (JObj [("grant_type", JStr "refresh_token");
                 ("refresh_token", refreshToken)])).

(** The request [updateGameData] sends for its write. *)
Definition update_request (userId token : jsval) (gameName : string)
    (body : jsval) : request :=
  Request "PATCH" (doc_url userId +:+ "?updateMask.fieldPaths=" +:+ gameName)
    (bearer_headers token) (Some body).

(** What the token store holds under a key: the string or [null]. *)
Definition held (k : string) (w : @world server) : jsval :=
  item (sessionStorage w !! k).

(** The caller holds a user id and an access token. *)
Definition authenticated (w : @world server) : Prop :=
  truthy (held "userId" w) = true ∧ truthy (held "firebaseToken" w) = true.

(** The first read of [readUserData], the refresh that follows a 401, and
    the remote state after each. *)
Definition first_read (w : @world server) : request :=
  read_request (held "userId" w) (held "firebaseToken" w).

Definition token_refresh (w : @world server) : request :=
  refresh_request (held "refreshToken" w).

Definition after_read (w : @world server) : server :=
  (serve (remote w) (first_read w)).1.




(** The request [createUserDocument] sends. *)
Definition create_request (userId token : jsval) (body : jsval) : request :=
  Request "PATCH" (doc_url userId) (bearer_headers token) (Some body).

End Runs.


(** The value a computation returned, or [d] when it threw. *)
Definition returned {A} (d : A) (r : result A) : A :=
  match r with Ret a => a | Throw _ => d end.

Definition example_config : Config := {|
  firestoreUrl := "https://firestore.example/v1";
  identityToolkitUrl := "https://identitytoolkit.example/v1";
  apiKey := "key";
  googleClientId := "client";
  getUserDocPath uid := "users/" +:+ ToString (H:=example_host) uid
|}.

(** A signed-in world in front of the remote side [s]. *)
Definition example_world {server : Type} (s : server) : world :=
  World {["userId" := "u1"; "firebaseToken" := "t1"; "refreshToken" := "r1"]}
        {["focus-games-stroop" := legacy_stroop]}
        (JObj [("uid", JStr "u1"); ("email", JStr "u1@example.org");
               ("displayName", JStr "U"); ("photoURL", JStr "")])
        (JFun "render") [] s [] (λ _, 0) O.

(** A remote side that rejects the access token and the refresh token. *)
Definition expired : unit → request → unit * option response :=
  λ _ rq, ((), Some (Response (if String.eqb (req_method rq) "POST"
                               then 400 else 401) None)).


(** A remote side that serves an empty user document and answers every
    write with 401. *)
Definition read_only : unit → request → unit * option response :=
  λ _ rq, ((), Some (if String.eqb (req_method rq) "GET"
                     then Response 200 (Some (JObj [("fields", JObj [])]))
                     else Response 401 None)).

(** The store of the examples: it accepts the token of [example_world] and
    holds the document [doc] of its user. *)
Definition example_store (doc : option fields) : store :=
  Store "https://firestore.example/v1/users/u1" "t1" doc.

(** ** A client in front of its store *)

Section Synced.
Context `{Host} `{Config}.


(** The client is signed in against the store: the store serves the
    document of the stored user id and accepts the stored access token. *)
Definition synced (w : @world store) : Prop :=
  ∃ uid tok,
    sessionStorage w !! "userId" = Some uid ∧ uid ≠ ""
    ∧ sessionStorage w !! "firebaseToken" = Some tok ∧ tok ≠ ""
    ∧ st_path (remote w) = doc_url (JStr uid)
    ∧ st_token (remote w) = tok.

(** The fields of a document have distinct names, none of them
    [__proto__], and all decode. *)
Definition decodable (fs : fields) : Prop :=
  NoDup fs.*1 ∧ ("__proto__" ∉ fs.*1)
  ∧ ∀ k v, (k, v) ∈ fs → ∃ r, parseFirestoreValue v = Ret r.


End Synced.

(** ** Objects by reference *)

(** The values above are finite trees.  A JavaScript object can also hold a
    reference to itself, or to an object that holds it.  For such inputs,
    the part of [objectToFirestoreFields] that handles numbers, strings and
    nested objects, on a heap of objects whose properties hold a number, a
    string or the address of an object. *)
Inductive refval : Type :=
| RNum (n : float)
| RStr (s : string)
| RRef (address : nat).

Abbreviation heap := (list (list (string * refval))).

(** The [for] loop on the properties of one object of the heap. *)
Fixpoint encode_ref_entries (self : nat → result fields) (acc : fields)
    (entries : list (string * refval)) : result fields :=
  match entries with
  | [] => Ret acc
  | (key, RNum n) :: rest =>
      encode_ref_entries self
        (assign key (JObj [("doubleValue", JNum n)]) acc) rest
  | (key, RStr s) :: rest =>
      encode_ref_entries self
        (assign key (JObj [("stringValue", JStr s)]) acc) rest
  | (key, RRef address) :: rest =>
      fs ← self address;
      encode_ref_entries self (assign key (map_value fs) acc) rest
  end.

(** [objectToFirestoreFields(obj)] for the object at [address], run with a
    call stack of [depth] frames. *)
Fixpoint objectToFirestoreFields_heap (h : heap) (depth : nat)
    (address : nat) : result fields :=
  match depth with
  | O => Throw stack_overflow
  | S d =>
      match h !! address with
      | Some entries =>
          encode_ref_entries (objectToFirestoreFields_heap h d) [] entries
      | None => Throw (TypeError "Cannot convert undefined or null to object")
      end
  end.

(** The heap of [const o = { score: 1 }; o.self = o]. *)
Definition self_referent : heap :=
  [[("score", RNum 1%float); ("self", RRef 0)]].

(** ** Session restore and sign-in (firebase-auth.js) *)

(** The page the script runs in: [window.location.origin]. *)
Class Window := {
  location_origin : string
}.

(** [v[i]] for an array index [i]. *)
Definition index (v : jsval) (i : nat) : result jsval :=
  match v with
  | JUndefined | JNull =>
      Throw (TypeError ("Cannot read properties of " +:+ typeof v))
  | JArr items => Ret (default JUndefined (items !! i))
  | JStr s => Ret (default JUndefined (chars s !! i))
  | JObj ps => Ret (default JUndefined (lookup_prop (index_key i) ps))
  | _ => Ret JUndefined
  end.

(** [v?.k]: [undefined] on [null] and [undefined]. *)
Definition get_optional `{Host} (v : jsval) (k : string) : result jsval :=
  match v with
  | JUndefined | JNull => Ret JUndefined
  | _ => get v k
  end.

(** The six entries of the token store that a session consists of, in the
    order [signOut] removes them. *)
Definition session_keys : list string :=
  ["firebaseToken"; "refreshToken"; "userId"; "userEmail"; "userDisplayName";
   "userPhotoURL"].

(** An event handed to [window.dispatchEvent]: [new CustomEvent(type,
    { detail })]. *)
Record event := CustomEvent {
  event_type : string;
  event_detail : jsval
}.

Section Auth.
Context `{Host} `{Config} `{Window} {listeners : Listener}.
Context {server : Type} (serve : server → request → server * option response).

#[local] Existing Instance M_ret.
#[local] Existing Instance M_bind.

(** The assignment [currentUser = user]. *)
Definition set_currentUser (user : jsval) : @M server unit := λ w,
  (Ret (),
   World (sessionStorage w) (localStorage w) user (authStateCallback w)
     (notified w) (remote w) (requests w) (clock w) (ticks w)).

(** [onAuthStateChanged(callback)]: the assignment
    [authStateCallback = callback]. *)
Definition onAuthStateChanged (callback : jsval) : @M server unit := λ w,
  (Ret (),
   World (sessionStorage w) (localStorage w) (currentUser w)
     callback (notified w) (remote w) (requests w) (clock w) (ticks w)).

Definition verifyToken (idToken : jsval) : M jsval :=
  let url := identityToolkitUrl +:+ "/accounts:lookup?key=" +:+ apiKey in
  response ← fetch serve (Request "POST" url json_headers
                            (Some (JObj [("idToken", idToken)])));
  if negb (ok response) then throw (Error "Token validation failed") else
  data ← response_json response;
  users ← lift (get data "users");
  lift (index users 0).

Definition initAuth : M unit :=
  token ← sessionStorage_getItem "firebaseToken";
  userId ← sessionStorage_getItem "userId";
  email ← sessionStorage_getItem "userEmail";
  displayName ← sessionStorage_getItem "userDisplayName";
  photoURL ← sessionStorage_getItem "userPhotoURL";
  if truthy token && truthy userId then
    try_catch
      (verifyToken token;;
       set_currentUser (JObj [("uid", userId); ("email", email);
                              ("displayName", displayName);
                              ("photoURL", photoURL)]);;
       user ← getCurrentUser;
       notifyAuthStateChange user)
      (λ error, console_error;; signOut)
  else notifyAuthStateChange JNull.

Definition signInWithGoogleCredential (googleIdToken : jsval) : M jsval :=
  let url := identityToolkitUrl +:+ "/accounts:signInWithIdp?key=" +:+ apiKey in
  response ← fetch serve
               (Request "POST" url json_headers
                  (Some (JObj [("postBody",
                                JStr ("id_token=" +:+ ToString googleIdToken
                                      +:+ "&providerId=google.com"));
                               ("requestUri", JStr location_origin);
                               ("returnSecureToken", JBool true)])));
  if negb (ok response) then
    error ← response_json response;
    inner ← lift (get error "error");
    message ← lift (get_optional inner "message");
    throw (Error (ToString (if truthy message then message
                            else JStr "Failed to sign in with Firebase")))
  else response_json response.

(** *** The page: the world and the events dispatched on [window] *)

Record page := Page {
  page_world : @world server;
  dispatched : list event
}.

(** Computations that also dispatch events. *)
Definition P (A : Type) : Type := page → result A * page.

#[local] Instance P_ret : MRet P := λ A a p, (Ret a, p).
#[local] Instance P_bind : MBind P := λ A B k m p,
  match m p with
  | (Ret a, p') => k a p'
  | (Throw e, p') => (Throw e, p')
  end.

(** A computation on the world, run in the page. *)
Definition in_world {A} (m : M A) : P A := λ p,
  match m (page_world p) with
  | (r, w') => (r, Page w' (dispatched p))
  end.

(** [try { m } catch (error) { h error }]. *)
Definition try_catch_page {A} (m : P A) (h : exn → P A) : P A := λ p,
  match m p with
  | (Ret a, p') => (Ret a, p')
  | (Throw e, p') => h e p'
  end.

(** [window.dispatchEvent(event)]. *)
Definition window_dispatchEvent (e : event) : P unit := λ p,
  (Ret (), Page (page_world p) (dispatched p ++ [e])).

Definition showAuthLoading : P unit :=
  window_dispatchEvent
    (CustomEvent "auth-loading" (JObj [("loading", JBool true)])).

Definition hideAuthLoading : P unit :=
  window_dispatchEvent
    (CustomEvent "auth-loading" (JObj [("loading", JBool false)])).

Definition showAuthError (message : jsval) : P unit :=
  window_dispatchEvent
    (CustomEvent "auth-error" (JObj [("message", message)])).

Definition handleGoogleSignIn (response : jsval) : P unit :=
  try_catch_page
    (googleIdToken ← in_world (lift (get response "credential"));
     showAuthLoading;;
     firebaseAuth ← in_world (signInWithGoogleCredential googleIdToken);
     idToken ← in_world (lift (get firebaseAuth "idToken"));
     in_world (sessionStorage_setItem "firebaseToken" idToken);;
     refreshToken ← in_world (lift (get firebaseAuth "refreshToken"));
     in_world (sessionStorage_setItem "refreshToken" refreshToken);;
     localId ← in_world (lift (get firebaseAuth "localId"));
     in_world (sessionStorage_setItem "userId" localId);;
     email ← in_world (lift (get firebaseAuth "email"));
     in_world (sessionStorage_setItem "userEmail" email);;
     displayName ← in_world (lift (get firebaseAuth "displayName"));
     in_world (sessionStorage_setItem "userDisplayName"
                 (or_empty displayName));;
     photoUrl ← in_world (lift (get firebaseAuth "photoUrl"));
     in_world (sessionStorage_setItem "userPhotoURL" (or_empty photoUrl));;
     uid ← in_world (lift (get firebaseAuth "localId"));
     email ← in_world (lift (get firebaseAuth "email"));
     displayName ← in_world (lift (get firebaseAuth "displayName"));
     photoUrl ← in_world (lift (get firebaseAuth "photoUrl"));
     in_world (set_currentUser
                 (JObj [("uid", uid); ("email", email);
                        ("displayName", or_empty displayName);
                        ("photoURL", or_empty photoUrl)]));;
     hideAuthLoading;;
     user ← in_world getCurrentUser;
     in_world (notifyAuthStateChange user))
    (λ error,
       in_world console_error;;
       hideAuthLoading;;
       showAuthError (JStr "Sign-in failed. Please try again.")).

End Auth.

(** ** Values the encoder accepts beyond the supported ones *)

(** The value with [null] for every [undefined] property, at any depth of
    nested objects. *)
Fixpoint undefined_as_null (v : jsval) : jsval :=
  match v with
  | JUndefined => JNull
  | JObj ps => JObj (map (λ p, (p.1, undefined_as_null p.2)) ps)
  | _ => v
  end.

(** No function occurs in the value, at any depth. *)
Fixpoint fun_free (v : jsval) : bool :=
  match v with
  | JFun _ => false
  | JArr items => forallb fun_free items
  | JObj ps => forallb (λ p, fun_free p.2) ps
  | _ => true
  end.

(** The errors of the decoder are [TypeError]s. *)
Definition type_error (e : exn) : Prop := ∃ msg, e = TypeError msg.

(** The two errors of the encoder: [Object.entries] of [null] or
    [undefined], and [toISOString] of an invalid date. *)
Definition encoder_error (e : exn) : Prop :=
  e = TypeError "Cannot convert undefined or null to object"
  ∨ e = RangeError "Invalid time value".

(** ** States and requests of the session operations *)

Section AuthStates.
Context `{Host} `{Config} `{Window} {listeners : Listener}.
Context {server : Type}.

(** The token store without the six entries of a session. *)
Definition without_session (ss : gmap string string) : gmap string string :=
  foldl (λ m k, delete k m) ss session_keys.

(** What the listener has received after one more state change: the call is
    made only when a function is registered. *)
Definition notify (user : jsval) (w : @world server) : list jsval :=
  match authStateCallback w with
  | JFun _ => notified w ++ [user]
  | _ => notified w
  end.

(** The outcome of telling the listener [user]: the outcome of the call of
    the registered function; a [TypeError] when the value registered is not
    a function; a plain return when none is registered. *)
Definition answer (user : jsval) (w : @world server) : result unit :=
  (notifyAuthStateChange user w).1.

(** The world after [signOut]. *)
Definition signed_out (w : @world server) : @world server :=
  World (without_session (sessionStorage w)) (localStorage w) JNull
    (authStateCallback w) (notify JNull w) (remote w) (requests w) (clock w)
    (ticks w).

(** The user object [initAuth] builds from the token store. *)
Definition restored_user (w : @world server) : jsval :=
  JObj [("uid", held "userId" w); ("email", held "userEmail" w);
        ("displayName", held "userDisplayName" w);
        ("photoURL", held "userPhotoURL" w)].

(** The world after the listener has been told [user]. *)
Definition told (user : jsval) (w : @world server) : @world server :=
  World (sessionStorage w) (localStorage w) (currentUser w)
    (authStateCallback w) (notify user w) (remote w) (requests w) (clock w)
    (ticks w).

(** The world with [user] as the current user, announced to the listener. *)
Definition signed_in_as (user : jsval) (w : @world server) : @world server :=
  World (sessionStorage w) (localStorage w) user (authStateCallback w)
    (notify user w) (remote w) (requests w) (clock w) (ticks w).

(** The request [verifyToken] sends. *)
Definition lookup_request (idToken : jsval) : request :=
  Request "POST" (identityToolkitUrl +:+ "/accounts:lookup?key=" +:+ apiKey)
    json_headers (Some (JObj [("idToken", idToken)])).

(** The request [signInWithGoogleCredential] sends. *)
Definition sign_in_request (googleIdToken : jsval) : request :=
  Request "POST"
    (identityToolkitUrl +:+ "/accounts:signInWithIdp?key=" +:+ apiKey)
    json_headers
    (Some (JObj [("postBody",
                  JStr ("id_token=" +:+ ToString googleIdToken
                        +:+ "&providerId=google.com"));
                 ("requestUri", JStr location_origin);
                 ("returnSecureToken", JBool true)])).

(** The property [k] of an object, [undefined] when absent. *)
Definition property (v : jsval) (k : string) : jsval :=
  returned JUndefined (get v k).

(** The token store after [handleGoogleSignIn] has stored the answer
    [firebaseAuth]. *)
Definition with_session (firebaseAuth : jsval) (ss : gmap string string)
    : gmap string string :=
  <["userPhotoURL" := ToString (or_empty (property firebaseAuth "photoUrl"))]>
    (<["userDisplayName" :=
         ToString (or_empty (property firebaseAuth "displayName"))]>
       (<["userEmail" := ToString (property firebaseAuth "email")]>
          (<["userId" := ToString (property firebaseAuth "localId")]>
             (<["refreshToken" :=
                  ToString (property firebaseAuth "refreshToken")]>
                (<["firebaseToken" :=
                     ToString (property firebaseAuth "idToken")]> ss))))).

(** The user object [handleGoogleSignIn] builds from the answer. *)
Definition signed_in_user (firebaseAuth : jsval) : jsval :=
  JObj [("uid", property firebaseAuth "localId");
        ("email", property firebaseAuth "email");
        ("displayName", or_empty (property firebaseAuth "displayName"));
        ("photoURL", or_empty (property firebaseAuth "photoUrl"))].

(** The three events of the sign-in flow. *)
Definition loading_on : event :=
  CustomEvent "auth-loading" (JObj [("loading", JBool true)]).
Definition loading_off : event :=
  CustomEvent "auth-loading" (JObj [("loading", JBool false)]).
Definition sign_in_failed : event :=
  CustomEvent "auth-error"
    (JObj [("message", JStr "Sign-in failed. Please try again.")]).

(** The ISO string of the [i]-th reading of the clock from now. *)
Definition stamp (w : @world server) (i : nat) : string :=
  toISOString (clock w (i + ticks w)).

(** The document [createUserDocument] sends for the current user. *)
Definition first_document (w : @world server) : jsval :=
  initialData
    (profile_value (property (currentUser w) "email")
       (property (currentUser w) "displayName")
       (property (currentUser w) "photoURL") (stamp w 0))
    (default_game_fields (stamp w 1)) (default_game_fields (stamp w 2))
    (default_game_fields (stamp w 3)) (default_game_fields (stamp w 4))
    (default_game_fields (stamp w 5)) (default_game_fields (stamp w 6))
    (default_game_fields (stamp w 7)).

(** A signed-in client holds its credentials: whenever [currentUser] is
    set, the token store has an access token and a user id. *)
Definition credentials_held (w : @world server) : Prop :=
  currentUser w ≠ JNull →
  is_Some (sessionStorage w !! "firebaseToken")
  ∧ is_Some (sessionStorage w !! "userId").

(** What the operations on the user document leave alone: the current user,
    the listener and what it received, the local storage, the clock and
    every entry of the token store other than the two tokens; no entry of
    the token store is removed, and requests are only added. *)
Definition session_kept : relation (@world server) := λ w w',
  currentUser w' = currentUser w
  ∧ authStateCallback w' = authStateCallback w
  ∧ notified w' = notified w
  ∧ localStorage w' = localStorage w
  ∧ clock w' = clock w
  ∧ (∀ k, k ≠ "firebaseToken" → k ≠ "refreshToken" →
          sessionStorage w' !! k = sessionStorage w !! k)
  ∧ (∀ k, is_Some (sessionStorage w !! k) → is_Some (sessionStorage w' !! k))
  ∧ requests w `prefix_of` requests w'.

End AuthStates.

(** ** More worlds and remote sides for the examples *)

Definition example_window : Window := {|
  location_origin := "https://brain.example"
|}.

(** The page as loaded: nothing stored, no current user, no listener. *)
Definition initial_world {server : Type} (s : server) : @world server :=
  World ∅ ∅ JNull JNull [] s [] (λ _, 0) O.

(** The answer of the identity service to a sign-in. *)
Definition example_answer : jsval :=
  JObj [("idToken", JStr "t1"); ("refreshToken", JStr "r1");
        ("localId", JStr "u1"); ("email", JStr "u1@example.org")].

(** An identity service that knows the user [u1]: it verifies every token
    and answers every sign-in with [example_answer]. *)
Definition identity_toolkit : unit → request → unit * option response :=
  λ _ rq,
    ((), Some (if String.eqb (req_url rq)
                    "https://identitytoolkit.example/v1/accounts:lookup?key=key"
               then Response 200
                      (Some (JObj [("users",
                                    JArr [JObj [("localId", JStr "u1")]])]))
               else Response 200 (Some example_answer))).

(** A remote side that answers every request with a success and an empty
    object. *)
Definition empty_answers : unit → request → unit * option response :=
  λ _ _, ((), Some (Response 200 (Some (JObj [])))).

(** A remote side out of service. *)
Definition unavailable : unit → request → unit * option response :=
  λ _ _, ((), Some (Response 503 None)).
(** * Properties of the codec *)

Local Open Scope list_scope.

Section CodecFacts.
Context `{Host}.

Lemma mapR_ext {A B} (f g : A → result B) (xs : list A) :
  (∀ x, x ∈ xs → f x = g x) → mapR f xs = mapR g xs.
Proof.
  induction xs as [|x xs IH]; intros Hfg; [reflexivity|].
  cbn [mapR]. rewrite (Hfg x) by left.
  rewrite IH; [reflexivity|]. intros y Hy. apply Hfg. by right.
Qed.

Lemma mapR_length {A B} (f : A → result B) (xs : list A) (ys : list B) :
  mapR f xs = Ret ys → length ys = length xs.
Proof.
  revert ys. induction xs as [|x xs IH]; intros ys; cbn [mapR].
  - intros [= <-]. reflexivity.
  - destruct (f x) as [y|e]; [|discriminate]. cbn.
    destruct (mapR f xs) as [ys'|e]; [|discriminate]. cbn.
    intros [= <-]. cbn. f_equal. by apply IH.
Qed.

(** *** Reading a property *)

Lemma named_elem (names : list string) (k x : string) :
  named names k = false → x ∈ names → String.eqb k x = false.
Proof.
  unfold named. intros Hn Hx. induction Hx as [x l|x y l _ IH];
    cbn [existsb] in Hn; apply orb_false_elim in Hn as [? ?]; auto.
Qed.

Lemma named_app (l1 l2 : list string) (k : string) :
  named (l1 ++ l2) k = named l1 k || named l2 k.
Proof. unfold named. apply existsb_app. Qed.

Lemma pretty_N_go_digit (x : N) (s : string) :
  s = "" ∨ digit_head s = true →
  pretty_N_go x s = s ∨ digit_head (pretty_N_go x s) = true.
Proof.
  revert s. induction (N.lt_wf_0 x) as [x _ IH]; intros s Hs.
  assert (x = 0 ∨ 0 < x)%N as [->|Hx] by lia.
  - left. apply pretty_N_go_0.
  - right. rewrite pretty_N_go_step by done.
    destruct (IH (x `div` 10)%N (N.div_lt x 10 Hx eq_refl)
                (String (pretty_N_char (x `mod` 10)) s)) as [->| ->];
      try done.
    all: unfold pretty_N_char; by repeat case_match; auto.
Qed.

Lemma index_key_digit (i : nat) : digit_head (index_key i) = true.
Proof.
  unfold index_key, pretty, pretty_N. case_decide as Hi; [reflexivity|].
  rewrite pretty_N_go_step by lia.
  destruct (pretty_N_go_digit (N.of_nat i `div` 10)
              (String (pretty_N_char (N.of_nat i `mod` 10)) ""))
    as [->| ->]; try done.
  all: unfold pretty_N_char; by repeat case_match; auto.
Qed.

Lemma lookup_prop_indexed (k : string) (i : nat) (xs : list jsval) :
  digit_head k = false → lookup_prop k (indexed_from i xs) = None.
Proof.
  intros Hk. revert i. induction xs as [|x xs IH]; intros i; [reflexivity|].
  cbn [indexed_from lookup_prop].
  destruct (String.eqb (index_key i) k) eqn:E; [|apply IH].
  apply String.eqb_eq in E as <-. by rewrite index_key_digit in Hk.
Qed.



(** Under an inherited name an object without such a property answers
    with the member of [Object.prototype], which is not [undefined]. *)
Lemma Object_prototype_inherited (k : string) :
  inherited_name k = true →
  Object_prototype k = JObj [] ∨ ∃ name, Object_prototype k = JFun name.
Proof.
  intros Ho. unfold Object_prototype, inherited.
  destruct (String.eqb k "constructor"); [right; by eexists|].
  destruct (String.eqb k "__proto__"); [by left|].
  rewrite Ho. right. by eexists.
Qed.

(** A name of data is read as an own property. *)
Lemma get_data (v : jsval) (k : string) :
  data_name k = true → get v k = own_property v k.
Proof.
  unfold data_name, member_names. intros [Hd Hn]%andb_prop.
  apply negb_true_iff in Hd, Hn.
  rewrite !named_app in Hn.
  do 6 (apply orb_false_elim in Hn as [? Hn]).
  assert (inherited_name k = false) as Ho by done.
  assert (String.eqb k "constructor" = false) as Hc
    by (eapply named_elem; [exact Ho|];
        apply (bool_decide_unpack _); by vm_compute).
  assert (String.eqb k "__proto__" = false) as Hp
    by (eapply named_elem; [exact Ho|];
        apply (bool_decide_unpack _); by vm_compute).
  assert (String.eqb k "length" = false) as Hl
    by (eapply (named_elem ["length"; "name"; "caller"; "arguments"]);
        [eassumption|]; apply (bool_decide_unpack _); by vm_compute).
  assert (String.eqb k "name" = false) as Hm
    by (eapply (named_elem ["length"; "name"; "caller"; "arguments"]);
        [eassumption|]; apply (bool_decide_unpack _); by vm_compute).
  assert (String.eqb k "caller" = false) as Hr
    by (eapply (named_elem ["length"; "name"; "caller"; "arguments"]);
        [eassumption|]; apply (bool_decide_unpack _); by vm_compute).
  assert (String.eqb k "arguments" = false) as Ha
    by (eapply (named_elem ["length"; "name"; "caller"; "arguments"]);
        [eassumption|]; apply (bool_decide_unpack _); by vm_compute).
  assert (∀ ctor proto names, named names k = false →
            inherited ctor proto names k = JUndefined) as Hi.
  { intros ctor proto names Hnames. unfold inherited.
    by rewrite Hc, Hp, Hnames, Ho. }
  destruct v; cbn [get own_property]; try reflexivity.
  - by rewrite Hi.
  - by rewrite Hi.
  - by rewrite Hl, Hi, lookup_prop_indexed by done.
  - by rewrite Hi.
  - by rewrite Hr, Ha, Hm, Hl, Hi by done.
  - by rewrite Hl, Hi, lookup_prop_indexed by done.
  - unfold Object_prototype. by rewrite Hi.
Qed.

(** [values] is a name of data but for arrays, which have a method of this
    name. *)
Lemma get_values (v : jsval) :
  get v "values" = match v with
                   | JArr _ => Ret (JFun "values")
                   | _ => own_property v "values"
                   end.
Proof.
  destruct v; try reflexivity.
  - cbn [get own_property]. by rewrite lookup_prop_indexed.
  - cbn [get]. by rewrite lookup_prop_indexed.
Qed.

Lemma own_property_thrown (v : jsval) (k : string) (e : exn) :
  own_property v k = Throw e → get v k = Throw e.
Proof. by destruct v. Qed.

End CodecFacts.

(** Every reading of a name of data, as the reading of an own property. *)
Ltac data_reads :=
  repeat match goal with
         | |- context [get ?v ?k] =>
             rewrite (get_data v k) by (vm_compute; reflexivity)
         | H : context [get ?v ?k] |- _ =>
             rewrite (get_data v k) in H by (vm_compute; reflexivity)
         end.

Section CodecDepth.
Context `{Host}.

(** Heights of the parts of a value. *)
Lemma height_item (x : jsval) (items : list jsval) :
  x ∈ items → (height x < height (JArr items))%nat.
Proof.
  cbn [height]. induction 1 as [x l|x y l _ IH]; cbn [foldr]; lia.
Qed.

Lemma height_prop (k : string) (v : jsval) (ps : fields) :
  (k, v) ∈ ps → (height v < height (JObj ps))%nat.
Proof.
  cbn [height]. induction ps as [|p ps IH].
  - by intros ?%elem_of_nil.
  - intros [<-|Hin]%elem_of_cons; cbn [foldr snd]; [lia|].
    specialize (IH Hin). lia.
Qed.

Lemma elem_of_indexed_from {A} (i : nat) (xs : list A) k x :
  (k, x) ∈ indexed_from i xs → x ∈ xs.
Proof.
  revert i. induction xs as [|y xs IH]; intros i; cbn [indexed_from].
  - by intros ?%elem_of_nil.
  - intros [[= -> ->]|Hin]%elem_of_cons; [left|right; eauto].
Qed.

Lemma height_chars (s : string) (x : jsval) : x ∈ chars s → height x = O.
Proof.
  induction s as [|c s IH]; cbn [chars].
  - by intros ?%elem_of_nil.
  - intros [->|Hin]%elem_of_cons; [reflexivity|auto].
Qed.

Lemma own_entries_height (x : jsval) (k : string) (v : jsval) :
  (k, v) ∈ own_entries x → (0 < height v)%nat → (height v < height x)%nat.
Proof.
  destruct x; cbn [own_entries]; try by intros ?%elem_of_nil.
  - intros Hin%elem_of_indexed_from Hpos.
    apply height_chars in Hin. lia.
  - intros Hin%elem_of_indexed_from _. by apply height_item.
  - intros Hin _. by eapply height_prop.
Qed.

Lemma lookup_prop_elem (k : string) (ps : fields) (v : jsval) :
  lookup_prop k ps = Some v → (k, v) ∈ ps.
Proof.
  induction ps as [|[k' v'] ps IH]; cbn [lookup_prop]; [discriminate|].
  destruct (String.eqb k' k) eqn:E.
  - apply String.eqb_eq in E as ->. intros [= ->]. left.
  - intros Hl. right. auto.
Qed.

Lemma own_property_height (v : jsval) (k : string) (y : jsval) :
  own_property v k = Ret y → truthy y = true → (height y < height v)%nat.
Proof.
  destruct v; cbn [own_property]; try discriminate;
    try (intros [= <-]; discriminate).
  destruct (lookup_prop k props) as [x|] eqn:E; cbn.
  - intros [= <-] _. eapply height_prop, lookup_prop_elem, E.
  - intros [= <-]; discriminate.
Qed.

(** The four names under which the decoder reads a value to go on with. *)
Lemma get_height (v : jsval) (k : string) (y : jsval) :
  k ∈ ["mapValue"; "fields"; "arrayValue"; "values"] →
  get v k = Ret y → truthy y = true → (height y < height v)%nat.
Proof.
  intros Hk.
  repeat (apply elem_of_cons in Hk as [->|Hk]);
    [rewrite get_data by reflexivity; apply own_property_height..
    | |by apply elem_of_nil in Hk].
  rewrite get_values. destruct v; try apply own_property_height.
  intros [= <-] _. cbn. lia.
Qed.

Lemma Object_entries_ret (v : jsval) (es : fields) :
  Object_entries v = Ret es → es = own_entries v.
Proof. destruct v; cbn [Object_entries]; by intros [= <-]. Qed.

(** *** The encoder does not depend on the stack depth *)

Lemma encode_entry_ext (self1 self2 : jsval → result fields) acc key value :
  (∀ y, (0 < height value)%nat → (height y ≤ height value)%nat →
        self1 y = self2 y) →
  encode_entry self1 acc key value = encode_entry self2 acc key value.
Proof.
  intros Hs. destruct value; cbn [encode_entry]; try reflexivity.
  - erewrite mapR_ext; [reflexivity|]. intros item Hin. cbn beta.
    pose proof (height_item _ _ Hin) as Hlt.
    destruct (String.eqb (typeof item) "object") eqn:Et.
    + rewrite Hs; [reflexivity|cbn; lia|lia].
    + rewrite Hs; [reflexivity|cbn; lia|].
      destruct item; try discriminate; cbn; lia.
  - rewrite Hs; [reflexivity|cbn; lia|lia].
Qed.

Lemma encode_entries_ext (self1 self2 : jsval → result fields) acc entries :
  (∀ k v y, (k, v) ∈ entries → (0 < height v)%nat →
            (height y ≤ height v)%nat → self1 y = self2 y) →
  encode_entries self1 acc entries = encode_entries self2 acc entries.
Proof.
  revert acc. induction entries as [|[k v] es IH]; intros acc Hs;
    [reflexivity|].
  cbn [encode_entries].
  rewrite (encode_entry_ext self1 self2).
  2:{ intros y ??. eapply (Hs k v); [left|done..]. }
  destruct (encode_entry self2 acc k v) as [acc'|e]; [|reflexivity].
  cbn. apply IH. intros k' v' y Hin. eapply Hs. by right.
Qed.

Lemma objectToFirestoreFields_body_ext
    (self1 self2 : jsval → result fields) (obj : jsval) :
  (∀ y, (height y < height obj)%nat → self1 y = self2 y) →
  objectToFirestoreFields_body self1 obj
  = objectToFirestoreFields_body self2 obj.
Proof.
  intros Hs. unfold objectToFirestoreFields_body.
  destruct (Object_entries obj) as [es|e] eqn:E; [|reflexivity]. cbn.
  apply Object_entries_ret in E as ->.
  apply encode_entries_ext. intros k v y Hin Hpos Hle.
  apply Hs. pose proof (own_entries_height _ _ _ Hin Hpos). lia.
Qed.

Lemma objectToFirestoreFields_rec_depth (d1 d2 : nat) (obj : jsval) :
  (height obj < d1)%nat → (height obj < d2)%nat →
  objectToFirestoreFields_rec d1 obj = objectToFirestoreFields_rec d2 obj.
Proof.
  revert d2 obj. induction d1 as [|d1 IH]; intros d2 obj H1 H2; [lia|].
  destruct d2 as [|d2]; [lia|]. cbn [objectToFirestoreFields_rec].
  apply objectToFirestoreFields_body_ext. intros y Hy. apply IH; lia.
Qed.

(** The recursive equation of the source function. *)
Lemma objectToFirestoreFields_unfold (obj : jsval) :
  objectToFirestoreFields obj
  = objectToFirestoreFields_body objectToFirestoreFields obj.
Proof.
  unfold objectToFirestoreFields at 1. cbn [objectToFirestoreFields_rec].
  apply objectToFirestoreFields_body_ext. intros y Hy.
  unfold objectToFirestoreFields.
  apply objectToFirestoreFields_rec_depth; lia.
Qed.

(** *** The decoder does not depend on the stack depth *)

Lemma decode_entries_ext (self1 self2 : jsval → result jsval) acc entries :
  (∀ k v, (k, v) ∈ entries → self1 v = self2 v) →
  decode_entries self1 acc entries = decode_entries self2 acc entries.
Proof.
  revert acc. induction entries as [|[k v] es IH]; intros acc Hs;
    [reflexivity|].
  cbn [decode_entries]. rewrite (Hs k v) by left.
  destruct (self2 v) as [x|e]; [|reflexivity]. cbn.
  apply IH. intros k' v' Hin. eapply Hs. by right.
Qed.

Lemma own_entries_lt (x : jsval) (k : string) (v : jsval) :
  (k, v) ∈ own_entries x → (0 < height x)%nat → (height v < height x)%nat.
Proof.
  intros Hin Hx. destruct (height v) eqn:E; [lia|].
  rewrite <- E. apply (own_entries_height _ _ _ Hin). lia.
Qed.

Lemma parseFirestoreValue_body_ext
    (self1 self2 : jsval → result jsval) (value : jsval) :
  (∀ y, (height y < height value)%nat → self1 y = self2 y) →
  parseFirestoreValue_body self1 value = parseFirestoreValue_body self2 value.
Proof.
  intros Hs. unfold parseFirestoreValue_body. data_reads.
  destruct (own_property value "stringValue") as [v1|];
    cbn [mbind result_bind rbind]; [|reflexivity].
  destruct (negb (is_undefined v1)); [reflexivity|].
  destruct (own_property value "doubleValue") as [v2|];
    cbn [mbind result_bind rbind]; [|reflexivity].
  destruct (negb (is_undefined v2)); [reflexivity|].
  destruct (own_property value "integerValue") as [v3|];
    cbn [mbind result_bind rbind]; [|reflexivity].
  destruct (negb (is_undefined v3)); [reflexivity|].
  destruct (own_property value "booleanValue") as [v4|];
    cbn [mbind result_bind rbind]; [|reflexivity].
  destruct (negb (is_undefined v4)); [reflexivity|].
  destruct (own_property value "timestampValue") as [v5|];
    cbn [mbind result_bind rbind]; [|reflexivity].
  destruct (negb (is_undefined v5)); [reflexivity|].
  destruct (own_property value "nullValue") as [v6|];
    cbn [mbind result_bind rbind]; [|reflexivity].
  destruct (negb (is_undefined v6)); [reflexivity|].
  destruct (own_property value "mapValue") as [mv|] eqn:Em;
    cbn [mbind result_bind rbind]; [|reflexivity].
  destruct (truthy mv) eqn:Tm.
  { pose proof (own_property_height _ _ _ Em Tm) as Hm. data_reads.
    destruct (own_property mv "fields") as [fs0|] eqn:Ef;
      cbn [mbind result_bind rbind]; [|reflexivity].
    destruct (truthy fs0) eqn:Tf; [|reflexivity].
    pose proof (own_property_height _ _ _ Ef Tf) as Hf.
    destruct (Object_entries fs0) as [es|] eqn:Ee;
      cbn [mbind result_bind rbind]; [|reflexivity].
    apply Object_entries_ret in Ee as ->.
    erewrite decode_entries_ext; [reflexivity|].
    intros k v Hin. apply Hs.
    destruct (height fs0) eqn:E0.
    - destruct (height v) eqn:Ev; [lia|].
      pose proof (own_entries_height _ _ _ Hin). lia.
    - pose proof (own_entries_lt _ _ _ Hin). lia. }
  destruct (own_property value "arrayValue") as [av|] eqn:Ea;
    cbn [mbind result_bind rbind]; [|reflexivity].
  destruct (truthy av) eqn:Ta; [|reflexivity].
  pose proof (own_property_height _ _ _ Ea Ta) as Hav.
  destruct (get av "values") as [vs0|] eqn:Ev;
    cbn [mbind result_bind rbind]; [|reflexivity].
  destruct (truthy vs0) eqn:Tv; [|reflexivity].
  pose proof (get_height _ "values" _ ltac:(set_solver) Ev Tv) as Hv.
  destruct vs0; try reflexivity.
  erewrite mapR_ext; [reflexivity|]. intros x Hin. apply Hs.
  pose proof (height_item _ _ Hin). lia.
Qed.

Lemma parseFirestoreValue_rec_depth (d1 d2 : nat) (value : jsval) :
  (height value < d1)%nat → (height value < d2)%nat →
  parseFirestoreValue_rec d1 value = parseFirestoreValue_rec d2 value.
Proof.
  revert d2 value. induction d1 as [|d1 IH]; intros d2 value H1 H2; [lia|].
  destruct d2 as [|d2]; [lia|]. cbn [parseFirestoreValue_rec].
  apply parseFirestoreValue_body_ext. intros y Hy. apply IH; lia.
Qed.

(** The recursive equation of the source function. *)
Lemma parseFirestoreValue_unfold (value : jsval) :
  parseFirestoreValue value
  = parseFirestoreValue_body parseFirestoreValue value.
Proof.
  unfold parseFirestoreValue at 1. cbn [parseFirestoreValue_rec].
  apply parseFirestoreValue_body_ext. intros y Hy.
  unfold parseFirestoreValue.
  apply parseFirestoreValue_rec_depth; lia.
Qed.

(** *** The stack chosen for a value is never exhausted *)

Lemma mapR_not_thrown {A B} (f : A → result B) (xs : list A) (e : exn) :
  (∀ x, x ∈ xs → f x ≠ Throw e) → mapR f xs ≠ Throw e.
Proof.
  induction xs as [|x xs IH]; intros Hf; [discriminate|].
  cbn [mapR]. pose proof (Hf x (list_elem_of_here _ _)) as Hx.
  destruct (f x) as [y|e']; cbn [mbind result_bind rbind]; [|congruence].
  assert (mapR f xs ≠ Throw e) as Hxs
    by (apply IH; intros; apply Hf; by right).
  destruct (mapR f xs) as [ys|e']; cbn [mbind result_bind rbind];
    [discriminate|congruence].
Qed.

Lemma encode_entry_not_exhausted (self : jsval → result fields) acc key value :
  (∀ y, (0 < height value)%nat → (height y ≤ height value)%nat →
        self y ≠ Throw stack_overflow) →
  encode_entry self acc key value ≠ Throw stack_overflow.
Proof.
  intros Hs. destruct value as [| | | | |[t|]| |items|ps];
    cbn [encode_entry Date_toISOString]; try discriminate.
  - assert (mapR
      (λ item,
         if String.eqb (typeof item) "object"
         then fs ← self item;
              Ret (JObj [("mapValue", JObj [("fields", JObj fs)])])
         else fs ← self (JObj [("val", item)]); get (JObj fs) "val")
      items ≠ Throw stack_overflow) as Hmap.
    { apply mapR_not_thrown. intros item Hin.
      pose proof (height_item _ _ Hin) as Hlt.
      destruct (String.eqb (typeof item) "object") eqn:Et.
      - assert (self item ≠ Throw stack_overflow) as Hi
          by (apply Hs; [cbn|]; lia).
        destruct (self item); cbn; [discriminate|congruence].
      - assert (self (JObj [("val", item)]) ≠ Throw stack_overflow) as Hi.
        { apply Hs; [cbn; lia|]. destruct item; try discriminate; cbn; lia. }
        destruct (self (JObj [("val", item)])) as [fs|]; cbn;
          [discriminate|congruence]. }
    destruct (mapR _ items); cbn; [discriminate|congruence].
  - assert (self (JObj ps) ≠ Throw stack_overflow) as Hi
      by (apply Hs; [cbn|]; lia).
    destruct (self (JObj ps)); cbn; [discriminate|congruence].
Qed.

Lemma encode_entries_not_exhausted (self : jsval → result fields) acc entries :
  (∀ k v y, (k, v) ∈ entries → (0 < height v)%nat →
            (height y ≤ height v)%nat → self y ≠ Throw stack_overflow) →
  encode_entries self acc entries ≠ Throw stack_overflow.
Proof.
  revert acc. induction entries as [|[k v] es IH]; intros acc Hs;
    [discriminate|].
  cbn [encode_entries].
  assert (encode_entry self acc k v ≠ Throw stack_overflow) as He.
  { apply encode_entry_not_exhausted. intros y ??.
    apply (Hs k v); [left|done..]. }
  destruct (encode_entry self acc k v) as [acc'|e];
    cbn [mbind result_bind rbind]; [|congruence].
  apply IH. intros k' v' y Hin. apply (Hs k'). by right.
Qed.

Lemma objectToFirestoreFields_rec_not_exhausted (d : nat) (obj : jsval) :
  (height obj < d)%nat →
  objectToFirestoreFields_rec d obj ≠ Throw stack_overflow.
Proof.
  revert obj. induction d as [|d IH]; intros obj Hd; [lia|].
  cbn [objectToFirestoreFields_rec]. unfold objectToFirestoreFields_body.
  destruct (Object_entries obj) as [es|e] eqn:E.
  - cbn. apply Object_entries_ret in E as ->.
    apply encode_entries_not_exhausted. intros k v y Hin Hpos Hle.
    apply IH. pose proof (own_entries_height _ _ _ Hin Hpos). lia.
  - destruct obj; cbn in E; try discriminate; by injection E as <-.
Qed.

(** [objectToFirestoreFields] does not exhaust the stack it runs with. *)
Lemma objectToFirestoreFields_not_exhausted (obj : jsval) :
  objectToFirestoreFields obj ≠ Throw stack_overflow.
Proof. apply objectToFirestoreFields_rec_not_exhausted. lia. Qed.

Lemma decode_entries_not_exhausted (self : jsval → result jsval) acc entries :
  (∀ k v, (k, v) ∈ entries → self v ≠ Throw stack_overflow) →
  decode_entries self acc entries ≠ Throw stack_overflow.
Proof.
  revert acc. induction entries as [|[k v] es IH]; intros acc Hs;
    [discriminate|].
  cbn [decode_entries]. pose proof (Hs k v (list_elem_of_here _ _)) as Hv.
  destruct (self v) as [x|e]; cbn [mbind result_bind rbind]; [|congruence].
  apply IH. intros k' v' Hin. apply (Hs k'). by right.
Qed.

Lemma get_not_exhausted (v : jsval) (k : string) :
  get v k ≠ Throw stack_overflow.
Proof.
  destruct v; try discriminate. cbn [get].
  destruct (_ || _); [discriminate|]. by repeat case_match.
Qed.

Lemma own_property_not_exhausted (v : jsval) (k : string) :
  own_property v k ≠ Throw stack_overflow.
Proof. by destruct v. Qed.

Lemma parseFirestoreValue_body_not_exhausted
    (self : jsval → result jsval) (value : jsval) :
  (∀ y, (height y < height value)%nat → self y ≠ Throw stack_overflow) →
  parseFirestoreValue_body self value ≠ Throw stack_overflow.
Proof.
  intros Hs. unfold parseFirestoreValue_body. data_reads.
  pose proof (own_property_not_exhausted value) as Hg.
  destruct (own_property value "stringValue") as [v1|] eqn:E1;
    cbn [mbind result_bind rbind]; [|rewrite <- E1; apply Hg].
  destruct (negb (is_undefined v1)); [discriminate|].
  destruct (own_property value "doubleValue") as [v2|] eqn:E2;
    cbn [mbind result_bind rbind]; [|rewrite <- E2; apply Hg].
  destruct (negb (is_undefined v2)); [discriminate|].
  destruct (own_property value "integerValue") as [v3|] eqn:E3;
    cbn [mbind result_bind rbind]; [|rewrite <- E3; apply Hg].
  destruct (negb (is_undefined v3)); [discriminate|].
  destruct (own_property value "booleanValue") as [v4|] eqn:E4;
    cbn [mbind result_bind rbind]; [|rewrite <- E4; apply Hg].
  destruct (negb (is_undefined v4)); [discriminate|].
  destruct (own_property value "timestampValue") as [v5|] eqn:E5;
    cbn [mbind result_bind rbind]; [|rewrite <- E5; apply Hg].
  destruct (negb (is_undefined v5)); [discriminate|].
  destruct (own_property value "nullValue") as [v6|] eqn:E6;
    cbn [mbind result_bind rbind]; [|rewrite <- E6; apply Hg].
  destruct (negb (is_undefined v6)); [discriminate|].
  destruct (own_property value "mapValue") as [mv|] eqn:Em;
    cbn [mbind result_bind rbind]; [|rewrite <- Em; apply Hg].
  destruct (truthy mv) eqn:Tm.
  { pose proof (own_property_height _ _ _ Em Tm) as Hm. data_reads.
    destruct (own_property mv "fields") as [fs0|] eqn:Ef;
      cbn [mbind result_bind rbind];
      [|rewrite <- Ef; apply own_property_not_exhausted].
    destruct (truthy fs0) eqn:Tf; [|discriminate].
    pose proof (own_property_height _ _ _ Ef Tf) as Hf.
    destruct (Object_entries fs0) as [es|] eqn:Ee;
      cbn [mbind result_bind rbind]; [|by destruct fs0].
    apply Object_entries_ret in Ee as ->.
    assert (decode_entries self [] (own_entries fs0) ≠ Throw stack_overflow)
      as Hd.
    { apply decode_entries_not_exhausted. intros k v Hin. apply Hs.
      destruct (height fs0) eqn:E0.
      - destruct (height v) eqn:Ev; [lia|].
        pose proof (own_entries_height _ _ _ Hin). lia.
      - pose proof (own_entries_lt _ _ _ Hin). lia. }
    destruct (decode_entries self [] (own_entries fs0));
      cbn [mbind result_bind rbind]; [discriminate|congruence]. }
  destruct (own_property value "arrayValue") as [av|] eqn:Ea;
    cbn [mbind result_bind rbind]; [|rewrite <- Ea; apply Hg].
  destruct (truthy av) eqn:Ta; [|discriminate].
  pose proof (own_property_height _ _ _ Ea Ta) as Hav.
  destruct (get av "values") as [vs0|] eqn:Ev;
    cbn [mbind result_bind rbind]; [|rewrite <- Ev; apply get_not_exhausted].
  destruct (truthy vs0) eqn:Tv; [|discriminate].
  pose proof (get_height _ "values" _ ltac:(set_solver) Ev Tv) as Hv.
  destruct vs0; try discriminate.
  assert (mapR self items ≠ Throw stack_overflow) as Hmap.
  { apply mapR_not_thrown. intros x Hin. apply Hs.
    pose proof (height_item _ _ Hin). lia. }
  destruct (mapR self items); cbn [mbind result_bind rbind];
    [discriminate|congruence].
Qed.

Lemma parseFirestoreValue_rec_not_exhausted (d : nat) (value : jsval) :
  (height value < d)%nat →
  parseFirestoreValue_rec d value ≠ Throw stack_overflow.
Proof.
  revert value. induction d as [|d IH]; intros value Hd; [lia|].
  cbn [parseFirestoreValue_rec].
  apply parseFirestoreValue_body_not_exhausted. intros y Hy. apply IH. lia.
Qed.

(** [parseFirestoreValue] does not exhaust the stack it runs with. *)
Lemma parseFirestoreValue_not_exhausted (value : jsval) :
  parseFirestoreValue value ≠ Throw stack_overflow.
Proof. apply parseFirestoreValue_rec_not_exhausted. lia. Qed.

End CodecDepth.

(** * The round trip on plain values *)

Section RoundTrip.
Context `{Host}.

Lemma lookup_prop_None_set (k : string) (v : jsval) (ps : fields) :
  k ∉ ps.*1 → set_prop k v ps = ps ++ [(k, v)].
Proof.
  induction ps as [|[k' v'] ps IH]; cbn [set_prop fmap list_fmap app];
    [reflexivity|].
  intros Hk. cbn in Hk. apply not_elem_of_cons in Hk as [Hne Hk].
  destruct (String.eqb k' k) eqn:E.
  - apply String.eqb_eq in E. congruence.
  - f_equal. by apply IH.
Qed.

Lemma plain_supported_with item_ok (ps : fields) :
  supported_with item_ok (JObj ps) = true →
  NoDup ps.*1 ∧ ∀ k v, (k, v) ∈ ps → supported_with item_ok v = true.
Proof.
  cbn [supported_with]. intros [Hnd Hall]%andb_prop. split.
  - by apply bool_decide_eq_true in Hnd.
  - intros k v Hin. rewrite forallb_forall in Hall.
    apply (Hall (k, v)). by apply list_elem_of_In.
Qed.

Lemma plain_items (items : list jsval) (x : jsval) :
  plain (JArr items) = true → x ∈ items →
  tagged_item x = true ∧ plain x = true.
Proof.
  unfold plain. cbn [supported_with]. rewrite forallb_forall.
  intros Hall Hin%list_elem_of_In. by apply andb_prop, Hall.
Qed.

(** Without the key [__proto__] an assignment sets the property. *)
Lemma assign_set_prop (k : string) (v : jsval) (ps : fields) :
  k ≠ "__proto__" → assign k v ps = set_prop k v ps.
Proof. intros Hk. unfold assign. by apply String.eqb_neq in Hk as ->. Qed.

Lemma proto_free_props (ps : fields) (k : string) (v : jsval) :
  proto_free (JObj ps) = true → (k, v) ∈ ps →
  k ≠ "__proto__" ∧ proto_free v = true.
Proof.
  cbn [proto_free]. rewrite forallb_forall.
  intros Hall Hin%list_elem_of_In.
  apply Hall in Hin. cbn [fst snd] in Hin.
  apply andb_prop in Hin as [Hk%negb_true_iff%String.eqb_neq Hv]. done.
Qed.

Lemma proto_free_items (items : list jsval) (x : jsval) :
  proto_free (JArr items) = true → x ∈ items → proto_free x = true.
Proof.
  cbn [proto_free]. rewrite forallb_forall.
  intros Hall Hin%list_elem_of_In. auto.
Qed.

(** One step of the encoder loop on a plain value, when the recursive
    calls behave on the smaller plain objects. *)
Lemma encode_entry_plain (self : jsval → result fields) acc key value :
  (∀ ps, (height (JObj ps) ≤ height value)%nat →
         plain (JObj ps) = true → proto_free (JObj ps) = true →
         self (JObj ps) = Ret (map (λ p, (p.1, wire_of p.2)) ps)) →
  plain value = true → proto_free value = true → key ≠ "__proto__" →
  encode_entry self acc key value = Ret (set_prop key (wire_of value) acc).
Proof.
  intros Hself Hp Hf Hk. destruct value as [| | | | |[t|]| |items|ps];
    try discriminate;
    cbn [encode_entry wire_of Date_toISOString mbind result_bind rbind];
    rewrite ?assign_set_prop by done; try reflexivity.
  - assert (mapR
      (λ item,
         if String.eqb (typeof item) "object"
         then fs ← self item;
              Ret (JObj [("mapValue", JObj [("fields", JObj fs)])])
         else fs ← self (JObj [("val", item)]); get (JObj fs) "val")
      items = Ret (map wire_of items)) as ->.
    2:{ cbn [mbind result_bind rbind]. by rewrite assign_set_prop. }
    assert (∀ x, x ∈ items → tagged_item x = true ∧ plain x = true
                             ∧ proto_free x = true
                             ∧ (height x < height (JArr items))%nat) as Hit.
    { intros x Hx. destruct (plain_items _ _ Hp Hx). split_and!; try done.
      - by eapply proto_free_items.
      - by apply height_item. }
    revert Hit Hself. generalize (height (JArr items)). intros n Hit Hself.
    clear Hp Hf. induction items as [|x items IH]; [reflexivity|].
    cbn [mapR map].
    destruct (Hit x) as (Hx1 & Hx2 & Hx3 & Hx4); [left|].
    rewrite IH by (intros; apply Hit; by right). clear IH.
    destruct x as [| |b|n'|s| | |?|ps]; try discriminate; cbn.
    + rewrite (Hself [("val", JBool b)]); [reflexivity|cbn; lia|done..].
    + rewrite (Hself [("val", JNum n')]); [reflexivity|cbn; lia|done..].
    + rewrite (Hself [("val", JStr s)]); [reflexivity|cbn; lia|done..].
    + rewrite (Hself ps); [reflexivity|lia|done..].
  - rewrite (Hself ps); [|lia|done..].
    cbn [mbind result_bind rbind]. by rewrite assign_set_prop.
Qed.

Lemma encode_entries_plain (self : jsval → result fields) acc entries n :
  (∀ ps, (height (JObj ps) ≤ n)%nat → plain (JObj ps) = true →
         proto_free (JObj ps) = true →
         self (JObj ps) = Ret (map (λ p, (p.1, wire_of p.2)) ps)) →
  (∀ k v, (k, v) ∈ entries →
          plain v = true ∧ proto_free v = true ∧ k ≠ "__proto__"
          ∧ (height v ≤ n)%nat) →
  NoDup (acc.*1 ++ entries.*1) →
  encode_entries self acc entries
  = Ret (acc ++ map (λ p, (p.1, wire_of p.2)) entries).
Proof.
  intros Hself. revert acc.
  induction entries as [|[k v] es IH]; intros acc Hes Hnd.
  - cbn. by rewrite app_nil_r.
  - cbn [encode_entries]. destruct (Hes k v) as (Hp & Hf & Hk & Hh); [left|].
    rewrite encode_entry_plain; [|intros; apply Hself; [lia|done..]|done..].
    cbn [mbind result_bind rbind].
    cbn [fmap list_fmap fst] in Hnd.
    rewrite lookup_prop_None_set.
    2:{ apply NoDup_app in Hnd as (_ & Hd & _). intros Hk'.
        apply (Hd k Hk'). left. }
    rewrite IH.
    + cbn [map fst snd]. by rewrite <- app_assoc.
    + intros k' v' Hin. apply (Hes k'). by right.
    + rewrite fmap_app. cbn [fmap list_fmap fst].
      rewrite <- app_assoc. exact Hnd.
Qed.

(** The encoder on a plain keyed object without a key [__proto__] tags
    every field by its type. *)
Lemma objectToFirestoreFields_plain (ps : fields) :
  plain (JObj ps) = true → proto_free (JObj ps) = true →
  objectToFirestoreFields (JObj ps)
  = Ret (map (λ p, (p.1, wire_of p.2)) ps).
Proof.
  remember (height (JObj ps)) as n eqn:Hn.
  assert (height (JObj ps) ≤ n)%nat as Hle by lia. clear Hn.
  revert ps Hle. induction n as [|n IH]; intros ps Hle Hp Hf.
  { cbn in Hle. lia. }
  rewrite objectToFirestoreFields_unfold.
  unfold objectToFirestoreFields_body. cbn [Object_entries own_entries].
  cbn [mbind result_bind rbind].
  destruct (plain_supported_with _ _ Hp) as [Hnd Hall].
  rewrite (encode_entries_plain _ _ _ n); [reflexivity|..].
  - intros ps' Hh Hp' Hf'. by apply IH.
  - intros k v Hin. destruct (proto_free_props _ _ _ Hf Hin).
    split_and!; [by apply (Hall k)|done..|].
    pose proof (height_prop _ _ _ Hin). lia.
  - done.
Qed.

Lemma decode_entries_wire (self : jsval → result jsval) acc (ps : fields) :
  (∀ k v, (k, v) ∈ ps → k ≠ "__proto__" ∧ self (wire_of v) = Ret v) →
  NoDup (acc.*1 ++ ps.*1) →
  decode_entries self acc (map (λ p, (p.1, wire_of p.2)) ps)
  = Ret (acc ++ ps).
Proof.
  revert acc. induction ps as [|[k v] ps IH]; intros acc Hs Hnd.
  - cbn. by rewrite app_nil_r.
  - cbn [map decode_entries fst snd].
    destruct (Hs k v) as [Hk ->]; [left|].
    cbn [mbind result_bind rbind]. rewrite assign_set_prop by done.
    cbn [fmap list_fmap fst] in Hnd.
    rewrite lookup_prop_None_set.
    2:{ apply NoDup_app in Hnd as (_ & Hd & _). intros Hk'.
        apply (Hd k Hk'). left. }
    rewrite IH.
    + by rewrite <- app_assoc.
    + intros k' v' Hin. apply (Hs k'). by right.
    + rewrite fmap_app. cbn [fmap list_fmap fst].
      rewrite <- app_assoc. exact Hnd.
Qed.

Lemma mapR_wire (self : jsval → result jsval) (items : list jsval) :
  (∀ x, x ∈ items → self (wire_of x) = Ret x) →
  mapR self (map wire_of items) = Ret items.
Proof.
  induction items as [|x items IH]; intros Hs; [reflexivity|].
  cbn [map mapR]. rewrite Hs by left. rewrite IH; [reflexivity|].
  intros y Hy. apply Hs. by right.
Qed.

(** The decoder inverts the tagging of a plain value without a key
    [__proto__]. *)
Lemma parseFirestoreValue_wire_of (v : jsval) :
  plain v = true → proto_free v = true →
  parseFirestoreValue (wire_of v) = Ret v.
Proof.
  remember (height v) as n eqn:Hn.
  assert (height v ≤ n)%nat as Hle by lia. clear Hn.
  revert v Hle. induction n as [|n IH]; intros v Hle Hp Hf;
    rewrite parseFirestoreValue_unfold;
    destruct v as [| | | | |[t|]| |items|ps]; try discriminate;
    try reflexivity; try (cbn in Hle; lia).
  - cbn. apply bool_decide_eq_true in Hp. by rewrite Hp.
  - cbn. apply bool_decide_eq_true in Hp. by rewrite Hp.
  - cbn -[parseFirestoreValue].
    rewrite mapR_wire; [reflexivity|]. intros x Hx.
    destruct (plain_items _ _ Hp Hx) as [_ Hpx].
    apply IH; [|done|by eapply proto_free_items].
    pose proof (height_item _ _ Hx). lia.
  - cbn -[parseFirestoreValue].
    destruct (plain_supported_with _ _ Hp) as [Hnd Hall].
    rewrite (decode_entries_wire _ []); [reflexivity| |done].
    intros k x Hx. destruct (proto_free_props _ _ _ Hf Hx).
    split; [done|]. apply IH; [|by apply (Hall k)|done].
    pose proof (height_prop _ _ _ Hx). lia.
Qed.

(** [decode(encode(x)) = x] for every plain keyed object [x] without a
    key [__proto__]. *)
Lemma roundtrip_plain (ps : fields) :
  plain (JObj ps) = true → proto_free (JObj ps) = true →
  roundtrip (JObj ps) = Ret (JObj ps).
Proof.
  intros Hp Hf. unfold roundtrip.
  rewrite objectToFirestoreFields_plain by done.
  cbn [mbind result_bind rbind].
  by apply (parseFirestoreValue_wire_of (JObj ps)).
Qed.

End RoundTrip.

(** * Claims about the codec *)

Section CodecClaims.
Context `{Host}.

(** C1: the round trip [decode(encode(x)) = x] fails on supported values
    with an array that holds [null], an array or a date: for the array
    [[null]] the encoder throws a [TypeError]; an inner array comes back as
    an object keyed by its indices; a date in an array comes back as the
    empty object.  (The same values round-trip as fields of an object.) *)
Theorem roundtrip_array_elements :
  supported (JObj [("a", JArr [JNull])]) = true
  ∧ roundtrip (JObj [("a", JArr [JNull])])
    = Throw (TypeError "Cannot convert undefined or null to object")
  ∧ supported (JObj [("a", JArr [JArr [JStr "x"]])]) = true
  ∧ roundtrip (JObj [("a", JArr [JArr [JStr "x"]])])
    = Ret (JObj [("a", JArr [JObj [("0", JStr "x")]])])
  ∧ (∀ t, roundtrip (JObj [("a", JArr [JDate (Some t)])])
          = Ret (JObj [("a", JArr [JObj []])]))
  ∧ roundtrip (JObj [("a", JNull); ("b", JArr [JStr "x"])])
    = Ret (JObj [("a", JNull); ("b", JArr [JStr "x"])]).
Proof. split_and!; try reflexivity. Qed.

Lemma encode_entries_skip_functions (self : jsval → result fields)
    (acc : fields) (ps : fields) :
  encode_entries self acc ps
  = encode_entries self acc (filter (λ p, typeof p.2 ≠ "function") ps).
Proof.
  revert acc. induction ps as [|[k v] ps IH]; intros acc; [reflexivity|].
  destruct (decide (typeof v = "function")) as [Hf|Hf].
  - rewrite filter_cons_False by (cbn; tauto).
    destruct v; try discriminate. cbn. apply IH.
  - rewrite filter_cons_True by done. cbn [encode_entries].
    destruct (encode_entry self acc k v); [cbn; apply IH|reflexivity].
Qed.

Lemma objectToFirestoreFields_nested (n : nat) :
  objectToFirestoreFields_rec n (nested n) = Throw stack_overflow.
Proof.
  induction n as [|n IH]; [reflexivity|].
  cbn [objectToFirestoreFields_rec nested].
  unfold objectToFirestoreFields_body.
  assert (∃ ps, nested n = JObj ps) as [ps Hps]
    by (destruct n; eexists; reflexivity).
  rewrite Hps in *.
  cbn [Object_entries own_entries mbind result_bind rbind encode_entries
       encode_entry].
  by rewrite IH.
Qed.

Lemma objectToFirestoreFields_cycle (depth : nat) :
  objectToFirestoreFields_heap self_referent depth 0 = Throw stack_overflow.
Proof.
  induction depth as [|d IH]; [reflexivity|].
  cbn [objectToFirestoreFields_heap self_referent lookup list_lookup
       encode_ref_entries].
  change (objectToFirestoreFields_heap [[("score", RNum 1); ("self", RRef 0)]])
    with (objectToFirestoreFields_heap self_referent).
  by rewrite IH.
Qed.

(** C7, as amended: the encoder raises no error on a value of an
    unsupported type.  The fields of an object that hold a function are
    left out of the result, which is the encoding of the other fields, and
    a function in an array leaves an [undefined] element (under any key but
    [__proto__], which the encoder never writes).  Nothing guards
    the recursion: it goes one call deeper per nesting level, so that an
    object nested [n] levels deep overflows a stack of [n] frames, and an
    object that holds itself overflows every stack. *)
Theorem objectToFirestoreFields_skips_functions :
  (∀ ps : fields,
     objectToFirestoreFields (JObj ps)
     = objectToFirestoreFields
         (JObj (filter (λ p, typeof p.2 ≠ "function") ps)))
  ∧ (∀ key name,
       key ≠ "__proto__" →
       objectToFirestoreFields (JObj [(key, JArr [JFun name])])
       = Ret [(key, JObj [("arrayValue",
                           JObj [("values", JArr [JUndefined])])])])
  ∧ (∀ n, objectToFirestoreFields_rec n (nested n) = Throw stack_overflow)
  ∧ (∀ depth,
       objectToFirestoreFields_heap self_referent depth 0
       = Throw stack_overflow).
Proof.
  split_and!.
  - intros ps. rewrite !objectToFirestoreFields_unfold.
    unfold objectToFirestoreFields_body. cbn [Object_entries own_entries].
    cbn [mbind result_bind rbind]. apply encode_entries_skip_functions.
  - intros key name Hk%String.eqb_neq.
    unfold objectToFirestoreFields. cbn. unfold assign. by rewrite Hk.
  - apply objectToFirestoreFields_nested.
  - apply objectToFirestoreFields_cycle.
Qed.

(** *** Totality of the decoder *)

Lemma mapR_total {A B} (f : A → result B) (xs : list A) :
  (∀ x, x ∈ xs → ∃ y, f x = Ret y) → ∃ ys, mapR f xs = Ret ys.
Proof.
  induction xs as [|x xs IH]; intros Hf; [by eexists|].
  destruct (Hf x) as [y Hy]; [left|].
  destruct IH as [ys Hys]; [intros; apply Hf; by right|].
  exists (y :: ys). cbn [mapR]. by rewrite Hy, Hys.
Qed.

Lemma decode_entries_total (self : jsval → result jsval) acc es :
  (∀ k v, (k, v) ∈ es → ∃ r, self v = Ret r) →
  ∃ obj, decode_entries self acc es = Ret obj.
Proof.
  revert acc. induction es as [|[k v] es IH]; intros acc Hs; [by eexists|].
  destruct (Hs k v) as [r Hr]; [left|].
  cbn [decode_entries]. rewrite Hr. cbn [mbind result_bind rbind].
  apply IH. intros k' v' Hin. apply (Hs k'). by right.
Qed.

Lemma tagged_inv (v : jsval) : tagged v = true → ∃ ps, v = JObj ps.
Proof. destruct v; try discriminate. by eexists. Qed.

Lemma forallb_elem {A} (f : A → bool) (xs : list A) (x : A) :
  forallb f xs = true → x ∈ xs → f x = true.
Proof.
  intros Hall Hin%list_elem_of_In. rewrite forallb_forall in Hall. auto.
Qed.

Lemma tagged_map_fields (ps m : fields) (fs0 : jsval) :
  tagged (JObj ps) = true →
  lookup_prop "mapValue" ps = Some (JObj m) →
  lookup_prop "fields" m = Some fs0 →
  ∀ k v, (k, v) ∈ own_entries fs0 → tagged v = true ∨ ∃ s, v = JStr s.
Proof.
  intros Ht Hm Hf k v Hin.
  apply lookup_prop_elem in Hm, Hf.
  cbn [tagged] in Ht. pose proof (forallb_elem _ _ _ Ht Hm) as Ht1.
  cbn in Ht1. pose proof (forallb_elem _ _ _ Ht1 Hf) as Ht2. cbn in Ht2.
  destruct fs0; cbn [own_entries] in Hin; try by apply elem_of_nil in Hin.
  - right. apply elem_of_indexed_from in Hin. clear -Hin.
    induction s as [|c s IH]; cbn in Hin; [by apply elem_of_nil in Hin|].
    apply elem_of_cons in Hin as [->|Hin]; eauto.
  - left. apply elem_of_indexed_from in Hin.
    apply (forallb_elem _ _ _ Ht2 Hin).
  - left. apply (forallb_elem _ _ _ Ht2 Hin).
Qed.

Lemma tagged_array_values (ps a : fields) (vs0 : jsval) :
  tagged (JObj ps) = true →
  lookup_prop "arrayValue" ps = Some (JObj a) →
  lookup_prop "values" a = Some vs0 →
  truthy vs0 = true →
  ∃ items, vs0 = JArr items ∧ ∀ x, x ∈ items → tagged x = true.
Proof.
  intros Ht Ha Hv Htv.
  apply lookup_prop_elem in Ha, Hv.
  cbn [tagged] in Ht. pose proof (forallb_elem _ _ _ Ht Ha) as Ht1.
  cbn in Ht1. pose proof (forallb_elem _ _ _ Ht1 Hv) as Ht2. cbn in Ht2.
  destruct vs0; cbn in Ht2, Htv; try congruence;
    try (rewrite Htv in Ht2; discriminate).
  eexists; split; [done|]. intros x Hx. apply (forallb_elem _ _ _ Ht2 Hx).
Qed.

(** A value that is neither an object nor [null] or [undefined] has no
    tag: it decodes to [null]. *)
Lemma parseFirestoreValue_untagged (v : jsval) :
  match v with JUndefined | JNull | JObj _ => False | _ => True end →
  parseFirestoreValue v = Ret JNull.
Proof.
  intros Hv. rewrite parseFirestoreValue_unfold.
  unfold parseFirestoreValue_body. data_reads. by destruct v.
Qed.

Lemma tagged_array_tag (ps : fields) (av : jsval) :
  tagged (JObj ps) = true →
  lookup_prop "arrayValue" ps = Some av →
  match av with JArr _ | JFun _ => False | _ => True end.
Proof.
  intros Ht Ha. apply lookup_prop_elem in Ha.
  cbn [tagged] in Ht. pose proof (forallb_elem _ _ _ Ht Ha) as Ht1.
  cbn in Ht1. by destruct av.
Qed.

(** The array tag of a tagged value: an empty array when [values] is
    absent, else the decoded elements. *)
Lemma parseFirestoreValue_tagged_array (n : nat) (ps : fields) (av : jsval) :
  (∀ v, (height v ≤ n)%nat → tagged v = true →
        ∃ r, parseFirestoreValue v = Ret r) →
  (height (JObj ps) ≤ S n)%nat →
  tagged (JObj ps) = true →
  lookup_prop "arrayValue" ps = Some av → truthy av = true →
  ∃ r, (vs0 ← get av "values";
        let values := if truthy vs0 then vs0 else JArr [] in
        match values with
        | JArr items => xs ← mapR parseFirestoreValue items; Ret (JArr xs)
        | _ => Throw (TypeError "values.map is not a function")
        end) = Ret r.
Proof.
  intros IH Hle Ht Ea Ta. rewrite get_values.
  pose proof (tagged_array_tag _ _ Ht Ea) as Hav.
  destruct av; try done; cbn; try by eexists.
  destruct (lookup_prop "values" props) as [vs0|] eqn:Ev;
    cbn [default from_option id]; [|by eexists].
  destruct (truthy vs0) eqn:Tv; [|by eexists].
  destruct (tagged_array_values _ _ _ Ht Ea Ev Tv) as (items & -> & Hit).
  destruct (mapR_total parseFirestoreValue items) as [xs Hxs].
  { intros x Hx. apply IH; [|by apply Hit].
    pose proof (height_item _ _ Hx).
    pose proof (height_prop _ _ _ (lookup_prop_elem _ _ _ Ev)).
    pose proof (height_prop _ _ _ (lookup_prop_elem _ _ _ Ea)). lia. }
  rewrite Hxs. by eexists.
Qed.

Lemma parseFirestoreValue_tagged (v : jsval) :
  tagged v = true → ∃ r, parseFirestoreValue v = Ret r.
Proof.
  remember (height v) as n eqn:Hn.
  assert (height v ≤ n)%nat as Hle by lia. clear Hn.
  revert v Hle. induction n as [|n IH]; intros v Hle Ht;
    destruct (tagged_inv _ Ht) as [ps ->]; [cbn in Hle; lia|].
  rewrite parseFirestoreValue_unfold. unfold parseFirestoreValue_body.
  data_reads. cbn [own_property mbind result_bind rbind].
  repeat (destruct (negb (is_undefined _)); [by eexists|]).
  destruct (lookup_prop "mapValue" ps) as [mv|] eqn:Em;
    cbn [default from_option id].
  2:{ cbn [truthy].
      destruct (lookup_prop "arrayValue" ps) as [av|] eqn:Ea;
        cbn [default from_option id]; [|by eexists].
      destruct (truthy av) eqn:Ta; [|by eexists].
      by apply (parseFirestoreValue_tagged_array n ps). }
  destruct (truthy mv) eqn:Tm.
  - data_reads.
    destruct mv; try discriminate; cbn; try by eexists.
    destruct (lookup_prop "fields" props) as [fs0|] eqn:Ef;
      cbn [default from_option id]; [|by eexists].
    destruct (truthy fs0) eqn:Tf; [|by eexists].
    assert (Object_entries fs0 = Ret (own_entries fs0)) as ->.
    { by destruct fs0. }
    cbn [mbind result_bind rbind].
    destruct (decode_entries_total parseFirestoreValue [] (own_entries fs0))
      as [obj Hobj].
    { intros k x Hx.
      destruct (tagged_map_fields _ _ _ Ht Em Ef k x Hx) as [Hx'|[s ->]].
      - apply IH; [|done].
        pose proof (height_prop _ _ _ (lookup_prop_elem _ _ _ Ef)).
        pose proof (height_prop _ _ _ (lookup_prop_elem _ _ _ Em)).
        destruct (tagged_inv _ Hx') as [qs ->].
        assert (0 < height (JObj qs))%nat by (cbn; lia).
        pose proof (own_entries_height _ _ _ Hx). lia.
      - exists JNull. by apply parseFirestoreValue_untagged. }
    rewrite Hobj. by eexists.
  - destruct (lookup_prop "arrayValue" ps) as [av|] eqn:Ea;
      cbn [default from_option id]; [|by eexists].
    destruct (truthy av) eqn:Ta; [|by eexists].
    by apply (parseFirestoreValue_tagged_array n ps).
Qed.



(** Outside the tagged values the decoder can throw: an entry of a map tag
    that is [null] instead of a tagged value makes it read a property of
    [null]. *)
Lemma parseFirestoreValue_null_entry :
  tagged (map_value [("a", JNull)]) = false
  ∧ parseFirestoreValue (map_value [("a", JNull)])
    = Throw (TypeError "Cannot read properties of object").
Proof. split; reflexivity. Qed.

(** A document whose fields are tagged values decodes. *)
Lemma parseFirestoreDocument_tagged (doc : fields) (fs : fields) :
  lookup_prop "fields" doc = Some (JObj fs) →
  (∀ k v, (k, v) ∈ fs → tagged v = true) →
  ∃ data, parseFirestoreDocument (JObj doc) = Ret (JObj data).
Proof.
  intros Hf Hfs. unfold parseFirestoreDocument.
  cbn [truthy negb get mbind result_bind rbind]. rewrite Hf.
  cbn [default from_option id truthy negb Object_entries own_entries].
  cbn [mbind result_bind rbind].
  destruct (decode_entries_total parseFirestoreValue [] fs) as [data Hd].
  { intros k v Hin. apply parseFirestoreValue_tagged. by apply (Hfs k). }
  rewrite Hd. by eexists.
Qed.

End CodecClaims.



(** C7, as stated, fails: an object with a function-valued field is encoded
    without any error, to no field at all. *)
Lemma objectToFirestoreFields_function_no_error :
  objectToFirestoreFields (H:=example_host) (JObj [("onDone", JFun "f")])
  = Ret []
  ∧ ¬ ∃ e, objectToFirestoreFields (H:=example_host)
             (JObj [("onDone", JFun "f")]) = Throw e.
Proof. split; [reflexivity|]. intros [e He]. discriminate He. Qed.

(** * Properties of the operations *)

Create Rewrite HintDb run.

Section WorldRun.
Context `{Host} `{Config}.
Context {server : Type} (serve : server → request → server * option response).

#[local] Existing Instance M_ret.
#[local] Existing Instance M_bind.

Abbreviation Run := (@M server).

(** *** Running a computation *)

Lemma bind_run {A B} (m : Run A) (k : A → Run B) (w : world) :
  (m ≫= k) w
  = match m w with
    | (Ret a, w') => k a w'
    | (Throw e, w') => (Throw e, w')
    end.
Proof. reflexivity. Qed.

Lemma try_catch_rethrow {A} (m : Run A) (w : world) :
  try_catch m (λ error, console_error;; throw error) w = m w.
Proof. unfold try_catch. by destruct (m w) as [[a|e] w']. Qed.

Lemma ret_run {A} (a : A) (w : @world server) :
  (mret a : Run A) w = (Ret a, w).
Proof. reflexivity. Qed.

Lemma throw_run {A} (e : exn) (w : @world server) :
  (throw e : Run A) w = (Throw e, w).
Proof. reflexivity. Qed.

Lemma lift_run {A} (r : result A) (w : @world server) : lift r w = (r, w).
Proof. reflexivity. Qed.

Lemma sessionStorage_getItem_run (k : string) (w : @world server) :
  sessionStorage_getItem k w = (Ret (item (sessionStorage w !! k)), w).
Proof. reflexivity. Qed.

Lemma sessionStorage_setItem_run (k : string) (v : jsval)
    (w : @world server) :
  sessionStorage_setItem k v w
  = (Ret (), with_sessionStorage (insert k (ToString v)) w).
Proof. reflexivity. Qed.

Lemma getAuthToken_run (w : @world server) :
  getAuthToken w = (Ret (item (sessionStorage w !! "firebaseToken")), w).
Proof. reflexivity. Qed.

Lemma getCurrentUser_run (w : @world server) :
  getCurrentUser w = (Ret (currentUser w), w).
Proof. reflexivity. Qed.

Lemma now_iso_run (w : @world server) :
  now_iso w = (Ret (toISOString (clock w (ticks w))), tick w).
Proof. reflexivity. Qed.

Lemma getDefaultGameFields_run (w : @world server) :
  getDefaultGameFields w
  = (Ret (default_game_fields (toISOString (clock w (ticks w)))), tick w).
Proof. reflexivity. Qed.

Lemma response_json_run (r : response) (w : @world server) :
  response_json r w
  = (match json_body r with
     | Some v => Ret v
     | None => Throw (SyntaxError "Unexpected token")
     end, w).
Proof. reflexivity. Qed.

Lemma fetch_run (rq : request) (w : world) :
  fetch serve rq w
  = (match (serve (remote w) rq).2 with
     | Some r => Ret r
     | None => Throw (TypeError "Failed to fetch")
     end, sent rq (serve (remote w) rq).1 w).
Proof. unfold fetch. by destruct (serve (remote w) rq) as [s' [r|]]. Qed.

End WorldRun.

Hint Rewrite @bind_run @try_catch_rethrow @ret_run @throw_run @lift_run
  @sessionStorage_getItem_run @sessionStorage_setItem_run @getAuthToken_run
  @getCurrentUser_run @now_iso_run @getDefaultGameFields_run
  @response_json_run @fetch_run : run.

(** Symbolic execution: the equations above, left to right. *)
Ltac run :=
  repeat (progress (autorewrite with run; cbv beta iota;
                    cbn [fst snd json_body])).

Section WorldFacts.
Context `{Host} `{Config}.
Context {server : Type} (serve : server → request → server * option response).

#[local] Existing Instance M_ret.
#[local] Existing Instance M_bind.

Abbreviation M' := (@M server).

(** *** Frames: what a computation leaves unchanged *)

Section Frame.
Context (R : relation (@world server)) `{!PreOrder R}.

Lemma stable_ret {A} (a : A) : stable R (mret a : M' A).
Proof. intros w. reflexivity. Qed.

Lemma stable_throw {A} (e : exn) : stable R (throw e : M' A).
Proof. intros w. reflexivity. Qed.

Lemma stable_lift {A} (r : result A) : stable R (lift r : M' A).
Proof. intros w. reflexivity. Qed.

Lemma stable_bind {A B} (m : M' A) (k : A → M' B) :
  stable R m → (∀ a, stable R (k a)) → stable R (m ≫= k).
Proof.
  intros Hm Hk w. rewrite bind_run. specialize (Hm w).
  destruct (m w) as [[a|e] w1]; cbn in *; [|done].
  etrans; [exact Hm|apply Hk].
Qed.

Lemma stable_try_catch {A} (m : M' A) (h : exn → M' A) :
  stable R m → (∀ e, stable R (h e)) → stable R (try_catch m h).
Proof.
  intros Hm Hh w. unfold try_catch. specialize (Hm w).
  destruct (m w) as [[a|e] w1]; cbn in *; [done|].
  etrans; [exact Hm|apply Hh].
Qed.

Lemma stable_if {A} (b : bool) (m1 m2 : M' A) :
  stable R m1 → stable R m2 → stable R (if b then m1 else m2).
Proof. by destruct b. Qed.

Lemma stable_console_error : stable R (console_error : M' unit).
Proof. apply stable_ret. Qed.

Lemma stable_response_json (r : response) :
  stable R (response_json r : M' jsval).
Proof. apply stable_lift. Qed.

Lemma stable_sessionStorage_getItem (k : string) :
  stable R (sessionStorage_getItem k : M' jsval).
Proof. intros w. reflexivity. Qed.

Lemma stable_getAuthToken : stable R (getAuthToken : M' jsval).
Proof. apply stable_sessionStorage_getItem. Qed.

Lemma stable_getCurrentUser : stable R (getCurrentUser : M' jsval).
Proof. intros w. reflexivity. Qed.

Lemma stable_localStorage_getItem (k : string) :
  stable R (localStorage_getItem k : M' jsval).
Proof. intros w. reflexivity. Qed.

(** The steps that do change the world. *)
Context (Hfetch : ∀ rq, stable R (fetch serve rq)).
Context (Hnow : stable R (now_iso : M' string)).
Context (Hset : ∀ k v, stable R (sessionStorage_setItem k v : M' unit)).

(** One step of a frame proof, chosen by the head of the computation. *)
Ltac stable_step :=
  lazymatch goal with
  | |- stable _ (_ ≫= _) => apply stable_bind; [|intros]
  | |- stable _ (try_catch _ _) => apply stable_try_catch; [|intros]
  | |- stable _ (if _ then _ else _) => apply stable_if
  | |- stable _ (mret _) => apply stable_ret
  | |- stable _ (throw _) => apply stable_throw
  | |- stable _ (lift _) => apply stable_lift
  | |- stable _ console_error => apply stable_console_error
  | |- stable _ (response_json _) => apply stable_response_json
  | |- stable _ (sessionStorage_getItem _) =>
      apply stable_sessionStorage_getItem
  | |- stable _ getAuthToken => apply stable_getAuthToken
  | |- stable _ getCurrentUser => apply stable_getCurrentUser
  | |- stable _ (localStorage_getItem _) => apply stable_localStorage_getItem
  | |- stable _ _ => solve [auto]
  end.

Lemma stable_getDefaultGameFields :
  stable R (getDefaultGameFields : M' fields).
Proof. unfold getDefaultGameFields. repeat stable_step. Qed.

Lemma stable_refreshAuthToken : stable R (refreshAuthToken serve).
Proof. unfold refreshAuthToken. repeat stable_step. Qed.

Lemma stable_readUserDataWithToken (token : jsval) :
  stable R (readUserDataWithToken serve token).
Proof. unfold readUserDataWithToken. repeat stable_step. Qed.

Lemma stable_createUserDocument : stable R (createUserDocument serve).
Proof.
  pose proof stable_getDefaultGameFields.
  unfold createUserDocument. repeat stable_step.
Qed.

Lemma stable_readUserData : stable R (readUserData serve).
Proof.
  pose proof stable_createUserDocument.
  pose proof stable_refreshAuthToken.
  pose proof stable_readUserDataWithToken.
  unfold readUserData. repeat stable_step.
Qed.

Lemma stable_updateGameData gameName sessionData personalBests :
  stable R (updateGameData serve gameName sessionData personalBests).
Proof.
  pose proof stable_readUserData.
  unfold updateGameData. repeat stable_step.
Qed.

End Frame.

#[local] Instance same_local_preorder : PreOrder (@same_local server).
Proof.
  split; [done|]. intros w1 w2 w3 H12 H23. unfold same_local in *. congruence.
Qed.

Lemma updateGameData_same_local gameName sessionData personalBests w :
  localStorage
    (updateGameData serve gameName sessionData personalBests w).2
  = localStorage w.
Proof.
  apply (stable_updateGameData same_local); try done.
  intros rq w'. unfold fetch, same_local.
  by destruct (serve (remote w') rq) as [s' [r|]].
Qed.

(** C8: [migrateLocalStorage] never throws; without a legacy record it
    returns [false] and leaves the whole world, the request log included,
    as it was; whenever it returns [false] the local storage is intact; and
    when it returns [true] the call of [updateGameData] has returned and
    the only change to the local storage is the removal of the legacy
    record after it. *)
Theorem migrateLocalStorage_safe (gameName localStorageKey : string)
    (w : world) :
  let out := migrateLocalStorage serve gameName localStorageKey w in
  (∃ b, out.1 = Ret b)
  ∧ (truthy (item (localStorage w !! localStorageKey)) = false →
     out = (Ret false, w))
  ∧ (out.1 = Ret false → localStorage out.2 = localStorage w)
  ∧ (out.1 = Ret true →
     ∃ parsedData timestamp w0 v w1,
       JSON_parse (ToString (item (localStorage w !! localStorageKey)))
       = Some parsedData
       ∧ localStorage w0 = localStorage w
       ∧ updateGameData serve gameName
           (migrated_session timestamp parsedData) parsedData w0
         = (Ret v, w1)
       ∧ out.2 = with_localStorage (delete localStorageKey) w1
       ∧ localStorage out.2 = delete localStorageKey (localStorage w)).
Proof.
  cbn zeta.
remember (migrateLocalStorage serve gameName localStorageKey w) as out
  eqn:Hout.
unfold migrateLocalStorage, try_catch in Hout.
rewrite bind_run in Hout. unfold localStorage_getItem at 1 in Hout.
cbv beta iota in Hout.
destruct (truthy (item (localStorage w !! localStorageKey))) eqn:Hld;
  cbn [negb] in Hout.
2:{ subst out. cbn. split_and!; try done; by eexists. }
rewrite bind_run in Hout. unfold lift at 1 in Hout.
destruct (JSON_parse (ToString (item (localStorage w !! localStorageKey))))
  as [parsedData|] eqn:Hparse.
2:{ subst out. cbn. split_and!; try done; by eexists. }
rewrite bind_run in Hout. unfold lift at 1 in Hout.
destruct (get parsedData "lastPlayed") as [lastPlayed|e] eqn:Hlp.
2:{ subst out. cbn. split_and!; try done; by eexists. }
rewrite bind_run in Hout.
set (stamp := (if truthy lastPlayed then mret lastPlayed
               else now_iso ≫= λ iso, mret (JStr iso)) : M' jsval) in Hout.
assert (∃ timestamp w0, stamp w = (Ret timestamp, w0)
                        ∧ localStorage w0 = localStorage w)
  as (timestamp & w0 & Hstamp & Hw0).
{ subst stamp. destruct (truthy lastPlayed); by eexists _, _. }
rewrite Hstamp, bind_run in Hout.
pose proof (updateGameData_same_local gameName
              (migrated_session timestamp parsedData) parsedData w0) as Hu.
destruct (updateGameData serve gameName
            (migrated_session timestamp parsedData) parsedData w0)
  as [[v|e] w1] eqn:Hupd; cbn in Hu;
  unfold localStorage_removeItem, console_error in Hout;
  rewrite ?bind_run in Hout; cbv beta iota in Hout;
  unfold mret, M_ret in Hout; subst out; cbn.
- split_and!; [by eexists|done|done|]. intros _.
  exists parsedData, timestamp, w0, v, w1.
  split_and!; try done. congruence.
- split_and!; [by eexists|done| |done]. intros _. congruence.
Qed.


Lemma parseFirestoreValue_stringValue (x : jsval) :
  is_undefined x = false →
  parseFirestoreValue (JObj [("stringValue", x)]) = Ret x.
Proof.
  intros Hx. rewrite parseFirestoreValue_unfold.
  unfold parseFirestoreValue_body. cbn. by rewrite Hx.
Qed.


(** *** Token refresh *)



(** *** The write of [updateGameData] *)

(** [updateGameData] is its read, the construction of the body and one
    write. *)
Lemma updateGameData_run gameName sessionData personalBests (w : world) :
  authenticated w →
  updateGameData serve gameName sessionData personalBests w
  = (readUserData serve ≫= λ userData,
     lift (firestoreUpdate gameName userData sessionData personalBests)
     ≫= λ body,
     fetch serve (update_request (held "userId" w) (held "firebaseToken" w)
                    gameName body)
     ≫= λ response,
     if negb (ok response) then throw (Error "Failed to update game data")
     else response_json response) w.
Proof.
  intros [Hu Ht]. unfold updateGameData. run.
  fold (held "userId" w) (held "firebaseToken" w).
  rewrite Hu, Ht. cbn [negb orb]. by run.
Qed.

(** C4, as amended: [updateGameData] neither refreshes the token nor
    retries when its write is refused.  Whatever the refusal, a 401
    included, it throws [Failed to update game data] after that one write;
    the token refresh belongs to the read it starts with. *)
Theorem updateGameData_write_refused gameName sessionData personalBests
    (w w1 : world) (userData body : jsval) (r : response) :
  authenticated w →
  readUserData serve w = (Ret userData, w1) →
  firestoreUpdate gameName userData sessionData personalBests = Ret body →
  (serve (remote w1)
     (update_request (held "userId" w) (held "firebaseToken" w) gameName
        body)).2 = Some r →
  ok r = false →
  updateGameData serve gameName sessionData personalBests w
  = (Throw (Error "Failed to update game data"),
     sent (update_request (held "userId" w) (held "firebaseToken" w)
             gameName body)
          (serve (remote w1)
             (update_request (held "userId" w) (held "firebaseToken" w)
                gameName body)).1 w1).
Proof.
  intros Hauth Hread Hbody Hr Hok.
  rewrite updateGameData_run by done. run.
  rewrite Hread. run. rewrite Hbody. run. rewrite Hr, Hok. cbn [negb].
  by run.
Qed.


(** Besides the requests of its read, [updateGameData] sends at most one
    request: a PATCH whose field mask names the category and whose body has
    the category as its only field. *)
Lemma updateGameData_requests gameName sessionData personalBests
    (w : world) :
  requests (updateGameData serve gameName sessionData personalBests w).2
  = requests (readUserData serve w).2
  ∨ ∃ sub,
      requests (updateGameData serve gameName sessionData personalBests w).2
      = requests (readUserData serve w).2
        ++ [update_request (held "userId" w) (held "firebaseToken" w)
              gameName (JObj [("fields", JObj [(gameName, sub)])])].
Proof.
  destruct (negb (truthy (held "userId" w))
            || negb (truthy (held "firebaseToken" w))) eqn:Hauth.
  { left. unfold updateGameData, readUserData. run.
    fold (held "userId" w) (held "firebaseToken" w).
    rewrite Hauth. by run. }
  apply orb_false_elim in Hauth as [Hu%negb_false_iff Ht%negb_false_iff].
  rewrite updateGameData_run by done. run.
  destruct (readUserData serve w) as [[userData|e] w1]; [|by left].
  cbn [snd]. run.
  destruct (firestoreUpdate gameName userData sessionData personalBests)
    as [body|e] eqn:Hbody; [|by left].
  right. run.
  assert (∃ sub, body = JObj [("fields", JObj [(gameName, sub)])])
    as [sub ->].
  { unfold firestoreUpdate in Hbody.
    repeat match type of Hbody with
           | (?r ≫= _) = _ => destruct r; [cbn in Hbody|discriminate]
           end.
    injection Hbody as <-. by eexists. }
  exists sub.
  set (rq := update_request _ _ _ _).
  destruct (serve (remote w1) rq) as [s2 [r|]]; cbn [fst snd]; [|done].
  destruct (negb (ok r)); run; [done|].
  by destruct (json_body r); run.
Qed.

End WorldFacts.

(** * The operations on the example worlds *)




(** A write answered with 401. *)
Lemma updateGameData_write_refused_witness :
  (updateGameData (H:=example_host) (H0:=example_config) read_only "stroop"
     (JObj [("score", JNum 1%float)]) (JObj []) (example_world ())).1
  = Throw (Error "Failed to update game data").
Proof.
  pose (rd := readUserData (H:=example_host) (H0:=example_config) read_only
                (example_world ())).
  pose (body := returned JNull
                  (firestoreUpdate (H:=example_host) "stroop"
                     (returned JNull rd.1) (JObj [("score", JNum 1%float)])
                     (JObj []))).
  rewrite (updateGameData_write_refused (H:=example_host)
             (H0:=example_config) read_only "stroop"
             (JObj [("score", JNum 1%float)]) (JObj []) (example_world ())
             rd.2 (returned JNull rd.1) body (Response 401 None)).
  - reflexivity.
  - split; reflexivity.
  - vm_compute. reflexivity.
  - vm_compute. reflexivity.
  - vm_compute. reflexivity.
  - reflexivity.
Defined.

(** C4, as stated, fails: the write is answered with 401 and
    [updateGameData] throws at once; the log holds the read and that one
    write, and no refresh request. *)
Lemma updateGameData_write_401_no_retry :
  (updateGameData (H:=example_host) (H0:=example_config) read_only "stroop"
     (JObj [("score", JNum 1%float)]) (JObj []) (example_world ())).1
  = Throw (Error "Failed to update game data")
  ∧ req_method
    <$> requests
          (updateGameData (H:=example_host) (H0:=example_config) read_only
             "stroop" (JObj [("score", JNum 1%float)]) (JObj [])
             (example_world ())).2
    = ["GET"; "PATCH"].
Proof. split; reflexivity. Qed.



(** * Updates against the store *)

Section StoreFacts.
Context `{Host} `{Config}.

#[local] Existing Instance M_ret.
#[local] Existing Instance M_bind.

(** *** Strings *)

Lemma strip_prefix_app (p s : string) : strip_prefix p (p +:+ s) = Some s.
Proof.
  induction p as [|a p IH]; [reflexivity|].
  change (String a p +:+ s) with (String a (p +:+ s)).
  cbn [strip_prefix]. by rewrite Ascii.eqb_refl.
Qed.

Lemma append_assoc (a b c : string) : (a +:+ b) +:+ c = a +:+ (b +:+ c).
Proof.
  induction a as [|x a IH]; [reflexivity|].
  change ((String x a +:+ b) +:+ c) with (String x ((a +:+ b) +:+ c)).
  by rewrite IH.
Qed.

Lemma append_nil_r (a : string) : a +:+ "" = a.
Proof.
  induction a as [|x a IH]; [reflexivity|].
  change (String x a +:+ "") with (String x (a +:+ "")). by rewrite IH.
Qed.

Lemma append_nonempty (a : Ascii.ascii) (s t : string) :
  String a s +:+ t ≠ "".
Proof. change (String a s +:+ t) with (String a (s +:+ t)). discriminate. Qed.

Lemma append_neq (p s : string) : s ≠ "" → String.eqb (p +:+ s) p = false.
Proof.
  intros Hs. apply String.eqb_neq. intros Heq.
  rewrite <- (append_nil_r p) in Heq at 2.
  by apply (inj (String.append p)) in Heq.
Qed.

(** *** Property lists *)

Lemma lookup_prop_fmap (f : jsval → jsval) (k : string) (ps : fields) :
  lookup_prop k (map (λ p, (p.1, f p.2)) ps) = f <$> lookup_prop k ps.
Proof.
  induction ps as [|[k' v'] ps IH]; [reflexivity|].
  cbn [map lookup_prop fst snd]. by destruct (String.eqb k' k).
Qed.



Lemma lookup_set_prop (k k' : string) (v : jsval) (ps : fields) :
  lookup_prop k' (set_prop k v ps)
  = if String.eqb k k' then Some v else lookup_prop k' ps.
Proof.
  induction ps as [|[k0 v0] ps IH]; cbn [set_prop lookup_prop].
  - by destruct (String.eqb k k').
  - destruct (String.eqb k0 k) eqn:E; cbn [lookup_prop].
    + apply String.eqb_eq in E as ->. by destruct (String.eqb k k').
    + rewrite IH. destruct (String.eqb k0 k') eqn:E'; [|done].
      apply String.eqb_eq in E' as ->. by rewrite String.eqb_sym, E.
Qed.

Lemma elem_of_set_prop (k k' : string) (v v' : jsval) (ps : fields) :
  (k', v') ∈ set_prop k v ps → (k' = k ∧ v' = v) ∨ (k', v') ∈ ps.
Proof.
  induction ps as [|[k0 v0] ps IH]; cbn [set_prop].
  - intros [[= -> ->]|[]%elem_of_nil]%elem_of_cons. by left.
  - destruct (String.eqb k0 k) eqn:E.
    + intros [[= -> ->]|Hin]%elem_of_cons; [by left|].
      right. by right.
    + intros [[= -> ->]|Hin]%elem_of_cons; [right; left|].
      destruct (IH Hin) as [?|?]; [by left|right; by right].
Qed.

(** *** Decoding a document *)

Lemma decode_entries_decodable (self : jsval → result jsval) acc (fs : fields) :
  NoDup (acc.*1 ++ fs.*1) → "__proto__" ∉ fs.*1 →
  (∀ k v, (k, v) ∈ fs → ∃ r, self v = Ret r) →
  decode_entries self acc fs
  = Ret (acc ++ map (λ p, (p.1, returned JUndefined (self p.2))) fs).
Proof.
  revert acc. induction fs as [|[k v] fs IH]; intros acc Hnd Hpf Hs.
  - cbn. by rewrite app_nil_r.
  - destruct (Hs k v) as [r Hr]; [left|].
    cbn [decode_entries map fst snd]. rewrite Hr.
    cbn [mbind result_bind rbind returned].
    cbn [fmap list_fmap fst] in Hnd, Hpf.
    apply not_elem_of_cons in Hpf as [Hk Hpf].
    rewrite assign_set_prop by done.
    rewrite lookup_prop_None_set.
    2:{ apply NoDup_app in Hnd as (_ & Hd & _). intros Hk'.
        apply (Hd k Hk'). left. }
    rewrite IH.
    + by rewrite <- app_assoc.
    + rewrite fmap_app. cbn [fmap list_fmap fst].
      rewrite <- app_assoc. exact Hnd.
    + done.
    + intros k' v' Hin. apply (Hs k'). by right.
Qed.


(** *** What JSON text carries unchanged *)





(** *** The answers of the store *)

Lemma firestore_read (st : store) (uid tok : string) (fs : fields) :
  st_path st = doc_url (JStr uid) → st_token st = tok →
  st_doc st = Some fs →
  firestore st (read_request (JStr uid) (JStr tok))
  = (st, Some (Response 200 (Some (JObj [("fields", JObj fs)])))).
Proof.
  intros Hp Ht Hd. unfold firestore, read_request, bearer_headers.
  cbn [req_headers req_method req_url req_body lookup_header ToString].
  rewrite (String.eqb_refl "Authorization"), Ht.
  rewrite bool_decide_true by done. cbn [negb].
  rewrite (String.eqb_refl "GET"), Hp, String.eqb_refl, Hd. reflexivity.
Qed.


(** *** The new sub-record *)




Lemma take_bound {A} (n : nat) (l : list A) :
  (if (n <? length l)%nat then take n l else l) = take n l.
Proof.
  destruct (n <? length l)%nat eqn:E; [done|].
  apply Nat.ltb_ge in E. by rewrite take_ge.
Qed.



(** Whatever the record read and the arguments, a body that
    [updateGameData] writes holds at most 30 sessions, the new one first. *)
Lemma firestoreUpdate_bounded (gameName : string)
    (userData sessionData personalBests body : jsval) :
  firestoreUpdate gameName userData sessionData personalBests = Ret body →
  ∃ bests session values,
    body = JObj [("fields",
                  JObj [(gameName,
                         map_value
                           [("personalBests", map_value bests);
                            ("sessions",
                             JObj [("arrayValue",
                                    JObj [("values",
                                           JArr (map_value session
                                                 :: values))])])])])]
    ∧ objectToFirestoreFields sessionData = Ret session
    ∧ (length (map_value session :: values) ≤ 30)%nat.
Proof.
  unfold firestoreUpdate. intros Hbody.
  destruct (get userData gameName) as [stored|]; [|discriminate].
  cbn [mbind result_bind rbind] in Hbody.
  destruct (get _ "sessions") as [sessions0|]; [|discriminate].
  cbn [mbind result_bind rbind] in Hbody.
  destruct (unshift sessions0 sessionData) as [sessions1|] eqn:Hun;
    [|discriminate].
  cbn [mbind result_bind rbind] in Hbody. rewrite take_bound in Hbody.
  destruct (objectToFirestoreFields personalBests) as [bests|];
    [|discriminate].
  cbn [mbind result_bind rbind] in Hbody.
  destruct (mapR _ (take 30 sessions1)) as [values|] eqn:Hmap;
    [|discriminate].
  cbn [mbind result_bind rbind] in Hbody. injection Hbody as <-.
  pose proof (mapR_length _ _ _ Hmap) as Hlen.
  rewrite length_take in Hlen.
  assert (∃ items, sessions1 = sessionData :: items) as [items ->].
  { destruct sessions0; try discriminate. injection Hun as <-. by eexists. }
  cbn [take mapR] in Hmap.
  destruct (objectToFirestoreFields sessionData) as [session|];
    [|discriminate].
  cbn [mbind result_bind rbind] in Hmap.
  destruct (mapR _ (take 29 items)) as [rest|]; [|discriminate].
  cbn [mbind result_bind rbind] in Hmap. injection Hmap as <-.
  exists bests, session, rest. split_and!; [done..|]. lia.
Qed.

(** *** One update *)

Lemma synced_authenticated (w : @world store) :
  synced w →
  ∃ uid tok,
    held "userId" w = JStr uid ∧ held "firebaseToken" w = JStr tok
    ∧ authenticated w
    ∧ st_path (remote w) = doc_url (JStr uid) ∧ st_token (remote w) = tok.
Proof.
  intros (uid & tok & Hu & Hune & Ht & Htne & Hp & Htok).
  exists uid, tok. unfold authenticated, held. rewrite Hu, Ht.
  cbn [item from_option truthy]. split_and!; try done.
  - by apply negb_true_iff, String.eqb_neq.
  - by apply negb_true_iff, String.eqb_neq.
Qed.




(** *** What an update leaves alone *)

Lemma lookup_delete_prop (k k' : string) (ps : fields) :
  k' ≠ k → lookup_prop k' (delete_prop k ps) = lookup_prop k' ps.
Proof.
  intros Hne. induction ps as [|[k0 v0] ps IH]; [reflexivity|].
  cbn [delete_prop lookup_prop]. destruct (String.eqb k0 k) eqn:E.
  - apply String.eqb_eq in E as ->.
    destruct (String.eqb k k') eqn:E'; [|done].
    apply String.eqb_eq in E'. congruence.
  - cbn [lookup_prop]. by rewrite IH.
Qed.

Lemma patch_fields_other (gameName k : string) (body : option jsval)
    (doc : option fields) :
  k ≠ gameName →
  lookup_prop k (patch_fields (Some gameName) body doc)
  = lookup_prop k (default [] doc).
Proof.
  intros Hne. unfold patch_fields.
  destruct (lookup_prop gameName _) as [v|].
  - rewrite lookup_set_prop. destruct (String.eqb gameName k) eqn:E; [|done].
    apply String.eqb_eq in E. congruence.
  - by apply lookup_delete_prop.
Qed.

Lemma firestore_get (st : store) (hs : list (string * string))
    (fs : fields) :
  st_doc st = Some fs →
  ∃ r, firestore st (Request "GET" (st_path st) hs None) = (st, Some r)
       ∧ status r ≠ 404.
Proof.
  intros Hd. unfold firestore. cbn [req_headers req_method req_url].
  destruct (negb _); [by eexists|].
  rewrite (String.eqb_refl "GET"), String.eqb_refl, Hd. by eexists.
Qed.

Lemma firestore_post (st : store) (url : string)
    (hs : list (string * string)) (body : option jsval) :
  ∃ r, firestore st (Request "POST" url hs body) = (st, Some r)
       ∧ ok r = false.
Proof.
  unfold firestore. cbn [req_headers req_method req_url].
  destruct (negb _); [by eexists|].
  change (String.eqb "POST" "GET") with false.
  change (String.eqb "POST" "PATCH") with false. by eexists.
Qed.

Lemma firestore_masked_patch (st : store) (gameName : string)
    (hs : list (string * string)) (body : option jsval) (fs : fields) :
  st_doc st = Some fs →
  ∃ fs',
    st_doc (firestore st (Request "PATCH"
                            (st_path st +:+ "?updateMask.fieldPaths="
                             +:+ gameName) hs body)).1 = Some fs'
    ∧ st_path (firestore st (Request "PATCH"
                               (st_path st +:+ "?updateMask.fieldPaths="
                                +:+ gameName) hs body)).1 = st_path st
    ∧ ∀ k, k ≠ gameName → lookup_prop k fs' = lookup_prop k fs.
Proof.
  intros Hd. unfold firestore. cbn [req_headers req_method req_url req_body].
  destruct (negb _); [by exists fs|].
  change (String.eqb "PATCH" "GET") with false. cbn iota.
  rewrite (String.eqb_refl "PATCH"), append_neq by apply append_nonempty.
  unfold mask_parameter. rewrite <- append_assoc, strip_prefix_app.
  cbn [fmap option_fmap option_map fst st_doc st_path].
  eexists. split_and!; [done..|].
  intros k Hk. by rewrite patch_fields_other, Hd.
Qed.

(** The read of [updateGameData] leaves an existing document as it is. *)
Lemma readUserData_store_remote (w : @world store) (fs : fields) :
  st_path (remote w) = doc_url (held "userId" w) →
  st_doc (remote w) = Some fs →
  remote (readUserData firestore w).2 = remote w.
Proof.
  intros Hp Hd. unfold readUserData. run.
  fold (held "userId" w) (held "firebaseToken" w).
  destruct (negb (truthy (held "userId" w))
            || negb (truthy (held "firebaseToken" w))); run; [done|].
  rewrite <- Hp.
  destruct (firestore_get (remote w)
              (bearer_headers (held "firebaseToken" w)) fs Hd)
    as (r & -> & H404).
  cbn [fst snd]. apply Z.eqb_neq in H404. rewrite H404.
  destruct (negb (ok r)).
  - destruct (status r =? 401); run; [|done].
    unfold refreshAuthToken. run.
    destruct (negb (truthy _)); run; [done|].
    cbn [remote sent].
    match goal with
    | |- context [firestore ?st (Request "POST" ?u ?h ?b)] =>
        destruct (firestore_post st u h b) as (r2 & -> & Hok)
    end.
    cbn [fst snd]. rewrite Hok. cbn [negb]. by run.
  - run. destruct (json_body r) as [doc|]; run; [|done].
    by destruct (parseFirestoreDocument doc).
Qed.

(** On the store, one call of [updateGameData] leaves every other field of
    an existing document of the user as it was, whatever the arguments and
    whatever the outcome. *)
Lemma updateGameData_store_frame (w : @world store) (gameName : string)
    (sessionData personalBests : jsval) (fs : fields) :
  st_path (remote w) = doc_url (held "userId" w) →
  st_doc (remote w) = Some fs →
  ∃ fs',
    st_doc (remote (updateGameData firestore gameName sessionData
                      personalBests w).2) = Some fs'
    ∧ ∀ k, k ≠ gameName → lookup_prop k fs' = lookup_prop k fs.
Proof.
  intros Hp Hd.
  destruct (negb (truthy (held "userId" w))
            || negb (truthy (held "firebaseToken" w))) eqn:Hauth.
  { exists fs. split; [|done]. unfold updateGameData. run.
    fold (held "userId" w) (held "firebaseToken" w). rewrite Hauth. by run. }
  apply orb_false_elim in Hauth as [Hu%negb_false_iff Ht%negb_false_iff].
  rewrite updateGameData_run by done. run.
  pose proof (readUserData_store_remote w fs Hp Hd) as Hrem.
  destruct (readUserData firestore w) as [[userData|e] w1]; cbn [snd] in Hrem;
    [|exists fs; cbn [snd]; by rewrite Hrem].
  run.
  destruct (firestoreUpdate gameName userData sessionData personalBests)
    as [body|e]; run; [|exists fs; cbn [snd]; by rewrite Hrem].
  unfold update_request. rewrite Hrem, <- Hp.
  destruct (firestore_masked_patch (remote w) gameName
              (bearer_headers (held "firebaseToken" w)) (Some body) fs Hd)
    as (fs' & Hd' & _ & Hother).
  exists fs'. split; [|done].
  match goal with
  | |- context [firestore ?st ?rq] =>
      destruct (firestore st rq) as [st' [r|]]
  end; cbn [fst snd] in *; [|done].
  destruct (negb (ok r)); run; [done|].
  by destruct (json_body r); run.
Qed.

(** C6: the write of [updateGameData] is restricted to the category.
    Whatever the remote side, besides the requests of its read the call sends
    at most one request, a PATCH whose field mask names the category and
    whose body has the category as its only field.  On the store such a PATCH
    leaves every other field as it was, and a whole call leaves every other
    field of the user's document, the profile and the other categories, as it
    was. *)
Theorem updateGameData_scoped_write :
  (∀ (server : Type) (serve : server → request → server * option response)
     (w : @world server) gameName sessionData personalBests,
     requests (updateGameData serve gameName sessionData personalBests w).2
     = requests (readUserData serve w).2
     ∨ ∃ sub,
         requests
           (updateGameData serve gameName sessionData personalBests w).2
         = requests (readUserData serve w).2
           ++ [update_request (held "userId" w) (held "firebaseToken" w)
                 gameName (JObj [("fields", JObj [(gameName, sub)])])])
  ∧ (∀ gameName k body doc,
       k ≠ gameName →
       lookup_prop k (patch_fields (Some gameName) body doc)
       = lookup_prop k (default [] doc))
  ∧ (∀ (w : @world store) gameName sessionData personalBests fs,
       st_path (remote w) = doc_url (held "userId" w) →
       st_doc (remote w) = Some fs →
       ∃ fs',
         st_doc (remote (updateGameData firestore gameName sessionData
                           personalBests w).2) = Some fs'
         ∧ ∀ k, k ≠ gameName → lookup_prop k fs' = lookup_prop k fs).
Proof.
  split_and!.
  - intros. apply updateGameData_requests.
  - intros. by apply patch_fields_other.
  - intros. by apply updateGameData_store_frame.
Qed.

(** *** Sequences of updates *)




End StoreFacts.


(** * The operations on the user document, case by case *)

Section DataRun.
Context `{Host} `{Config}.
Context {server : Type} (serve : server → request → server * option response).

#[local] Existing Instance M_ret.
#[local] Existing Instance M_bind.

(** The caller lacks a user id or an access token: the entry is absent or
    the empty string. *)
Lemma not_authenticated (w : @world server) :
  ¬ authenticated w →
  negb (truthy (held "userId" w)) || negb (truthy (held "firebaseToken" w))
  = true.
Proof.
  unfold authenticated. intros Hn.
  destruct (truthy (held "userId" w)), (truthy (held "firebaseToken" w));
    try reflexivity.
  by destruct Hn.
Qed.

Lemma readUserData_no_session (w : @world server) :
  ¬ authenticated w →
  readUserData serve w = (Throw (Error "User not authenticated"), w).
Proof.
  intros Hn%not_authenticated. unfold readUserData. run.
  fold (held "userId" w) (held "firebaseToken" w). rewrite Hn. by run.
Qed.

Lemma updateGameData_no_session gameName sessionData personalBests
    (w : @world server) :
  ¬ authenticated w →
  updateGameData serve gameName sessionData personalBests w
  = (Throw (Error "User not authenticated"), w).
Proof.
  intros Hn%not_authenticated. unfold updateGameData. run.
  fold (held "userId" w) (held "firebaseToken" w). rewrite Hn. by run.
Qed.

(** [refreshAuthToken] by cases. *)
Lemma refreshAuthToken_run (w : @world server) :
  refreshAuthToken serve w
  = if truthy (held "refreshToken" w) then
      let w1 := sent (token_refresh w)
                  (serve (remote w) (token_refresh w)).1 w in
      match (serve (remote w) (token_refresh w)).2 with
      | None => (Throw (TypeError "Failed to fetch"), w1)
      | Some r =>
          if ok r then
            match json_body r with
            | None => (Throw (SyntaxError "Unexpected token"), w1)
            | Some data =>
                match get data "id_token" with
                | Throw e => (Throw e, w1)
                | Ret id_token =>
                    (Ret id_token,
                     with_sessionStorage
                       (λ ss, <["refreshToken" :=
                                  ToString (returned JUndefined
                                              (get data "refresh_token"))]>
                                (<["firebaseToken" := ToString id_token]> ss))
                       w1)
                end
            end
          else (Throw (Error "Failed to refresh token"), w1)
      end
    else (Throw (Error "No refresh token available"), w).
Proof.
  unfold refreshAuthToken. run. fold (held "refreshToken" w).
  destruct (truthy (held "refreshToken" w)); cbn [negb]; run;
    [|reflexivity].
  fold (refresh_request (held "refreshToken" w)). fold (token_refresh w).
  cbn zeta.
  destruct (serve (remote w) (token_refresh w)) as [s' [r|]];
    cbn [fst snd]; [|reflexivity].
  destruct (ok r); cbn [negb]; run; [|reflexivity].
  destruct (json_body r) as [data|]; run; [|reflexivity].
  destruct (get data "id_token") as [id_token|e] eqn:Hid; run;
    [|reflexivity].
  assert (∃ x, get data "refresh_token" = Ret x) as [x Hx].
  { destruct data; try discriminate; by eexists. }
  rewrite Hx. run. reflexivity.
Qed.

(** [readUserData] by the answer to its request. *)
Lemma readUserData_run (w : @world server) :
  authenticated w →
  readUserData serve w
  = let w1 := sent (first_read w) (after_read serve w) w in
    match (serve (remote w) (first_read w)).2 with
    | None => (Throw (TypeError "Failed to fetch"), w1)
    | Some r =>
        if status r =? 404 then createUserDocument serve w1
        else if ok r then
          (match json_body r with
           | Some doc => parseFirestoreDocument doc
           | None => Throw (SyntaxError "Unexpected token")
           end, w1)
        else if status r =? 401 then
          (refreshAuthToken serve ≫= readUserDataWithToken serve) w1
        else (Throw (Error "Failed to read user data"), w1)
    end.
Proof.
  intros [Hu Ht]. unfold readUserData. run.
  fold (held "userId" w) (held "firebaseToken" w).
  rewrite Hu, Ht. cbn [negb orb]. run.
  fold (read_request (held "userId" w) (held "firebaseToken" w)).
  fold (first_read w). fold (after_read serve w). cbn zeta.
  destruct ((serve (remote w) (first_read w)).2) as [r|]; [|reflexivity].
  destruct (status r =? 404); [reflexivity|].
  destruct (ok r); cbn [negb]; run.
  - destruct (json_body r); run; reflexivity.
  - destruct (status r =? 401); run; reflexivity.
Qed.

Lemma clock_tick (w : @world server) : clock (tick w) = clock w.
Proof. reflexivity. Qed.

Lemma ticks_tick (w : @world server) : ticks (tick w) = S (ticks w).
Proof. reflexivity. Qed.

(** [createUserDocument] for a current user: eight readings of the clock
    and one request. *)
Lemma createUserDocument_run (w : @world server) (u : fields) :
  currentUser w = JObj u →
  createUserDocument serve w
  = let rq := create_request (held "userId" w) (held "firebaseToken" w)
                (first_document w) in
    (match (serve (remote w) rq).2 with
     | None => Throw (TypeError "Failed to fetch")
     | Some r =>
         if ok r then
           match json_body r with
           | Some doc => parseFirestoreDocument doc
           | None => Throw (SyntaxError "Unexpected token")
           end
         else Throw (Error "Failed to create user document")
     end,
     sent rq (serve (remote w) rq).1 (Nat.iter 8 tick w)).
Proof.
  intros Hu. unfold createUserDocument. run.
  rewrite Hu. cbn [get]. run.
  rewrite ?clock_tick, ?ticks_tick.
  fold (held "userId" w) (held "firebaseToken" w).
  cbn zeta. unfold first_document, property, stamp. rewrite Hu.
  cbn [get returned Nat.add Nat.iter nat_rect].
  unfold create_request.
  set (rq := Request _ _ _ _).
  set (w8 := tick _).
  change (remote w8) with (remote w).
  clearbody rq w8.
  destruct (serve (remote w) rq) as [s' [r|]]; cbn [fst snd];
    [|reflexivity].
  destruct (ok r); cbn [negb]; run; [|reflexivity].
  destruct (json_body r); run; reflexivity.
Qed.

(** [migrateLocalStorage] by cases. *)
Lemma migrateLocalStorage_run (gameName localStorageKey : string)
    (w : @world server) :
  migrateLocalStorage serve gameName localStorageKey w
  = if truthy (item (localStorage w !! localStorageKey)) then
      match JSON_parse (ToString (item (localStorage w !! localStorageKey)))
      with
      | None => (Ret false, w)
      | Some parsedData =>
          match get parsedData "lastPlayed" with
          | Throw _ => (Ret false, w)
          | Ret lastPlayed =>
              let timestamp :=
                if truthy lastPlayed then lastPlayed
                else JStr (toISOString (clock w (ticks w))) in
              let w0 := if truthy lastPlayed then w else tick w in
              match updateGameData serve gameName
                      (migrated_session timestamp parsedData) parsedData w0
              with
              | (Ret _, w1) =>
                  (Ret true, with_localStorage (delete localStorageKey) w1)
              | (Throw _, w1) => (Ret false, w1)
              end
          end
      end
    else (Ret false, w).
Proof.
  unfold migrateLocalStorage, try_catch. rewrite bind_run.
  unfold localStorage_getItem at 1. cbv beta iota.
  destruct (truthy (item (localStorage w !! localStorageKey))); cbn [negb];
    [|reflexivity].
  rewrite bind_run, lift_run.
  destruct (JSON_parse (ToString (item (localStorage w !! localStorageKey))))
    as [parsedData|]; [|reflexivity].
  cbv beta iota. rewrite bind_run, lift_run.
  destruct (get parsedData "lastPlayed") as [lastPlayed|e]; [|reflexivity].
  cbv beta iota. rewrite bind_run. cbn zeta.
  destruct (truthy lastPlayed).
  - rewrite ret_run. cbv beta iota. rewrite bind_run.
    destruct (updateGameData serve gameName _ parsedData w) as [[v|e] w1];
      cbv beta iota; [|reflexivity].
    unfold localStorage_removeItem. rewrite bind_run. cbv beta iota.
    reflexivity.
  - rewrite bind_run, now_iso_run. cbv beta iota. rewrite ret_run.
    cbv beta iota. rewrite bind_run.
    destruct (updateGameData serve gameName _ parsedData (tick w))
      as [[v|e] w1]; cbv beta iota; [|reflexivity].
    unfold localStorage_removeItem. rewrite bind_run. cbv beta iota.
    reflexivity.
Qed.

End DataRun.

Section DataFacts.
Context `{Host} `{Config}.
Context {server : Type} (serve : server → request → server * option response).

#[local] Existing Instance M_ret.
#[local] Existing Instance M_bind.

(** *** Without a session *)

(** X1: Without a user id or an access token in the token store (absent, or the
    empty string), [readUserData] and [updateGameData] throw
    [User not authenticated] at once: no request is sent and nothing
    changes. *)
Theorem data_access_requires_session gameName sessionData personalBests
    (w : @world server) :
  ¬ authenticated w →
  readUserData serve w = (Throw (Error "User not authenticated"), w)
  ∧ updateGameData serve gameName sessionData personalBests w
    = (Throw (Error "User not authenticated"), w).
Proof.
  intros Hn. split;
    [by apply readUserData_no_session|by apply updateGameData_no_session].
Qed.

(** *** The answers to the read *)

Lemma createUserDocument_no_user (w : @world server) (e : exn) :
  get (currentUser w) "email" = Throw e →
  createUserDocument serve w = (Throw e, w).
Proof. intros He. unfold createUserDocument. run. rewrite He. by run. Qed.

Lemma createUserDocument_requests (w : @world server) (u : fields) :
  currentUser w = JObj u →
  ∃ fs,
    requests (createUserDocument serve w).2
    = requests w
      ++ [create_request (held "userId" w) (held "firebaseToken" w)
            (JObj [("fields", JObj fs)])]
    ∧ fs.*1 = "profile" :: game_names.
Proof.
  intros Hu. unfold createUserDocument.
  run. rewrite Hu. cbn [get]. run.
  eexists. split.
  - set (rq := Request _ _ _ _).
    destruct (serve _ rq) as [s' [r|]]; cbn [fst snd]; [|reflexivity].
    destruct (negb (ok r)); run; [reflexivity|].
    destruct (json_body r); run; reflexivity.
  - reflexivity.
Qed.

(** X2: When the read is answered with 404, [readUserData] is
    [createUserDocument]: for a current user, the read is followed by one
    PATCH of the whole document, with the profile and the seven games; when
    no user is current ([currentUser] is still [null]), it throws a
    [TypeError] and nothing is created. *)
Theorem readUserData_creates_missing_document (w : @world server)
    (r : response) :
  authenticated w →
  (serve (remote w) (first_read w)).2 = Some r →
  status r = 404 →
  readUserData serve w
  = createUserDocument serve (sent (first_read w) (after_read serve w) w)
  ∧ (∀ u, currentUser w = JObj u →
       ∃ fs,
         requests (readUserData serve w).2
         = requests w
           ++ [first_read w;
               create_request (held "userId" w) (held "firebaseToken" w)
                 (JObj [("fields", JObj fs)])]
         ∧ fs.*1 = "profile" :: game_names)
  ∧ (currentUser w = JNull →
     ∃ e, readUserData serve w
          = (Throw (TypeError e),
             sent (first_read w) (after_read serve w) w)).
Proof.
  intros Hauth Hr Hs.
  assert (readUserData serve w
          = createUserDocument serve
              (sent (first_read w) (after_read serve w) w)) as Hrun.
  { rewrite readUserData_run by done. cbn zeta. rewrite Hr, Hs.
    reflexivity. }
  split_and!; [done| |].
  - intros u Hu. rewrite Hrun.
    destruct (createUserDocument_requests
                (sent (first_read w) (after_read serve w) w) u Hu)
      as (fs & Hrq & Hk).
    exists fs. split; [|done]. rewrite Hrq. cbn [requests sent].
    by rewrite <- app_assoc.
  - intros Hu. eexists. rewrite Hrun.
    apply createUserDocument_no_user. cbn [currentUser sent].
    rewrite Hu. reflexivity.
Qed.

(** X3: Any answer to the read other than 404 and 401 ends [readUserData] after
    that one request: a success is decoded, a failure is thrown as
    [Failed to read user data], and in both cases the token store is as it
    was. *)
Theorem readUserData_single_request (w : @world server) (r : response) :
  authenticated w →
  (serve (remote w) (first_read w)).2 = Some r →
  status r ≠ 404 → status r ≠ 401 →
  readUserData serve w
  = (if ok r then
       match json_body r with
       | Some doc => parseFirestoreDocument doc
       | None => Throw (SyntaxError "Unexpected token")
       end
     else Throw (Error "Failed to read user data"),
     sent (first_read w) (after_read serve w) w).
Proof.
  intros Hauth Hr H404 H401.
  rewrite readUserData_run by done. cbn zeta. rewrite Hr.
  apply Z.eqb_neq in H404, H401. rewrite H404, H401.
  by destruct (ok r).
Qed.

(** X4: A 401 answer when the token store has no refresh token: [readUserData]
    throws [No refresh token available] after the read, without any
    further request. *)
Theorem readUserData_expired_without_refresh_token (w : @world server)
    (r : response) :
  authenticated w →
  truthy (held "refreshToken" w) = false →
  (serve (remote w) (first_read w)).2 = Some r →
  status r = 401 →
  readUserData serve w
  = (Throw (Error "No refresh token available"),
     sent (first_read w) (after_read serve w) w).
Proof.
  intros Hauth Hrt Hr Hs.
  rewrite readUserData_run by done. cbn zeta. rewrite Hr, Hs.
  unfold ok. rewrite Hs. cbn. rewrite bind_run, refreshAuthToken_run.
  change (held "refreshToken" (sent (first_read w) (after_read serve w) w))
    with (held "refreshToken" w).
  by rewrite Hrt.
Qed.

(** *** No write without a read and a body *)

Lemma firestoreUpdate_without_bests gameName userData sessionData
    personalBests :
  personalBests = JNull ∨ personalBests = JUndefined →
  ∃ e, firestoreUpdate gameName userData sessionData personalBests = Throw e.
Proof.
  intros Hpb. unfold firestoreUpdate.
  destruct (get userData gameName) as [stored|e]; [|by eexists].
  cbn [mbind result_bind rbind].
  destruct (get _ "sessions") as [sessions0|e]; [|by eexists].
  cbn [mbind result_bind rbind].
  destruct (unshift sessions0 sessionData) as [sessions1|e]; [|by eexists].
  cbn [mbind result_bind rbind].
  destruct Hpb as [-> | ->]; by eexists.
Qed.

Lemma firestoreUpdate_without_sessions gameName userData sessionData
    personalBests stored sessions0 :
  get userData gameName = Ret stored → truthy stored = true →
  get stored "sessions" = Ret sessions0 →
  (∀ items, sessions0 ≠ JArr items) →
  ∃ e, firestoreUpdate gameName userData sessionData personalBests
       = Throw (TypeError e).
Proof.
  intros Hst Ht Hss Hna. unfold firestoreUpdate.
  rewrite Hst. cbn [mbind result_bind rbind]. rewrite Ht, Hss.
  cbn [mbind result_bind rbind].
  destruct sessions0; try (by eexists). by destruct (Hna items).
Qed.

(** X5: [updateGameData] writes only after its read has returned and the body
    has been built.  When the read throws, or when the body cannot be
    built, the error is rethrown and no write request is sent.  The body
    cannot be built when the personal bests are [null] or [undefined], or
    when the stored sub-record of the category has no [sessions] array. *)
Theorem updateGameData_no_write_on_failure gameName sessionData
    personalBests (w : @world server) :
  authenticated w →
  (∀ e w1, readUserData serve w = (Throw e, w1) →
           updateGameData serve gameName sessionData personalBests w
           = (Throw e, w1))
  ∧ (∀ userData e w1,
       readUserData serve w = (Ret userData, w1) →
       firestoreUpdate gameName userData sessionData personalBests
       = Throw e →
       updateGameData serve gameName sessionData personalBests w
       = (Throw e, w1))
  ∧ (∀ userData,
       personalBests = JNull ∨ personalBests = JUndefined →
       ∃ e, firestoreUpdate gameName userData sessionData personalBests
            = Throw e)
  ∧ (∀ userData stored sessions0,
       get userData gameName = Ret stored → truthy stored = true →
       get stored "sessions" = Ret sessions0 →
       (∀ items, sessions0 ≠ JArr items) →
       ∃ e, firestoreUpdate gameName userData sessionData personalBests
            = Throw (TypeError e)).
Proof.
  intros Hauth. split_and!.
  - intros e w1 Hread. rewrite updateGameData_run by done.
    rewrite bind_run, Hread. reflexivity.
  - intros userData e w1 Hread Hbody. rewrite updateGameData_run by done.
    rewrite bind_run, Hread. cbv beta iota.
    rewrite bind_run, lift_run, Hbody. reflexivity.
  - intros userData. apply firestoreUpdate_without_bests.
  - intros userData stored sessions0.
    apply firestoreUpdate_without_sessions.
Qed.

(** *** A category that the record lacks *)


End DataFacts.

(** *** What the operations leave alone *)

Section TokenFrame.
Context `{Host} `{Config}.
Context {server : Type} (serve : server → request → server * option response).

#[local] Existing Instance M_ret.
#[local] Existing Instance M_bind.

Context (R : relation (@world server)) `{!PreOrder R}.
Context (Hfetch : ∀ rq, stable R (fetch serve rq)).
Context (Hnow : stable R (now_iso : @M server string)).
Context (Hfirebase :
  ∀ v, stable R (sessionStorage_setItem "firebaseToken" v : @M server unit)).
Context (Hrefresh :
  ∀ v, stable R (sessionStorage_setItem "refreshToken" v : @M server unit)).

(** One step of a frame proof. *)
Ltac frame_step :=
  lazymatch goal with
  | |- stable _ (_ ≫= _) => apply stable_bind; [done| |intros]
  | |- stable _ (try_catch _ _) => apply stable_try_catch; [done| |intros]
  | |- stable _ (if _ then _ else _) => apply stable_if
  | |- stable _ (mret _) => by apply stable_ret
  | |- stable _ (throw _) => by apply stable_throw
  | |- stable _ (lift _) => by apply stable_lift
  | |- stable _ console_error => by apply stable_console_error
  | |- stable _ (response_json _) => by apply stable_response_json
  | |- stable _ (sessionStorage_getItem _) =>
      by apply stable_sessionStorage_getItem
  | |- stable _ getAuthToken => by apply stable_getAuthToken
  | |- stable _ _ => solve [auto]
  end.

Lemma refreshAuthToken_frame : stable R (refreshAuthToken serve).
Proof. unfold refreshAuthToken. repeat frame_step. Qed.

Lemma readUserData_frame : stable R (readUserData serve).
Proof.
  pose proof (stable_createUserDocument serve R Hfetch Hnow).
  pose proof refreshAuthToken_frame.
  pose proof (stable_readUserDataWithToken serve R Hfetch).
  unfold readUserData. repeat frame_step.
Qed.

Lemma updateGameData_frame gameName sessionData personalBests :
  stable R (updateGameData serve gameName sessionData personalBests).
Proof.
  pose proof readUserData_frame.
  unfold updateGameData. repeat frame_step.
Qed.

End TokenFrame.

Section SessionKept.
Context `{Host} `{Config}.
Context {server : Type} (serve : server → request → server * option response).

#[local] Existing Instance M_ret.
#[local] Existing Instance M_bind.

#[local] Instance session_kept_preorder : PreOrder (@session_kept server).
Proof.
  split.
  - intros w. unfold session_kept. split_and!; done.
  - intros w1 w2 w3 (Hu & Hc & Hn & Hl & Hk & Hs & Hi & Hr)
      (Hu' & Hc' & Hn' & Hl' & Hk' & Hs' & Hi' & Hr').
    unfold session_kept. split_and!; try congruence.
    + intros k Hk1 Hk2. rewrite Hs', Hs by done. done.
    + intros k Hsome. by apply Hi', Hi.
    + by etrans.
Qed.

Lemma session_kept_fetch (rq : request) :
  stable session_kept (fetch serve rq).
Proof.
  intros w. rewrite fetch_run. cbn [snd]. unfold session_kept.
  split_and!; try done. cbn [requests sent]. by apply prefix_app_r.
Qed.

Lemma session_kept_now : stable session_kept (now_iso : @M server string).
Proof. intros w. unfold session_kept. split_and!; done. Qed.

Lemma session_kept_token (k : string) (v : jsval) :
  k = "firebaseToken" ∨ k = "refreshToken" →
  stable session_kept (sessionStorage_setItem k v : @M server unit).
Proof.
  intros Hk w. unfold session_kept.
  cbn [sessionStorage_setItem snd with_sessionStorage sessionStorage
       currentUser authStateCallback notified localStorage clock requests].
  split_and!; try done.
  - intros k' H1 H2. apply lookup_insert_ne. by destruct Hk as [-> | ->].
  - intros k' Hsome. rewrite lookup_insert_is_Some.
    destruct (decide (k = k')); auto.
Qed.

Lemma readUserData_session_kept (w : @world server) :
  session_kept w (readUserData serve w).2.
Proof.
  apply (readUserData_frame serve session_kept session_kept_fetch
           session_kept_now); intros; apply session_kept_token; auto.
Qed.

Lemma createUserDocument_session_kept (w : @world server) :
  session_kept w (createUserDocument serve w).2.
Proof.
  apply (stable_createUserDocument serve session_kept session_kept_fetch
           session_kept_now).
Qed.

Lemma updateGameData_session_kept gameName sessionData personalBests
    (w : @world server) :
  session_kept w
    (updateGameData serve gameName sessionData personalBests w).2.
Proof.
  apply (updateGameData_frame serve session_kept session_kept_fetch
           session_kept_now); intros; apply session_kept_token; auto.
Qed.

Lemma refreshAuthToken_session_kept (w : @world server) :
  session_kept w (refreshAuthToken serve w).2.
Proof.
  apply (refreshAuthToken_frame serve session_kept session_kept_fetch);
    intros; apply session_kept_token; auto.
Qed.

(** X6: The operations on the user document never sign the user out and never
    call the listener: whatever the remote side answers, [readUserData],
    [createUserDocument], [updateGameData] and [refreshAuthToken] leave the
    current user, the listener and its notifications, the local storage
    and the clock as they were; in the token store they change at most the
    access token and the refresh token and remove nothing; and they only
    add requests. *)
Theorem data_operations_keep_session gameName sessionData personalBests
    (w : @world server) :
  session_kept w (readUserData serve w).2
  ∧ session_kept w (createUserDocument serve w).2
  ∧ session_kept w
      (updateGameData serve gameName sessionData personalBests w).2
  ∧ session_kept w (refreshAuthToken serve w).2.
Proof.
  split_and!.
  - apply readUserData_session_kept.
  - apply createUserDocument_session_kept.
  - apply updateGameData_session_kept.
  - apply refreshAuthToken_session_kept.
Qed.

(** *** Migration of the legacy records *)

Lemma migrateLocalStorage_session (gameName localStorageKey : string)
    (w : @world server) :
  ∃ w1,
    session_kept w w1
    ∧ ((migrateLocalStorage serve gameName localStorageKey w).2 = w1
       ∨ (migrateLocalStorage serve gameName localStorageKey w).2
         = with_localStorage (delete localStorageKey) w1).
Proof.
  rewrite migrateLocalStorage_run.
  destruct (truthy (item (localStorage w !! localStorageKey)));
    [|exists w; split; [reflexivity|by left]].
  destruct (JSON_parse _) as [parsedData|];
    [|exists w; split; [reflexivity|by left]].
  destruct (get parsedData "lastPlayed") as [lastPlayed|e];
    [|exists w; split; [reflexivity|by left]].
  cbn zeta.
  set (w0 := if truthy lastPlayed then w else tick w).
  assert (session_kept w w0) as H0'.
  { subst w0. destruct (truthy lastPlayed); [reflexivity|].
    unfold session_kept. split_and!; done. }
  pose proof (updateGameData_session_kept gameName
                (migrated_session
                   (if truthy lastPlayed then lastPlayed
                    else JStr (toISOString (clock w (ticks w))))
                   parsedData) parsedData w0) as H1'.
  destruct (updateGameData serve gameName _ parsedData w0) as [[v|e] w1];
    cbn [snd] in *; exists w1; (split; [by etrans|]); [by right|by left].
Qed.

Lemma migrateLocalStorage_local (gameName localStorageKey : string)
    (w : @world server) :
  localStorage (migrateLocalStorage serve gameName localStorageKey w).2
  = match (migrateLocalStorage serve gameName localStorageKey w).1 with
    | Ret true => delete localStorageKey (localStorage w)
    | _ => localStorage w
    end.
Proof.
  rewrite migrateLocalStorage_run.
  destruct (truthy (item (localStorage w !! localStorageKey))); [|done].
  destruct (JSON_parse _) as [parsedData|]; [|done].
  destruct (get parsedData "lastPlayed") as [lastPlayed|e]; [|done].
  cbn zeta.
  set (w0 := if truthy lastPlayed then w else tick w).
  assert (localStorage w0 = localStorage w) as H0'
    by (subst w0; by destruct (truthy lastPlayed)).
  pose proof (updateGameData_same_local serve gameName
                (migrated_session
                   (if truthy lastPlayed then lastPlayed
                    else JStr (toISOString (clock w (ticks w))))
                   parsedData) parsedData w0) as H1'.
  destruct (updateGameData serve gameName _ parsedData w0) as [[v|e] w1];
    cbn [fst snd] in *; [|congruence].
  cbn [localStorage with_localStorage]. congruence.
Qed.

(** X7: [migrateLocalStorage] returns [false] without sending anything, and
    leaves both storages as they are, when the legacy record is not valid
    JSON, when it is the JSON text [null], and when the caller is not
    signed in. *)
Theorem migrateLocalStorage_nothing_sent (gameName localStorageKey : string)
    (w : @world server) :
  JSON_parse (ToString (item (localStorage w !! localStorageKey))) = None
  ∨ JSON_parse (ToString (item (localStorage w !! localStorageKey)))
    = Some JNull
  ∨ ¬ authenticated w →
  (migrateLocalStorage serve gameName localStorageKey w).1 = Ret false
  ∧ requests (migrateLocalStorage serve gameName localStorageKey w).2
    = requests w
  ∧ localStorage (migrateLocalStorage serve gameName localStorageKey w).2
    = localStorage w
  ∧ sessionStorage (migrateLocalStorage serve gameName localStorageKey w).2
    = sessionStorage w.
Proof.
  intros Hcase. rewrite migrateLocalStorage_run.
  destruct (truthy (item (localStorage w !! localStorageKey))); [|done].
  destruct Hcase as [->|[->|Hn]]; [done|done|].
  destruct (JSON_parse _) as [parsedData|]; [|done].
  destruct (get parsedData "lastPlayed") as [lastPlayed|e]; [|done].
  cbn zeta.
  destruct (truthy lastPlayed).
  - by rewrite updateGameData_no_session.
  - by rewrite updateGameData_no_session.
Qed.

Lemma lookup_prop_None (k : string) (ps : fields) :
  lookup_prop k ps = None ↔ k ∉ ps.*1.
Proof.
  induction ps as [|[k' v] ps IH]; cbn [lookup_prop fmap list_fmap fst].
  - split; [intros _ ?%elem_of_nil; done|done].
  - rewrite not_elem_of_cons. destruct (String.eqb k' k) eqn:E.
    + apply String.eqb_eq in E as ->. split; [done|]. by intros [? _].
    + apply String.eqb_neq in E. rewrite IH. split; [|by intros [_ ?]].
      intros ?. split; [congruence|done].
Qed.

Lemma lookup_prop_spread (k : string) (acc ps : fields) :
  NoDup ps.*1 →
  lookup_prop k (foldl (λ acc p, set_prop p.1 p.2 acc) acc ps)
  = match lookup_prop k ps with
    | Some v => Some v
    | None => lookup_prop k acc
    end.
Proof.
  revert acc. induction ps as [|[k' v] ps IH]; intros acc Hnd; [done|].
  cbn [foldl fst snd lookup_prop]. cbn [fmap list_fmap fst] in Hnd.
  apply NoDup_cons in Hnd as [Hk' Hnd].
  rewrite IH by done. rewrite lookup_set_prop.
  destruct (String.eqb k' k) eqn:E.
  - apply String.eqb_eq in E as ->.
    apply lookup_prop_None in Hk'. by rewrite Hk'.
  - reflexivity.
Qed.

Lemma lookup_delete_prop_eq (k : string) (ps : fields) :
  lookup_prop k (delete_prop k ps) = None.
Proof.
  induction ps as [|[k' v] ps IH]; [done|]. cbn [delete_prop].
  destruct (String.eqb k' k) eqn:E; [done|]. cbn [lookup_prop].
  by rewrite E.
Qed.

(** X8: For a legacy record that is a JSON object, [migrateLocalStorage] is one
    call of [updateGameData], with the record itself as the personal bests
    and, as the session, the record without [lastPlayed] and with a
    [timestamp]: the record's own [timestamp] if it has one, else its
    [lastPlayed] if that is set, else the current time.  The legacy entry
    is removed exactly when the call returns. *)
Theorem migrateLocalStorage_session_fields (gameName localStorageKey : string)
    (w : @world server) (ps : fields) :
  truthy (item (localStorage w !! localStorageKey)) = true →
  JSON_parse (ToString (item (localStorage w !! localStorageKey)))
  = Some (JObj ps) →
  NoDup ps.*1 →
  ∃ timestamp w0 session,
    timestamp
    = (if truthy (default JUndefined (lookup_prop "lastPlayed" ps))
       then default JUndefined (lookup_prop "lastPlayed" ps)
       else JStr (toISOString (clock w (ticks w))))
    ∧ migrateLocalStorage serve gameName localStorageKey w
      = match updateGameData serve gameName (JObj session) (JObj ps) w0 with
        | (Ret _, w1) =>
            (Ret true, with_localStorage (delete localStorageKey) w1)
        | (Throw _, w1) => (Ret false, w1)
        end
    ∧ lookup_prop "lastPlayed" session = None
    ∧ lookup_prop "timestamp" session
      = Some (default timestamp (lookup_prop "timestamp" ps))
    ∧ ∀ k, k ≠ "lastPlayed" → k ≠ "timestamp" →
           lookup_prop k session = lookup_prop k ps.
Proof.
  intros Hitem Hparse Hnd.
  eexists _, _, _. split_and!.
  - reflexivity.
  - rewrite migrateLocalStorage_run, Hitem, Hparse. cbn [get]. cbn zeta.
    unfold migrated_session. cbn [own_entries]. reflexivity.
  - apply lookup_delete_prop_eq.
  - rewrite lookup_delete_prop by done. rewrite lookup_prop_spread by done.
    cbn [lookup_prop]. rewrite (String.eqb_refl "timestamp").
    by destruct (lookup_prop "timestamp" ps).
  - intros k Hk1 Hk2. rewrite lookup_delete_prop by done.
    rewrite lookup_prop_spread by done. cbn [lookup_prop].
    assert (String.eqb "timestamp" k = false) as ->
      by (apply String.eqb_neq; congruence).
    by destruct (lookup_prop k ps).
Qed.

(** X9: [checkLocalStorageData] changes nothing and lists, in the order of its
    table, the legacy games whose local entry exists and is not the empty
    string.  These are the entries [migrateLocalStorage] goes on to parse;
    once a migration has returned [true] its game is no longer listed, and
    the other games are listed as before. *)
Theorem checkLocalStorageData_lists_records (w : @world server) :
  (checkLocalStorageData w).2 = w
  ∧ ∃ games,
      (checkLocalStorageData w).1 = Ret games
      ∧ games `sublist_of` legacy_keys
      ∧ (∀ g k, (g, k) ∈ games ↔
                ((g, k) ∈ legacy_keys
                 ∧ ∃ s, localStorage w !! k = Some s ∧ s ≠ ""))
      ∧ ∀ g k,
          (g, k) ∈ legacy_keys →
          (migrateLocalStorage serve g k w).1 = Ret true →
          (g, k) ∈ games
          ∧ ∃ games',
              (checkLocalStorageData
                 (migrateLocalStorage serve g k w).2).1 = Ret games'
              ∧ ((g, k) ∉ games')
              ∧ ∀ g' k', k' ≠ k → ((g', k') ∈ games' ↔ (g', k') ∈ games).
Proof.
  split; [reflexivity|].
  assert (∀ (ls : gmap string string) g k,
            (g, k) ∈ filter (λ p, truthy (item (ls !! p.2))) legacy_keys
            ↔ ((g, k) ∈ legacy_keys ∧ ∃ s, ls !! k = Some s ∧ s ≠ ""))
    as Hlist.
  { intros ls g k. rewrite list_elem_of_filter. cbn [snd].
    split.
    - intros [Ht Hin]. split; [done|].
      destruct (ls !! k) as [s|]; [|by cbn in Ht]. exists s. split; [done|].
      intros ->. by cbn in Ht.
    - intros [Hin (s & -> & Hs)]. split; [|done]. cbn.
      by apply Is_true_true, negb_true_iff, String.eqb_neq. }
  eexists. split_and!.
  - reflexivity.
  - apply sublist_filter.
  - apply Hlist.
  - intros g k Hin Hmig.
    pose proof (migrateLocalStorage_local g k w) as Hloc.
    rewrite Hmig in Hloc.
    split.
    + apply Hlist. split; [done|].
      rewrite migrateLocalStorage_run in Hmig.
      destruct (localStorage w !! k) as [s|]; [|done].
      exists s. split; [done|]. intros ->. done.
    + eexists. split_and!.
      * reflexivity.
      * rewrite Hlist, Hloc. intros [_ (s & Hs & _)].
        by rewrite lookup_delete_eq in Hs.
      * intros g' k' Hk. rewrite !Hlist, Hloc.
        by rewrite lookup_delete_ne.
Qed.

End SessionKept.

(** * Session restore, sign-in and sign-out *)

Section AuthRun.
Context `{Host} `{Config} `{Window} {listeners : Listener}.
Context {server : Type} (serve : server → request → server * option response).

#[local] Existing Instance M_ret.
#[local] Existing Instance M_bind.

(** The outcome of the listener depends on the world through the value
    registered and the calls received. *)
Lemma answer_eq (user : jsval) (w w' : @world server) :
  authStateCallback w' = authStateCallback w → notified w' = notified w →
  answer user w' = answer user w.
Proof.
  unfold answer, notifyAuthStateChange. intros -> ->.
  by destruct (truthy (authStateCallback w)), (authStateCallback w).
Qed.

Lemma notifyAuthStateChange_run (user : jsval) (w : @world server) :
  notifyAuthStateChange user w = (answer user w, told user w).
Proof.
  unfold answer, notifyAuthStateChange, told, notify.
  destruct w as [ss ls cu callback ns s rqs c t]. cbn.
  destruct (truthy callback) eqn:E; destruct callback; try reflexivity;
    discriminate E.
Qed.

Lemma signOut_run (w : @world server) :
  signOut w = (answer JNull w, signed_out w).
Proof.
  unfold signOut.
  repeat (rewrite bind_run; unfold sessionStorage_removeItem at 1;
          cbv beta iota).
  rewrite bind_run. cbv beta iota. rewrite notifyAuthStateChange_run.
  f_equal. by apply answer_eq.
Qed.

Lemma set_currentUser_run (user : jsval) (w : @world server) :
  set_currentUser user w
  = (Ret (),
     World (sessionStorage w) (localStorage w) user (authStateCallback w)
       (notified w) (remote w) (requests w) (clock w) (ticks w)).
Proof. reflexivity. Qed.

(** [verifyToken] is one request and the reading of its answer. *)
Lemma verifyToken_run (idToken : jsval) (w : @world server) :
  verifyToken serve idToken w
  = (match (serve (remote w) (lookup_request idToken)).2 with
     | None => Throw (TypeError "Failed to fetch")
     | Some r =>
         if ok r then
           match json_body r with
           | None => Throw (SyntaxError "Unexpected token")
           | Some data => users ← get data "users"; index users 0
           end
         else Throw (Error "Token validation failed")
     end,
     sent (lookup_request idToken)
       (serve (remote w) (lookup_request idToken)).1 w).
Proof.
  unfold verifyToken. run. fold (lookup_request idToken).
  destruct (serve (remote w) (lookup_request idToken)) as [s' [r|]];
    cbn [fst snd]; [|reflexivity].
  destruct (ok r); cbn [negb]; run; [|reflexivity].
  destruct (json_body r) as [data|]; run; [|reflexivity].
  destruct (get data "users") as [users|e]; run; reflexivity.
Qed.

(** [signInWithGoogleCredential] is one request and the reading of its
    answer. *)
Lemma signInWithGoogleCredential_run (googleIdToken : jsval)
    (w : @world server) :
  signInWithGoogleCredential serve googleIdToken w
  = (match (serve (remote w) (sign_in_request googleIdToken)).2 with
     | None => Throw (TypeError "Failed to fetch")
     | Some r =>
         match json_body r with
         | None => Throw (SyntaxError "Unexpected token")
         | Some body =>
             if ok r then Ret body
             else
               inner ← get body "error";
               message ← get_optional inner "message";
               Throw (Error (ToString
                               (if truthy message then message
                                else JStr "Failed to sign in with Firebase")))
         end
     end,
     sent (sign_in_request googleIdToken)
       (serve (remote w) (sign_in_request googleIdToken)).1 w).
Proof.
  unfold signInWithGoogleCredential. run.
  fold (sign_in_request googleIdToken).
  destruct (serve (remote w) (sign_in_request googleIdToken)) as [s' [r|]];
    cbn [fst snd]; [|reflexivity].
  destruct (ok r); cbn [negb]; run;
    (destruct (json_body r) as [body|]; run; [|reflexivity]);
    [reflexivity|].
  destruct (get body "error") as [inner|e]; run;
    cbn [mbind result_bind rbind]; [|reflexivity].
  destruct (get_optional inner "message") as [message|e]; run; reflexivity.
Qed.

(** [initAuth] by cases: without a stored token and user id it only tells the
    listener [null]; with them it verifies the token and either restores
    the user and tells the listener, or signs out; it also signs out when
    the listener throws on the restored user. *)
Lemma initAuth_run (w : @world server) :
  initAuth serve w
  = if truthy (held "firebaseToken" w) && truthy (held "userId" w) then
      let out := verifyToken serve (held "firebaseToken" w) w in
      match out.1 with
      | Ret _ =>
          match answer (restored_user w) w with
          | Ret _ => (Ret (), signed_in_as (restored_user w) out.2)
          | Throw _ =>
              (answer JNull (told (restored_user w) w),
               signed_out (signed_in_as (restored_user w) out.2))
          end
      | Throw _ => (answer JNull w, signed_out out.2)
      end
    else (answer JNull w, told JNull w).
Proof.
  unfold initAuth. run.
  fold (held "firebaseToken" w) (held "userId" w) (held "userEmail" w)
       (held "userDisplayName" w) (held "userPhotoURL" w).
  destruct (truthy (held "firebaseToken" w) && truthy (held "userId" w));
    [|apply notifyAuthStateChange_run].
  unfold try_catch. rewrite bind_run. cbn zeta.
  rewrite verifyToken_run. cbn [fst snd].
  set (w1 := sent _ _ w).
  destruct (match (serve _ _).2 with Some r => _ | None => _ end) as [u|e].
  - rewrite bind_run, set_currentUser_run. cbv beta iota.
    rewrite bind_run, getCurrentUser_run. cbv beta iota.
    rewrite notifyAuthStateChange_run. cbn [currentUser].
    fold (restored_user w).
    rewrite (answer_eq _ w) by done.
    destruct (answer (restored_user w) w) as [[]|e]; [reflexivity|].
    unfold console_error. rewrite bind_run, ret_run. cbv beta iota.
    rewrite signOut_run. f_equal. by apply answer_eq.
  - unfold console_error. rewrite bind_run, ret_run. cbv beta iota.
    rewrite signOut_run. f_equal. by apply answer_eq.
Qed.

#[local] Existing Instance P_ret.
#[local] Existing Instance P_bind.

Lemma page_bind_run {A B} (m : @P server A) (k : A → @P server B)
    (p : @page server) :
  (m ≫= k) p
  = match m p with
    | (Ret a, p') => k a p'
    | (Throw e, p') => (Throw e, p')
    end.
Proof. reflexivity. Qed.

Lemma in_world_run {A} (m : @M server A) (p : @page server) :
  in_world m p
  = match m (page_world p) with
    | (r, w') => (r, Page w' (dispatched p))
    end.
Proof. reflexivity. Qed.

Lemma window_dispatchEvent_run (e : event) (p : @page server) :
  window_dispatchEvent e p
  = (Ret (), Page (page_world p) (dispatched p ++ [e])).
Proof. reflexivity. Qed.

(** The reads of the answer of the identity service: none of the names is
    one that a function refuses to give. *)
Lemma get_property (v : jsval) (k : string) :
  v ≠ JUndefined → v ≠ JNull → k ≠ "caller" → k ≠ "arguments" →
  get v k = Ret (property v k).
Proof.
  intros Hu Hn Hc%String.eqb_neq Ha%String.eqb_neq. unfold property.
  destruct v; try done. cbn [get]. rewrite Hc, Ha. cbn [orb].
  by destruct (String.eqb k "name"), (String.eqb k "length").
Qed.

(** [handleGoogleSignIn] by cases: the last event of a completed sign-in
    depends on the outcome of the listener. *)
Lemma handleGoogleSignIn_run (response : jsval) (p : @page server) :
  handleGoogleSignIn serve response p
  = match get response "credential" with
    | Throw _ =>
        (Ret (),
         Page (page_world p) (dispatched p ++ [loading_off; sign_in_failed]))
    | Ret googleIdToken =>
        let out := signInWithGoogleCredential serve googleIdToken
                     (page_world p) in
        match out.1 with
        | Ret (JUndefined | JNull) | Throw _ =>
            (Ret (),
             Page out.2
               (dispatched p ++ [loading_on; loading_off; sign_in_failed]))
        | Ret firebaseAuth =>
            (Ret (),
             Page (signed_in_as (signed_in_user firebaseAuth)
                     (with_sessionStorage (with_session firebaseAuth) out.2))
               (dispatched p
                ++ match answer (signed_in_user firebaseAuth) (page_world p)
                   with
                   | Ret _ => [loading_on; loading_off]
                   | Throw _ =>
                       [loading_on; loading_off; loading_off; sign_in_failed]
                   end))
        end
    end.
Proof.
  destruct p as [w evs].
  unfold handleGoogleSignIn, try_catch_page.
  rewrite page_bind_run, in_world_run, lift_run.
  cbn [page_world dispatched].
  assert (∀ p' : @page server,
            (in_world console_error ≫= λ _ : (),
               hideAuthLoading ≫= λ _ : (),
               showAuthError (JStr "Sign-in failed. Please try again.")) p'
            = (Ret (), Page (page_world p')
                         (dispatched p' ++ [loading_off; sign_in_failed])))
    as Hfail.
  { intros p'. rewrite page_bind_run, in_world_run. unfold console_error.
    rewrite ret_run. rewrite page_bind_run.
    unfold hideAuthLoading, showAuthError.
    rewrite !window_dispatchEvent_run. cbn [page_world dispatched].
    by rewrite <- app_assoc. }
  destruct (get response "credential") as [googleIdToken|e];
    [|by rewrite Hfail].
  rewrite page_bind_run. unfold showAuthLoading at 1.
  rewrite window_dispatchEvent_run. cbn [page_world dispatched].
  rewrite page_bind_run, in_world_run. cbn [page_world dispatched]. cbn zeta.
  rewrite signInWithGoogleCredential_run. cbn [fst snd].
  set (w1 := sent _ _ w).
  destruct (match (serve _ _).2 with Some r => _ | None => _ end)
    as [firebaseAuth|e];
    [|rewrite Hfail; cbn [page_world dispatched]; by rewrite <- app_assoc].
  assert (firebaseAuth = JUndefined ∨ firebaseAuth = JNull
          ∨ firebaseAuth ≠ JUndefined ∧ firebaseAuth ≠ JNull)
    as [->|[->|[Hu Hn]]] by (destruct firebaseAuth; auto).
  { rewrite page_bind_run, in_world_run, lift_run. cbn [get].
    rewrite Hfail. cbn [page_world dispatched]. by rewrite <- app_assoc. }
  { rewrite page_bind_run, in_world_run, lift_run. cbn [get].
    rewrite Hfail. cbn [page_world dispatched]. by rewrite <- app_assoc. }
  rewrite !(get_property firebaseAuth) by done.
  repeat (rewrite page_bind_run;
          first [rewrite in_world_run;
                 first [rewrite lift_run
                       |rewrite sessionStorage_setItem_run
                       |rewrite set_currentUser_run
                       |rewrite getCurrentUser_run]
                |unfold hideAuthLoading at 1;
                 rewrite window_dispatchEvent_run];
          cbn [page_world dispatched currentUser]).
  rewrite in_world_run, notifyAuthStateChange_run.
  fold (signed_in_user firebaseAuth).
  rewrite (answer_eq _ w) by done.
  destruct (answer (signed_in_user firebaseAuth) w) as [[]|e].
  - cbn [page_world dispatched]. rewrite <- app_assoc.
    by destruct firebaseAuth.
  - rewrite Hfail. cbn [page_world dispatched]. rewrite <- !app_assoc.
    by destruct firebaseAuth.
Qed.

End AuthRun.

Hint Rewrite @set_currentUser_run : run.

Section AuthFacts.
Context `{Host} `{Config} `{Window} {listeners : Listener}.
Context {server : Type} (serve : server → request → server * option response).

#[local] Existing Instance M_ret.
#[local] Existing Instance M_bind.
#[local] Existing Instance P_ret.
#[local] Existing Instance P_bind.

(** Throughout, the listener is as [Listener] takes it: its call returns or
    throws, and leaves the storages and the state of the two modules
    alone. *)

(** *** Sign-out *)

Lemma without_session_lookup (ss : gmap string string) (k : string) :
  without_session ss !! k = if bool_decide (k ∈ session_keys) then None
                            else ss !! k.
Proof.
  unfold without_session, session_keys. cbn [foldl].
  case_bool_decide as Hk.
  - repeat (apply elem_of_cons in Hk as [->|Hk];
            [by repeat first [rewrite lookup_delete_eq
                             |rewrite lookup_delete_ne by done]|]).
    by apply elem_of_nil in Hk.
  - rewrite !lookup_delete_ne; [done|..];
      intros <-; apply Hk; repeat constructor.
Qed.

(** X10: [signOut] ends the session whatever the state it is called in and
    whatever the listener does: the six session entries of the token store
    are gone and every other entry is kept, no user is current, a function
    registered as listener has been called with [null], and neither the
    local storage nor the remote side has been touched.  The outcome of
    [signOut] is the outcome of that call: it throws what the listener
    throws, and returns when no listener is registered. *)
Theorem signOut_ends_session (w : @world server) :
  (signOut w).1 = answer JNull w
  ∧ (truthy (authStateCallback w) = false → (signOut w).1 = Ret ())
  ∧ (∀ k, k ∈ session_keys → sessionStorage (signOut w).2 !! k = None)
  ∧ (∀ k, k ∉ session_keys →
          sessionStorage (signOut w).2 !! k = sessionStorage w !! k)
  ∧ currentUser (signOut w).2 = JNull
  ∧ (isSignedIn (signOut w).2).1 = Ret false
  ∧ (getAuthToken (signOut w).2).1 = Ret JNull
  ∧ notified (signOut w).2 = notify JNull w
  ∧ localStorage (signOut w).2 = localStorage w
  ∧ requests (signOut w).2 = requests w
  ∧ sessionStorage (signOut (signOut w).2).2 = sessionStorage (signOut w).2.
Proof.
  rewrite !signOut_run. cbn [fst snd].
  split_and!; try reflexivity.
  - intros Hcb. unfold answer, notifyAuthStateChange. by rewrite Hcb.
  - intros k Hk. cbn [signed_out sessionStorage].
    rewrite without_session_lookup. by rewrite bool_decide_eq_true_2.
  - intros k Hk. cbn [signed_out sessionStorage].
    rewrite without_session_lookup. by rewrite bool_decide_eq_false_2.
  - unfold getAuthToken, sessionStorage_getItem.
    cbn [fst signed_out sessionStorage].
    rewrite without_session_lookup.
    by rewrite bool_decide_eq_true_2 by (repeat constructor).
  - cbn [signed_out sessionStorage].
    apply map_eq. intros k. rewrite !without_session_lookup.
    by case_bool_decide.
Qed.

Lemma signed_out_not_authenticated (w : @world server) :
  ¬ authenticated (signed_out w).
Proof.
  intros [Hu _]. unfold held in Hu. cbn [signed_out sessionStorage] in Hu.
  rewrite without_session_lookup in Hu.
  rewrite bool_decide_eq_true_2 in Hu by (repeat constructor). done.
Qed.

(** X11: After [signOut] no operation reaches the remote side: [readUserData]
    and [updateGameData] throw [User not authenticated],
    [refreshAuthToken] throws [No refresh token available], and
    [migrateLocalStorage] returns [false] and keeps the legacy record; none
    of them sends a request. *)
Theorem signOut_blocks_data_access gameName sessionData personalBests
    localStorageKey (w : @world server) :
  readUserData serve (signOut w).2
  = (Throw (Error "User not authenticated"), (signOut w).2)
  ∧ updateGameData serve gameName sessionData personalBests (signOut w).2
    = (Throw (Error "User not authenticated"), (signOut w).2)
  ∧ refreshAuthToken serve (signOut w).2
    = (Throw (Error "No refresh token available"), (signOut w).2)
  ∧ (migrateLocalStorage serve gameName localStorageKey (signOut w).2).1
    = Ret false
  ∧ requests
      (migrateLocalStorage serve gameName localStorageKey (signOut w).2).2
    = requests w
  ∧ localStorage
      (migrateLocalStorage serve gameName localStorageKey (signOut w).2).2
    = localStorage w.
Proof.
  rewrite signOut_run. cbn [snd].
  pose proof (signed_out_not_authenticated w) as Hn.
  split_and!.
  - by apply readUserData_no_session.
  - by apply updateGameData_no_session.
  - rewrite refreshAuthToken_run. unfold held.
    cbn [signed_out sessionStorage]. rewrite without_session_lookup.
    by rewrite bool_decide_eq_true_2 by (repeat constructor).
  - rewrite migrateLocalStorage_run.
    destruct (truthy _); [|done]. destruct (JSON_parse _); [|done].
    destruct (get _ "lastPlayed") as [lastPlayed|]; [|done].
    cbn zeta. destruct (truthy lastPlayed);
      by rewrite updateGameData_no_session.
  - rewrite migrateLocalStorage_run.
    destruct (truthy _); [|done]. destruct (JSON_parse _); [|done].
    destruct (get _ "lastPlayed") as [lastPlayed|]; [|done].
    cbn zeta. destruct (truthy lastPlayed);
      by rewrite updateGameData_no_session.
  - rewrite migrateLocalStorage_run.
    destruct (truthy _); [|done]. destruct (JSON_parse _); [|done].
    destruct (get _ "lastPlayed") as [lastPlayed|]; [|done].
    cbn zeta. destruct (truthy lastPlayed);
      by rewrite updateGameData_no_session.
Qed.

(** *** Session restore *)

Lemma initAuth_requests (w : @world server) :
  requests (initAuth serve w).2 = requests w
  ∨ requests (initAuth serve w).2
    = requests w ++ [lookup_request (held "firebaseToken" w)].
Proof.
  rewrite initAuth_run.
  destruct (truthy (held "firebaseToken" w) && truthy (held "userId" w));
    [|by left].
  cbn zeta. rewrite verifyToken_run. cbn [fst snd].
  destruct (match (serve _ _).2 with Some r => _ | None => _ end);
    [destruct (answer (restored_user w) w)|]; by right.
Qed.

(** X12: [initAuth] throws only what the call of the listener with [null]
    throws.  When the listener returns, or none is registered, [initAuth]
    returns, and a function registered as listener has been called exactly
    once, with [null] or with the user object built from the token store.
    When the listener throws on that user object, [initAuth] signs out
    and the listener is called a second time, with [null].  In every case
    [initAuth] sends at most one request, the verification of the stored
    token, and leaves the listener registered and the local storage
    alone. *)
Theorem initAuth_returns (w : @world server) :
  (answer JNull w = Ret () → answer (restored_user w) w = Ret () →
   (initAuth serve w).1 = Ret ()
   ∧ (notified (initAuth serve w).2 = notify JNull w
      ∨ notified (initAuth serve w).2 = notify (restored_user w) w
        ∧ currentUser (initAuth serve w).2 = restored_user w))
  ∧ (∀ e, (initAuth serve w).1 = Throw e →
          answer JNull w = Throw e
          ∨ answer JNull (told (restored_user w) w) = Throw e)
  ∧ (notified (initAuth serve w).2 = notify JNull w
     ∨ notified (initAuth serve w).2 = notify (restored_user w) w
       ∧ currentUser (initAuth serve w).2 = restored_user w
     ∨ notified (initAuth serve w).2
       = notify JNull (told (restored_user w) w)
       ∧ currentUser (initAuth serve w).2 = JNull
       ∧ ∃ e, answer (restored_user w) w = Throw e)
  ∧ (requests (initAuth serve w).2 = requests w
     ∨ requests (initAuth serve w).2
       = requests w ++ [lookup_request (held "firebaseToken" w)])
  ∧ authStateCallback (initAuth serve w).2 = authStateCallback w
  ∧ localStorage (initAuth serve w).2 = localStorage w.
Proof.
  pose proof (initAuth_requests w) as Hrq. revert Hrq.
  rewrite initAuth_run.
  destruct (truthy (held "firebaseToken" w) && truthy (held "userId" w)).
  2:{ intros Hrq. split_and!; auto. }
  cbn zeta. rewrite verifyToken_run. cbn [fst snd].
  destruct (match (serve _ _).2 with Some r => _ | None => _ end)
    as [u|e0].
  2:{ intros Hrq. split_and!; auto. }
  destruct (answer (restored_user w) w) as [[]|e0] eqn:Ha; intros Hrq.
  - split_and!; auto. intros e' He. discriminate He.
  - split_and!; auto.
    + intros _ He. discriminate He.
    + right. right. split_and!; [done..|by eexists].
Qed.

(** X13: Without a stored access token or user id, [initAuth] sends nothing and
    only tells the listener [null]: the token store, whatever it still
    holds, and the current user are left as they are, and the outcome is
    that of the call of the listener. *)
Theorem initAuth_without_session (w : @world server) :
  ¬ authenticated w →
  initAuth serve w = (answer JNull w, told JNull w)
  ∧ requests (initAuth serve w).2 = requests w
  ∧ sessionStorage (initAuth serve w).2 = sessionStorage w
  ∧ currentUser (initAuth serve w).2 = currentUser w
  ∧ notified (initAuth serve w).2 = notify JNull w.
Proof.
  intros Hn. rewrite initAuth_run.
  assert (truthy (held "firebaseToken" w) && truthy (held "userId" w)
          = false) as ->; [|done].
  apply not_authenticated in Hn.
  by destruct (truthy (held "firebaseToken" w)), (truthy (held "userId" w)).
Qed.

(** X14: With a stored token and user id, when [verifyToken] returns and the
    listener returns on the restored user (or none is registered),
    [initAuth] makes the user object built from the token store the current
    user and tells the listener; the token store is unchanged and one
    request, the verification, has been sent. *)
Theorem initAuth_restores_session (w : @world server) (u : jsval) :
  authenticated w →
  (verifyToken serve (held "firebaseToken" w) w).1 = Ret u →
  answer (restored_user w) w = Ret () →
  initAuth serve w
  = (Ret (),
     signed_in_as (restored_user w)
       (sent (lookup_request (held "firebaseToken" w))
          (serve (remote w) (lookup_request (held "firebaseToken" w))).1 w))
  ∧ currentUser (initAuth serve w).2
    = JObj [("uid", held "userId" w); ("email", held "userEmail" w);
            ("displayName", held "userDisplayName" w);
            ("photoURL", held "userPhotoURL" w)]
  ∧ (isSignedIn (initAuth serve w).2).1 = Ret true
  ∧ sessionStorage (initAuth serve w).2 = sessionStorage w
  ∧ notified (initAuth serve w).2 = notify (restored_user w) w
  ∧ requests (initAuth serve w).2
    = requests w ++ [lookup_request (held "firebaseToken" w)].
Proof.
  intros [Hu Ht] Hv Ha. rewrite initAuth_run, Ht, Hu. cbn [andb]. cbn zeta.
  rewrite Hv, Ha. rewrite verifyToken_run. cbn [fst snd]. done.
Qed.

(** X15: With a stored token and user id, when [verifyToken] throws (the request
    fails, the answer is not a success or not JSON, or it has no [users]),
    [initAuth] signs out: the six session entries are removed, no user is
    current and the listener is told [null].  The error of [verifyToken]
    is not thrown further: the outcome of [initAuth] is that of the call of
    the listener. *)
Theorem initAuth_invalid_session_signs_out (w : @world server) (e : exn) :
  authenticated w →
  (verifyToken serve (held "firebaseToken" w) w).1 = Throw e →
  initAuth serve w
  = (answer JNull w,
     signed_out
       (sent (lookup_request (held "firebaseToken" w))
          (serve (remote w) (lookup_request (held "firebaseToken" w))).1 w))
  ∧ (∀ k, k ∈ session_keys → sessionStorage (initAuth serve w).2 !! k = None)
  ∧ currentUser (initAuth serve w).2 = JNull
  ∧ notified (initAuth serve w).2 = notify JNull w.
Proof.
  intros [Hu Ht] Hv. rewrite initAuth_run, Ht, Hu. cbn [andb]. cbn zeta.
  rewrite Hv. rewrite verifyToken_run. cbn [fst snd].
  split_and!; try done.
  intros k Hk. cbn [signed_out sessionStorage sent].
  rewrite without_session_lookup. by rewrite bool_decide_eq_true_2.
Qed.

(** *** Sign-in *)



(** X18: What [handleGoogleSignIn] stores is what [initAuth] restores: when the
    answer holds a user id and an e-mail address that are strings, and a
    display name and a photo URL that are strings or absent, the user
    object that [initAuth] builds from the stored entries after a reload
    is the user object of the sign-in; it is the current user once
    [verifyToken] and the listener have returned. *)
Theorem initAuth_restores_signed_in_user (firebaseAuth : jsval)
    (ss : gmap string string) (w : @world server) (u : jsval)
    (uid email displayName photoURL : string) :
  property firebaseAuth "localId" = JStr uid →
  property firebaseAuth "email" = JStr email →
  or_empty (property firebaseAuth "displayName") = JStr displayName →
  or_empty (property firebaseAuth "photoUrl") = JStr photoURL →
  sessionStorage w = with_session firebaseAuth ss →
  authenticated w →
  (verifyToken serve (held "firebaseToken" w) w).1 = Ret u →
  answer (restored_user w) w = Ret () →
  restored_user w = signed_in_user firebaseAuth
  ∧ currentUser (initAuth serve w).2 = signed_in_user firebaseAuth.
Proof.
  intros Hid Hem Hdn Hph Hss [Hu Ht] Hv Ha.
  assert (restored_user w = signed_in_user firebaseAuth) as Heq.
  { unfold restored_user, signed_in_user, held. rewrite Hss.
    unfold with_session. rewrite Hid, Hem, Hdn, Hph.
    repeat first [rewrite lookup_insert_eq|rewrite lookup_insert_ne by done].
    reflexivity. }
  split; [done|].
  rewrite initAuth_run, Ht, Hu. cbn [andb]. cbn zeta. rewrite Hv, Ha.
  by cbn [snd signed_in_as currentUser].
Qed.

(** *** The listener *)

(** X19: [onAuthStateChanged] registers the listener without calling it: a
    listener registered when the state is already known learns nothing
    until the next change.  Once a function is registered, [signOut] calls
    it once, with [null], and [initAuth] calls it once, or twice when the
    first call, with the restored user, throws: the second call is that of
    the sign-out.  With no listener registered both return without a
    call. *)
Theorem onAuthStateChanged_registers (name : string) (w : @world server) :
  (onAuthStateChanged (JFun name) w).1 = Ret ()
  ∧ notified (onAuthStateChanged (JFun name) w).2 = notified w
  ∧ currentUser (onAuthStateChanged (JFun name) w).2 = currentUser w
  ∧ sessionStorage (onAuthStateChanged (JFun name) w).2 = sessionStorage w
  ∧ signOut (onAuthStateChanged (JFun name) w).2
    = (listener name (notified w) JNull,
       signed_out (onAuthStateChanged (JFun name) w).2)
  ∧ notified (signOut (onAuthStateChanged (JFun name) w).2).2
    = notified w ++ [JNull]
  ∧ (notified (initAuth serve (onAuthStateChanged (JFun name) w).2).2
     = notified w ++ [JNull]
     ∨ notified (initAuth serve (onAuthStateChanged (JFun name) w).2).2
       = notified w ++ [restored_user w]
     ∨ notified (initAuth serve (onAuthStateChanged (JFun name) w).2).2
       = notified w ++ [restored_user w; JNull]
       ∧ ∃ e, listener name (notified w) (restored_user w) = Throw e)
  ∧ (truthy (authStateCallback w) = false →
     (initAuth serve w).1 = Ret () ∧ (signOut w).1 = Ret ()
     ∧ notified (initAuth serve w).2 = notified w
     ∧ notified (signOut w).2 = notified w).
Proof.
  split_and!; try reflexivity.
  - rewrite initAuth_run.
    destruct (_ && _); [|by left].
    cbn zeta. rewrite verifyToken_run. cbn [fst snd].
    destruct (match (serve _ _).2 with Some r => _ | None => _ end);
      [|by left].
    change (restored_user (onAuthStateChanged (JFun name) w).2)
      with (restored_user w).
    change (answer (restored_user w) (onAuthStateChanged (JFun name) w).2)
      with (listener name (notified w) (restored_user w)).
    destruct (listener name (notified w) (restored_user w)) as [[]|e] eqn:E.
    + right. by left.
    + right. right. split; [|by eexists].
      cbn. by rewrite <- app_assoc.
  - intros Hcb.
    assert (∀ user, answer user w = Ret ()) as Ha.
    { intros user. unfold answer, notifyAuthStateChange. by rewrite Hcb. }
    assert (∀ user (w' : @world server),
              authStateCallback w' = authStateCallback w →
              notify user w' = notified w') as Hn.
    { intros user w' Hw'. unfold notify. rewrite Hw'.
      by destruct (authStateCallback w). }
    rewrite initAuth_run, signOut_run, !Ha. cbn [fst snd].
    split_and!; [|done| |by apply Hn].
    + destruct (_ && _); [|done]. cbn zeta.
      by destruct (verifyToken _ _ _).1.
    + destruct (_ && _); [|by apply Hn]. cbn zeta.
      rewrite verifyToken_run. cbn [fst snd].
      destruct (match (serve _ _).2 with Some r => _ | None => _ end);
        cbn [snd signed_in_as signed_out notified]; by rewrite Hn.
Qed.

(** *** A signed-in client holds its credentials *)

Lemma session_kept_credentials (w w' : @world server) :
  session_kept w w' → credentials_held w → credentials_held w'.
Proof.
  intros (Hu & _ & _ & _ & _ & _ & Hi & _) Hc Hcu.
  rewrite Hu in Hcu. destruct (Hc Hcu). split; by apply Hi.
Qed.

Lemma truthy_item_is_Some (o : option string) :
  truthy (item o) = true → is_Some o.
Proof. by destruct o. Qed.

(** X20: Each operation of the two modules, run from its first step to its
    last with no other operation of the page running in between, keeps the
    credentials with the current user: when the token store holds an access
    token and a user id whenever a user is current before the operation, it
    does so after it.  This is the case for the session operations
    [initAuth], [signOut] and [handleGoogleSignIn], whatever the listener
    answers, and for the operations on the user document; it holds of the
    page as loaded, where no user is current.  Operations that overlap at
    their requests are not covered. *)
Theorem credentials_held_preserved gameName sessionData personalBests
    localStorageKey response (w : @world server) (p : @page server) :
  (currentUser w = JNull → credentials_held w)
  ∧ (credentials_held w → credentials_held (initAuth serve w).2)
  ∧ credentials_held (signOut w).2
  ∧ (credentials_held (page_world p) →
     credentials_held (page_world (handleGoogleSignIn serve response p).2))
  ∧ (credentials_held w →
     credentials_held (readUserData serve w).2
     ∧ credentials_held (createUserDocument serve w).2
     ∧ credentials_held
         (updateGameData serve gameName sessionData personalBests w).2
     ∧ credentials_held (refreshAuthToken serve w).2
     ∧ credentials_held
         (migrateLocalStorage serve gameName localStorageKey w).2).
Proof.
  split_and!.
  - intros Hu Hcu. done.
  - intros Hc. rewrite initAuth_run.
    destruct (truthy (held "firebaseToken" w)) eqn:Ht; [|done].
    destruct (truthy (held "userId" w)) eqn:Hu; [|done].
    cbn [andb]. cbn zeta. rewrite verifyToken_run. cbn [fst snd].
    destruct (match (serve _ _).2 with Some r => _ | None => _ end);
      cbn [snd]; [|done].
    destruct (answer (restored_user w) w) as [[]|e]; [|done].
    intros _. cbn [snd signed_in_as sessionStorage sent].
    split; by apply truthy_item_is_Some.
  - rewrite signOut_run. done.
  - intros Hc. rewrite handleGoogleSignIn_run.
    destruct (get response "credential") as [googleIdToken|e]; [|done].
    cbn zeta. rewrite signInWithGoogleCredential_run. cbn [fst snd].
    destruct (match (serve _ _).2 with Some r => _ | None => _ end)
      as [firebaseAuth|e]; [|done].
    destruct firebaseAuth; try done; intros _;
      cbn [snd page_world signed_in_as sessionStorage with_sessionStorage];
      unfold with_session;
      (split;
       [rewrite !lookup_insert_ne by done; rewrite lookup_insert_eq
       |rewrite !(lookup_insert_ne _ "userPhotoURL"),
                !(lookup_insert_ne _ "userDisplayName"),
                !(lookup_insert_ne _ "userEmail") by done;
        rewrite lookup_insert_eq]); by eexists.
  - intros Hc. split_and!.
    + eapply session_kept_credentials; [apply readUserData_session_kept|done].
    + eapply session_kept_credentials;
        [apply createUserDocument_session_kept|done].
    + eapply session_kept_credentials;
        [apply updateGameData_session_kept|done].
    + eapply session_kept_credentials;
        [apply refreshAuthToken_session_kept|done].
    + destruct (migrateLocalStorage_session serve gameName localStorageKey w)
        as (w1 & Hk & [-> | ->]).
      * by eapply session_kept_credentials.
      * pose proof (session_kept_credentials _ _ Hk Hc) as Hc1.
        exact Hc1.
Qed.

End AuthFacts.

(** * Reading back what was written *)

Section StoreRoundTrip.
Context `{Host} `{Config}.

#[local] Existing Instance M_ret.
#[local] Existing Instance M_bind.

Lemma parseFirestoreDocument_fields (fs : fields) :
  decodable fs →
  parseFirestoreDocument (JObj [("fields", JObj fs)])
  = Ret (JObj (map (λ p, (p.1, returned JUndefined (parseFirestoreValue p.2)))
                   fs)).
Proof.
  intros (Hnd & Hpf & Hdec). unfold parseFirestoreDocument. cbn.
  rewrite (decode_entries_decodable _ []) by done. reflexivity.
Qed.

(** X21: A document whose fields have distinct names, none of them
    [__proto__], and all decode is decoded field by field: the record has
    the same names in the same order, and each value is the decoding of the
    field of that name. *)
Theorem parseFirestoreDocument_fieldwise (fs : fields) :
  decodable fs →
  ∃ data,
    parseFirestoreDocument (JObj [("fields", JObj fs)]) = Ret (JObj data)
    ∧ data.*1 = fs.*1
    ∧ ∀ k v, lookup_prop k fs = Some v →
             ∃ r, parseFirestoreValue v = Ret r
                  ∧ lookup_prop k data = Some r.
Proof.
  intros Hdec. eexists. split_and!.
  - by apply parseFirestoreDocument_fields.
  - clear Hdec. induction fs as [|[k v] fs IH]; [done|].
    cbn [map fmap list_fmap fst]. f_equal. apply IH.
  - intros k v Hk.
    rewrite (lookup_prop_fmap
               (λ v, returned JUndefined (parseFirestoreValue v))), Hk.
    destruct Hdec as (_ & _ & Hdec).
    destruct (Hdec k v (lookup_prop_elem _ _ _ Hk)) as [r Hr].
    exists r. split; [done|].
    cbn [fmap option_fmap option_map]. by rewrite Hr.
Qed.


Lemma firestore_read_missing (st : store) (uid tok : string) :
  st_path st = doc_url (JStr uid) → st_token st = tok →
  st_doc st = None →
  firestore st (read_request (JStr uid) (JStr tok))
  = (st, Some (Response 404 (Some (JObj [("error", JStr "NOT_FOUND")])))).
Proof.
  intros Hp Ht Hd. unfold firestore, read_request, bearer_headers.
  cbn [req_headers req_method req_url req_body lookup_header ToString].
  rewrite (String.eqb_refl "Authorization"), Ht.
  rewrite bool_decide_true by done. cbn [negb].
  rewrite (String.eqb_refl "GET"), Hp, String.eqb_refl, Hd. reflexivity.
Qed.

Lemma firestore_create (st : store) (uid tok : string) (body : jsval)
    (fs : fields) :
  st_path st = doc_url (JStr uid) → st_token st = tok →
  JSON_value body = Some (JObj [("fields", JObj fs)]) →
  firestore st (create_request (JStr uid) (JStr tok) body)
  = (Store (st_path st) (st_token st) (Some fs),
     Some (Response 200 (Some (JObj [("fields", JObj fs)])))).
Proof.
  intros Hp Ht Hb. unfold firestore, create_request, bearer_headers.
  cbn [req_headers req_method req_url req_body lookup_header ToString].
  rewrite (String.eqb_refl "Authorization"), Ht.
  rewrite bool_decide_true by done. cbn [negb].
  change (String.eqb "PATCH" "GET") with false. cbn iota.
  rewrite (String.eqb_refl "PATCH"), Hp, String.eqb_refl.
  cbn [mbind option_bind]. rewrite Hb. reflexivity.
Qed.

(** JSON text holds no [undefined]. *)
Lemma JSON_value_defined (v r : jsval) :
  JSON_value v = Some r → is_undefined r = false.
Proof.
  destruct v as [| | | | |[t|]| | |]; cbn [JSON_value]; intros [= <-];
    try done.
  unfold JSON_number. by repeat case_match.
Qed.

(** A string field of the profile, as the JSON text carries it, decodes. *)
Lemma profile_field_json (x : jsval) :
  ∃ e r, JSON_value (JObj [("stringValue", or_empty x)]) = Some e
         ∧ parseFirestoreValue e = Ret r.
Proof.
  cbn [JSON_value omap list_omap fst snd].
  destruct (JSON_value (or_empty x)) as [y|] eqn:E;
    cbn [fmap option_fmap option_map]; eexists _, _; (split; [done|]).
  - apply parseFirestoreValue_stringValue. by eapply JSON_value_defined.
  - rewrite parseFirestoreValue_unfold. reflexivity.
Qed.

(** The sub-record of a game in the first document decodes to a record
    without sessions. *)
Lemma parseFirestoreValue_default_game (t : string) :
  ∃ lastPlayed,
    parseFirestoreValue (map_value (default_game_fields t))
    = Ret (JObj [("personalBests",
                  JObj [("sessionsPlayed", JNum PrimFloat.zero);
                        ("lastPlayed", JDate lastPlayed)]);
                 ("sessions", JArr [])]).
Proof. by eexists. Qed.

(** The fields of the first document, as the JSON text carries them,
    decode. *)
Lemma initial_fields_decodable (email displayName photoURL : jsval)
    (t0 t1 t2 t3 t4 t5 t6 t7 : string) :
  ∃ fs,
    JSON_value
      (initialData (profile_value email displayName photoURL t0)
         (default_game_fields t1) (default_game_fields t2)
         (default_game_fields t3) (default_game_fields t4)
         (default_game_fields t5) (default_game_fields t6)
         (default_game_fields t7)) = Some (JObj [("fields", JObj fs)])
    ∧ decodable fs
    ∧ fs.*1 = "profile" :: game_names
    ∧ ∀ g, g ∈ game_names →
        ∃ sub lastPlayed,
          lookup_prop g fs = Some sub
          ∧ parseFirestoreValue sub
            = Ret (JObj [("personalBests",
                          JObj [("sessionsPlayed", JNum PrimFloat.zero);
                                ("lastPlayed", JDate lastPlayed)]);
                         ("sessions", JArr [])]).
Proof.
  destruct (profile_field_json email) as (e1 & r1 & He1 & Hr1).
  destruct (profile_field_json displayName) as (e2 & r2 & He2 & Hr2).
  destruct (profile_field_json photoURL) as (e3 & r3 & He3 & Hr3).
  destruct (parseFirestoreValue_default_game t1) as [l1 Hl1].
  destruct (parseFirestoreValue_default_game t2) as [l2 Hl2].
  destruct (parseFirestoreValue_default_game t3) as [l3 Hl3].
  destruct (parseFirestoreValue_default_game t4) as [l4 Hl4].
  destruct (parseFirestoreValue_default_game t5) as [l5 Hl5].
  destruct (parseFirestoreValue_default_game t6) as [l6 Hl6].
  destruct (parseFirestoreValue_default_game t7) as [l7 Hl7].
  exists [("profile",
           map_value [("email", e1); ("displayName", e2); ("photoURL", e3);
                      ("createdAt", JObj [("timestampValue", JStr t0)])]);
          ("typing", map_value (default_game_fields t1));
          ("dualNBack", map_value (default_game_fields t2));
          ("mathGame", map_value (default_game_fields t3));
          ("speedProcessing", map_value (default_game_fields t4));
          ("stroop", map_value (default_game_fields t5));
          ("cpt", map_value (default_game_fields t6));
          ("taskSwitching", map_value (default_game_fields t7))].
  split.
  { unfold initialData, profile_value, map_value, default_game_fields.
    remember (JObj [("stringValue", or_empty email)]) as x1.
    remember (JObj [("stringValue", or_empty displayName)]) as x2.
    remember (JObj [("stringValue", or_empty photoURL)]) as x3.
    cbn [JSON_value omap list_omap fst snd map default from_option id].
    rewrite He1, He2, He3. reflexivity. }
  split_and!.
  - split_and!.
    + apply (bool_decide_unpack _). by vm_compute.
    + apply (bool_decide_unpack _). by vm_compute.
    + intros k v Hin.
      repeat (apply elem_of_cons in Hin as [[= -> ->]|Hin]);
        [|eexists; eassumption..|by apply elem_of_nil in Hin].
      eexists. unfold map_value. rewrite parseFirestoreValue_unfold.
      cbn -[parseFirestoreValue]. rewrite Hr1, Hr2, Hr3.
      reflexivity.
  - reflexivity.
  - intros g Hg. unfold game_names in Hg.
    repeat (apply elem_of_cons in Hg as [->|Hg]);
      [eexists _, _; (split; [reflexivity|eassumption])..
      |by apply elem_of_nil in Hg].
Qed.

(** X23: The first read of a user whose document does not exist yet creates the
    document and returns the initial record: a profile and the seven games,
    each without any session.  A second read sends one request and returns
    the same record. *)
Theorem readUserData_first_read (w : @world store) (u : fields) :
  synced w → st_doc (remote w) = None → currentUser w = JObj u →
  ∃ data w1 w2,
    readUserData firestore w = (Ret (JObj data), w1)
    ∧ req_method <$> requests w1
      = (req_method <$> requests w) ++ ["GET"; "PATCH"]
    ∧ readUserData firestore w1 = (Ret (JObj data), w2)
    ∧ req_method <$> requests w2 = (req_method <$> requests w1) ++ ["GET"]
    ∧ data.*1 = "profile" :: game_names
    ∧ ∀ g, g ∈ game_names →
        ∃ lastPlayed,
          lookup_prop g data
          = Some (JObj [("personalBests",
                         JObj [("sessionsPlayed", JNum PrimFloat.zero);
                               ("lastPlayed", JDate lastPlayed)]);
                        ("sessions", JArr [])]).
Proof.
  intros Hsync Hdoc Hcu.
  destruct (synced_authenticated w Hsync)
    as (uid & tok & Hu & Ht & Hauth & Hp & Htok).
  set (w0 := sent (first_read w) (remote w) w).
  destruct (initial_fields_decodable
              (property (currentUser w0) "email")
              (property (currentUser w0) "displayName")
              (property (currentUser w0) "photoURL")
              (stamp w0 0) (stamp w0 1) (stamp w0 2) (stamp w0 3)
              (stamp w0 4) (stamp w0 5) (stamp w0 6) (stamp w0 7))
    as (fs & Hfs & Hdec & Hkeys & Hgames).
  fold (first_document w0) in Hfs.
  set (rq := create_request (JStr uid) (JStr tok) (first_document w0)).
  set (w1 := sent rq (Store (st_path (remote w)) (st_token (remote w))
                        (Some fs)) (Nat.iter 8 tick w0)).
  set (data := map (λ p, (p.1, returned JUndefined (parseFirestoreValue p.2)))
                   fs).
  assert (readUserData firestore w = (Ret (JObj data), w1)) as Hread1.
  { rewrite readUserData_run by done. cbn zeta.
    unfold first_read, after_read, first_read. rewrite Hu, Ht.
    rewrite (firestore_read_missing _ uid tok) by done.
    cbn [fst snd status Z.eqb Pos.eqb].
    fold (first_read w). rewrite <- Hu, <- Ht at 1. fold (first_read w).
    fold w0.
    rewrite (createUserDocument_run firestore w0 u) by done. cbn zeta.
    change (held "userId" w0) with (held "userId" w).
    change (held "firebaseToken" w0) with (held "firebaseToken" w).
    rewrite Hu, Ht. fold rq.
    change (remote w0) with (remote w).
    unfold rq. rewrite (firestore_create _ uid tok _ fs) by done.
    cbn [fst snd json_body]. unfold ok. cbn [status Z.leb Z.compare
      Pos.compare Pos.compare_cont andb].
    rewrite parseFirestoreDocument_fields by done.
    subst w1 data. f_equal. }
  assert (synced w1) as Hsync1.
  { destruct Hsync as (uid' & tok' & ? & ? & ? & ? & ? & ?).
    by exists uid', tok'. }
  destruct (synced_authenticated w1 Hsync1)
    as (uid1 & tok1 & Hu1 & Ht1 & Hauth1 & Hp1 & Htok1).
  exists data, w1,
    (sent (read_request (JStr uid1) (JStr tok1)) (remote w1) w1).
  split_and!.
  - exact Hread1.
  - subst w1 w0. cbn [requests sent Nat.iter tick nat_rect].
    rewrite <- app_assoc, fmap_app. reflexivity.
  - rewrite readUserData_run by done. cbn zeta.
    unfold after_read, first_read. rewrite Hu1, Ht1.
    rewrite (firestore_read _ uid1 tok1 fs) by done.
    cbn [fst snd status Z.eqb Pos.eqb json_body]. unfold ok.
    cbn [status Z.leb Z.compare Pos.compare Pos.compare_cont andb].
    rewrite parseFirestoreDocument_fields by done. reflexivity.
  - cbn [requests sent]. rewrite fmap_app. reflexivity.
  - subst data. rewrite <- Hkeys. clear.
    induction fs as [|[k v] fs IH]; [done|].
    cbn [map fmap list_fmap fst]. f_equal. apply IH.
  - intros g Hg. destruct (Hgames g Hg) as (sub & lastPlayed & Hl & Hp').
    exists lastPlayed. subst data.
    rewrite (lookup_prop_fmap
               (λ v, returned JUndefined (parseFirestoreValue v))), Hl.
    cbn [fmap option_fmap option_map]. by rewrite Hp'.
Qed.

End StoreRoundTrip.

(** * More on the codec *)

Section CodecExtra.
Context `{Host}.

(** Induction on the nesting depth of a value. *)
Lemma height_ind (Pr : jsval → Prop) :
  (∀ obj, (∀ y, (height y < height obj)%nat → Pr y) → Pr obj) →
  ∀ obj, Pr obj.
Proof.
  intros Hstep obj. remember (height obj) as n eqn:Hn.
  revert obj Hn. induction n as [n IH] using lt_wf_ind. intros obj ->.
  apply Hstep. intros y Hy. by apply (IH (height y)).
Qed.

Lemma mapR_thrown {A B} (f : A → result B) (xs : list A) (e : exn) :
  mapR f xs = Throw e → ∃ x, x ∈ xs ∧ f x = Throw e.
Proof.
  induction xs as [|x xs IH]; [discriminate|]. cbn [mapR].
  destruct (f x) as [y|e'] eqn:Hx; cbn [mbind result_bind rbind].
  - destruct (mapR f xs) as [ys|e'']; cbn [mbind result_bind rbind];
      [discriminate|].
    intros [= ->]. destruct IH as (x' & Hin & Hx'); [done|].
    exists x'. split; [by right|done].
  - intros [= ->]. exists x. split; [left|done].
Qed.

Lemma mapR_returned {A B} (f : A → result B) (xs : list A) (ys : list B) :
  mapR f xs = Ret ys → ∀ y, y ∈ ys → ∃ x, x ∈ xs ∧ f x = Ret y.
Proof.
  revert ys. induction xs as [|x xs IH]; intros ys; cbn [mapR].
  - intros [= <-] y Hy. by apply elem_of_nil in Hy.
  - destruct (f x) as [y0|] eqn:Hx; cbn [mbind result_bind rbind];
      [|discriminate].
    destruct (mapR f xs) as [ys0|]; cbn [mbind result_bind rbind];
      [|discriminate].
    intros [= <-] y [->|Hy]%elem_of_cons.
    + exists x. split; [left|done].
    + destruct (IH ys0 eq_refl y Hy) as (x' & Hin & Hx').
      exists x'. split; [by right|done].
Qed.

(** The encoding of an array element that is not of type [object]. *)
Lemma encode_primitive_item (item : jsval) :
  String.eqb (typeof item) "object" = false →
  (fs ← objectToFirestoreFields (JObj [("val", item)]); get (JObj fs) "val")
  = Ret (match item with
         | JUndefined => JObj [("nullValue", JNull)]
         | JBool _ => JObj [("booleanValue", item)]
         | JNum _ => JObj [("doubleValue", item)]
         | JStr _ => JObj [("stringValue", item)]
         | _ => JUndefined
         end).
Proof. destruct item; try discriminate; reflexivity. Qed.

(** *** The errors of the encoder *)

Lemma encode_entry_thrown acc key value (e : exn) :
  (∀ y, (0 < height value)%nat → (height y ≤ height value)%nat →
        ∀ e, objectToFirestoreFields y = Throw e → encoder_error e) →
  encode_entry objectToFirestoreFields acc key value = Throw e →
  encoder_error e.
Proof.
  intros IH. destruct value as [| | | | |[t|]| |items|ps];
    cbn [encode_entry Date_toISOString mbind result_bind rbind];
    try discriminate.
  - intros [= <-]. by right.
  - destruct (mapR _ items) as [values|e'] eqn:Hmap;
      cbn [mbind result_bind rbind]; [discriminate|].
    intros [= ->].
    apply mapR_thrown in Hmap as (item & Hin & Hitem).
    pose proof (height_item _ _ Hin) as Hlt.
    destruct (String.eqb (typeof item) "object") eqn:Et.
    + destruct (objectToFirestoreFields item) as [fs|e'] eqn:Hi;
        cbn [mbind result_bind rbind] in Hitem; [discriminate|].
      injection Hitem as ->. apply (IH item); [cbn; lia|lia|done].
    + by rewrite encode_primitive_item in Hitem.
  - destruct (objectToFirestoreFields (JObj ps)) as [fs|e'] eqn:Hi;
      cbn [mbind result_bind rbind]; [discriminate|].
    intros [= ->]. apply (IH (JObj ps)); [cbn; lia|lia|done].
Qed.

Lemma encode_entries_thrown acc entries (e : exn) :
  (∀ k v y, (k, v) ∈ entries → (0 < height v)%nat →
            (height y ≤ height v)%nat →
            ∀ e, objectToFirestoreFields y = Throw e → encoder_error e) →
  encode_entries objectToFirestoreFields acc entries = Throw e →
  encoder_error e.
Proof.
  revert acc. induction entries as [|[k v] es IH]; intros acc Hs;
    [discriminate|].
  cbn [encode_entries].
  destruct (encode_entry objectToFirestoreFields acc k v) as [acc'|e']
    eqn:He; cbn [mbind result_bind rbind].
  - apply IH. intros k' v' y Hin. apply (Hs k'). by right.
  - intros [= ->]. apply (encode_entry_thrown acc k v); [|done].
    intros y ??. apply (Hs k v); [left|done..].
Qed.

Lemma objectToFirestoreFields_thrown (obj : jsval) (e : exn) :
  objectToFirestoreFields obj = Throw e → encoder_error e.
Proof.
  revert e. induction obj as [obj IH] using height_ind. intros e.
  rewrite objectToFirestoreFields_unfold. unfold objectToFirestoreFields_body.
  destruct (Object_entries obj) as [es|e'] eqn:E;
    cbn [mbind result_bind rbind].
  - apply Object_entries_ret in E as ->.
    apply encode_entries_thrown. intros k v y Hin Hpos Hle.
    apply IH. pose proof (own_entries_height _ _ _ Hin Hpos). lia.
  - intros [= <-]. left.
    destruct obj; cbn in E; try discriminate; by injection E as <-.
Qed.

(** The errors of the loop are those of the recursive calls and that of an
    invalid date. *)
Lemma encode_entry_thrown_by (self : jsval → result fields)
    (thrown : exn → Prop) acc key value (e : exn) :
  thrown (RangeError "Invalid time value") →
  (∀ y e, self y = Throw e → thrown e) →
  encode_entry self acc key value = Throw e → thrown e.
Proof.
  intros Hdate Hself. destruct value as [| | | | |[t|]| |items|ps];
    cbn [encode_entry Date_toISOString mbind result_bind rbind];
    try discriminate.
  - by intros [= <-].
  - destruct (mapR _ items) as [values|e'] eqn:Hmap;
      cbn [mbind result_bind rbind]; [discriminate|].
    intros [= ->].
    apply mapR_thrown in Hmap as (item & Hin & Hitem).
    destruct (String.eqb (typeof item) "object").
    + destruct (self item) as [fs|e'] eqn:Hi;
        cbn [mbind result_bind rbind] in Hitem; [discriminate|].
      injection Hitem as ->. by apply (Hself item).
    + destruct (self (JObj [("val", item)])) as [fs|e'] eqn:Hi;
        cbn [mbind result_bind rbind] in Hitem; [discriminate|].
      injection Hitem as ->. by apply (Hself (JObj [("val", item)])).
  - destruct (self (JObj ps)) as [fs|e'] eqn:Hi;
      cbn [mbind result_bind rbind]; [discriminate|].
    intros [= ->]. by apply (Hself (JObj ps)).
Qed.

Lemma encode_entries_thrown_by (self : jsval → result fields)
    (thrown : exn → Prop) acc entries (e : exn) :
  thrown (RangeError "Invalid time value") →
  (∀ y e, self y = Throw e → thrown e) →
  encode_entries self acc entries = Throw e → thrown e.
Proof.
  intros Hdate Hself. revert acc.
  induction entries as [|[k v] es IH]; intros acc; [discriminate|].
  cbn [encode_entries].
  destruct (encode_entry self acc k v) as [acc'|e'] eqn:He;
    cbn [mbind result_bind rbind]; [apply IH|].
  intros [= ->]. by apply (encode_entry_thrown_by self thrown acc k v).
Qed.

Lemma objectToFirestoreFields_rec_thrown (depth : nat) (obj : jsval)
    (e : exn) :
  objectToFirestoreFields_rec depth obj = Throw e →
  encoder_error e ∨ e = stack_overflow.
Proof.
  revert obj e. induction depth as [|d IH]; intros obj e;
    cbn [objectToFirestoreFields_rec]; [intros [= <-]; by right|].
  unfold objectToFirestoreFields_body.
  destruct (Object_entries obj) as [es|e'] eqn:E;
    cbn [mbind result_bind rbind].
  - apply (encode_entries_thrown_by _
             (λ e, encoder_error e ∨ e = stack_overflow));
      [left; by right|exact IH].
  - intros [= <-]. left. left.
    destruct obj; cbn in E; try discriminate; by injection E as <-.
Qed.

Lemma encode_ref_entries_thrown (self : nat → result fields)
    (thrown : exn → Prop) acc entries (e : exn) :
  (∀ a e, self a = Throw e → thrown e) →
  encode_ref_entries self acc entries = Throw e → thrown e.
Proof.
  intros Hself. revert acc.
  induction entries as [|[k [n|s|a]] es IH]; intros acc;
    cbn [encode_ref_entries]; [discriminate|apply IH..|].
  destruct (self a) as [fs|e'] eqn:Ha; cbn [mbind result_bind rbind];
    [apply IH|].
  intros [= ->]. by apply (Hself a).
Qed.

Lemma objectToFirestoreFields_heap_thrown (h : heap) (depth address : nat)
    (e : exn) :
  objectToFirestoreFields_heap h depth address = Throw e →
  encoder_error e ∨ e = stack_overflow.
Proof.
  revert address e. induction depth as [|d IH]; intros address e;
    cbn [objectToFirestoreFields_heap]; [intros [= <-]; by right|].
  destruct (h !! address) as [entries|].
  - apply (encode_ref_entries_thrown _
             (λ e, encoder_error e ∨ e = stack_overflow)). exact IH.
  - intros [= <-]. left. by left.
Qed.

(** X24: [objectToFirestoreFields] throws in three cases only: the
    [TypeError] of [Object.entries] when the value, or an element of an
    array in it, is [null] or [undefined] where an object is expected; the
    [RangeError] of [toISOString] on an invalid date; and the [RangeError] of
    an exhausted call stack, on a value nested deeper than the stack and on
    every object that holds a reference to itself.  On a value without
    such a reference, run with a stack deeper than its nesting, only the
    first two occur. *)
Theorem objectToFirestoreFields_errors :
  (∀ obj e, objectToFirestoreFields obj = Throw e → encoder_error e)
  ∧ (∀ depth obj e,
       objectToFirestoreFields_rec depth obj = Throw e →
       encoder_error e ∨ e = stack_overflow)
  ∧ (∀ h depth address e,
       objectToFirestoreFields_heap h depth address = Throw e →
       encoder_error e ∨ e = stack_overflow)
  ∧ (∀ depth,
       objectToFirestoreFields_heap self_referent depth 0
       = Throw stack_overflow).
Proof.
  split_and!.
  - apply objectToFirestoreFields_thrown.
  - apply objectToFirestoreFields_rec_thrown.
  - apply objectToFirestoreFields_heap_thrown.
  - apply objectToFirestoreFields_cycle.
Qed.

(** *** The errors of the decoder *)

Lemma get_thrown (v : jsval) (k : string) (e : exn) :
  get v k = Throw e → type_error e.
Proof.
  destruct v; cbn [get]; try discriminate;
    try (intros [= <-]; by eexists).
  repeat case_match; try discriminate. intros [= <-]. by eexists.
Qed.

Lemma decode_entries_thrown (self : jsval → result jsval) acc entries e :
  decode_entries self acc entries = Throw e →
  ∃ k v, (k, v) ∈ entries ∧ self v = Throw e.
Proof.
  revert acc. induction entries as [|[k v] es IH]; intros acc;
    [discriminate|].
  cbn [decode_entries].
  destruct (self v) as [x|e'] eqn:Hv; cbn [mbind result_bind rbind].
  - intros (k' & v' & Hin & Hv')%IH. exists k', v'. split; [by right|done].
  - intros [= ->]. exists k, v. split; [left|done].
Qed.

Lemma parseFirestoreValue_body_thrown (self : jsval → result jsval)
    (value : jsval) (e : exn) :
  (∀ y, (height y < height value)%nat →
        ∀ e, self y = Throw e → type_error e) →
  parseFirestoreValue_body self value = Throw e → type_error e.
Proof.
  intros Hs. unfold parseFirestoreValue_body.
  destruct (get value "stringValue") as [?|?] eqn:?;
    cbn [mbind result_bind rbind]; [|intros [= ->]; by eapply get_thrown].
  destruct (negb (is_undefined _)); [done|].
  destruct (get value "doubleValue") as [?|?] eqn:?;
    cbn [mbind result_bind rbind]; [|intros [= ->]; by eapply get_thrown].
  destruct (negb (is_undefined _)); [done|].
  destruct (get value "integerValue") as [?|?] eqn:?;
    cbn [mbind result_bind rbind]; [|intros [= ->]; by eapply get_thrown].
  destruct (negb (is_undefined _)); [done|].
  destruct (get value "booleanValue") as [?|?] eqn:?;
    cbn [mbind result_bind rbind]; [|intros [= ->]; by eapply get_thrown].
  destruct (negb (is_undefined _)); [done|].
  destruct (get value "timestampValue") as [?|?] eqn:?;
    cbn [mbind result_bind rbind]; [|intros [= ->]; by eapply get_thrown].
  destruct (negb (is_undefined _)); [done|].
  destruct (get value "nullValue") as [?|?] eqn:?;
    cbn [mbind result_bind rbind]; [|intros [= ->]; by eapply get_thrown].
  destruct (negb (is_undefined _)); [done|].
  destruct (get value "mapValue") as [mv|] eqn:Em;
    cbn [mbind result_bind rbind]; [|intros [= ->]; by eapply get_thrown].
  destruct (truthy mv) eqn:Tm.
  { pose proof (get_height _ "mapValue" _ ltac:(set_solver) Em Tm) as Hm.
    destruct (get mv "fields") as [fs0|] eqn:Ef;
      cbn [mbind result_bind rbind]; [|intros [= ->]; by eapply get_thrown].
    destruct (truthy fs0) eqn:Tf; [|done].
    pose proof (get_height _ "fields" _ ltac:(set_solver) Ef Tf) as Hf.
    destruct (Object_entries fs0) as [es|] eqn:Ee; [|by destruct fs0].
    cbn [mbind result_bind rbind].
    apply Object_entries_ret in Ee as ->.
    destruct (decode_entries self [] (own_entries fs0)) as [obj|e'] eqn:Hd;
      cbn [mbind result_bind rbind]; [done|].
    intros [= ->].
    apply decode_entries_thrown in Hd as (k & v & Hin & Hv).
    apply (Hs v); [|done].
    destruct (height fs0) eqn:E0.
    - destruct (height v) eqn:Ev; [lia|].
      pose proof (own_entries_height _ _ _ Hin). lia.
    - pose proof (own_entries_lt _ _ _ Hin). lia. }
  destruct (get value "arrayValue") as [av|] eqn:Ea;
    cbn [mbind result_bind rbind]; [|intros [= ->]; by eapply get_thrown].
  destruct (truthy av) eqn:Ta; [|done].
  pose proof (get_height _ "arrayValue" _ ltac:(set_solver) Ea Ta)
    as Hav.
  destruct (get av "values") as [vs0|] eqn:Ev;
    cbn [mbind result_bind rbind]; [|intros [= ->]; by eapply get_thrown].
  destruct (truthy vs0) eqn:Tv; [|done].
  pose proof (get_height _ "values" _ ltac:(set_solver) Ev Tv) as Hv.
  destruct vs0; try (intros [= <-]; by eexists).
  destruct (mapR self items) as [xs|e'] eqn:Hmap;
    cbn [mbind result_bind rbind]; [done|].
  intros [= ->]. apply mapR_thrown in Hmap as (x & Hin & Hx).
  apply (Hs x); [|done]. pose proof (height_item _ _ Hin). lia.
Qed.

(** X25: The decoder throws nothing but [TypeError]s: on a value that is [null]
    or [undefined] where a tagged value is expected, and on an array tag
    whose [values] is not an array.  The same holds for
    [parseFirestoreDocument]. *)
Theorem parseFirestoreValue_errors (value : jsval) (e : exn) :
  parseFirestoreValue value = Throw e
  ∨ parseFirestoreDocument value = Throw e →
  type_error e.
Proof.
  intros Hthrown. revert Hthrown.
  cut ((parseFirestoreValue value = Throw e → type_error e)
       ∧ (parseFirestoreDocument value = Throw e → type_error e));
    [intros [H1 H2] [?|?]; auto|].
  assert (∀ v e, parseFirestoreValue v = Throw e → type_error e) as Hv.
  { clear. intros v. induction v as [v IH] using height_ind. intros e.
    rewrite parseFirestoreValue_unfold.
    apply parseFirestoreValue_body_thrown. exact IH. }
  split; [apply Hv|].
  unfold parseFirestoreDocument.
  destruct (negb (truthy value)); [done|].
  destruct (get value "fields") as [fs|e'] eqn:Ef;
    cbn [mbind result_bind rbind]; [|intros [= ->]; by eapply get_thrown].
  destruct (negb (truthy fs)) eqn:Tf; [done|].
  destruct (Object_entries fs) as [es|] eqn:Ee; [|by destruct fs].
  cbn [mbind result_bind rbind].
  destruct (decode_entries parseFirestoreValue [] es) as [data|e'] eqn:Hd;
    cbn [mbind result_bind rbind]; [done|].
  intros [= ->]. apply decode_entries_thrown in Hd as (k & v & _ & Hd).
  by apply (Hv v).
Qed.

(** *** [undefined] is stored as [null] *)

Lemma encode_entries_undefined (acc ps : fields) :
  (∀ k qs, (k, JObj qs) ∈ ps →
           objectToFirestoreFields (JObj qs)
           = objectToFirestoreFields (undefined_as_null (JObj qs))) →
  encode_entries objectToFirestoreFields acc ps
  = encode_entries objectToFirestoreFields acc
      (map (λ p, (p.1, undefined_as_null p.2)) ps).
Proof.
  revert acc. induction ps as [|[k v] ps IH]; intros acc Hs; [reflexivity|].
  cbn [encode_entries map fst snd].
  assert (encode_entry objectToFirestoreFields acc k v
          = encode_entry objectToFirestoreFields acc k (undefined_as_null v))
    as ->.
  { destruct v; try reflexivity.
    cbn [encode_entry]. rewrite (Hs k props) by left. reflexivity. }
  destruct (encode_entry _ acc k (undefined_as_null v)) as [acc'|e];
    cbn [mbind result_bind rbind]; [|reflexivity].
  apply IH. intros k' qs Hin. apply (Hs k'). by right.
Qed.

(** X26: The encoder does not distinguish a property that is [undefined] from
    one that is [null], at any depth of nested objects: both are written
    as the null tag, so that an [undefined] property is read back as
    [null]. *)
Theorem objectToFirestoreFields_undefined_as_null (ps : fields) :
  objectToFirestoreFields (JObj ps)
  = objectToFirestoreFields (undefined_as_null (JObj ps)).
Proof.
  remember (JObj ps) as obj eqn:Hobj. revert ps Hobj.
  induction obj as [obj IH] using height_ind. intros ps ->.
  cbn [undefined_as_null]. rewrite !objectToFirestoreFields_unfold.
  unfold objectToFirestoreFields_body.
  cbn [Object_entries own_entries mbind result_bind rbind].
  apply encode_entries_undefined. intros k qs Hin.
  eapply (IH (JObj qs)); [|reflexivity]. by apply (height_prop k).
Qed.

(** *** One field per property *)

Lemma encode_entry_keys (self : jsval → result fields) acc key value acc' :
  encode_entry self acc key value = Ret acc' →
  if bool_decide (typeof value = "function") then acc' = acc
  else ∃ x, acc' = assign key x acc.
Proof.
  destruct value as [| | | | |t| |items|ps]; cbn [encode_entry typeof];
    try (intros [= <-]; by eexists).
  - destruct (Date_toISOString t); cbn [mbind result_bind rbind];
      [|discriminate]. intros [= <-]. by eexists.
  - destruct (mapR _ items); cbn [mbind result_bind rbind];
      [|discriminate]. intros [= <-]. by eexists.
  - destruct (self (JObj ps)); cbn [mbind result_bind rbind];
      [|discriminate]. intros [= <-]. by eexists.
Qed.

Lemma encode_entries_keys (self : jsval → result fields) acc entries fs :
  NoDup (acc.*1 ++ entries.*1) →
  encode_entries self acc entries = Ret fs →
  fs.*1
  = acc.*1
    ++ (filter (λ p, typeof p.2 ≠ "function" ∧ p.1 ≠ "__proto__") entries).*1.
Proof.
  revert acc. induction entries as [|[k v] es IH]; intros acc Hnd.
  - cbn. intros [= <-]. by rewrite app_nil_r.
  - cbn [encode_entries].
    destruct (encode_entry self acc k v) as [acc'|] eqn:He;
      cbn [mbind result_bind rbind]; [|discriminate].
    apply encode_entry_keys in He.
    cbn [fmap list_fmap fst] in Hnd.
    assert (k ∉ acc.*1) as Hk.
    { apply NoDup_app in Hnd as (_ & Hd & _). intros Hin.
      apply (Hd k Hin). left. }
    assert (NoDup (acc.*1 ++ es.*1)) as Hnd'.
    { apply NoDup_app in Hnd as (Ha & Hd & He').
      apply NoDup_app. split_and!; [done| |by inversion He'].
      intros x Hx Hx'. apply (Hd x Hx). by right. }
    case_bool_decide as Hf.
    + subst acc'. rewrite filter_cons_False by (cbn; tauto).
      by apply IH.
    + destruct He as [x ->]. unfold assign.
      destruct (String.eqb k "__proto__") eqn:Ek.
      * apply String.eqb_eq in Ek as ->.
        rewrite filter_cons_False by (cbn; tauto). by apply IH.
      * apply String.eqb_neq in Ek.
        rewrite filter_cons_True by done.
        intros Hfs. apply IH in Hfs.
        -- rewrite Hfs, lookup_prop_None_set by done.
           rewrite fmap_app, <- app_assoc. reflexivity.
        -- rewrite lookup_prop_None_set by done.
           rewrite fmap_app, <- app_assoc. exact Hnd.
Qed.

(** X27: Whenever the encoder returns, its result has exactly one field per
    property of the object that is neither a function nor named
    [__proto__], under the same name and in the same order: the assignment
    under the name [__proto__] creates no field. *)
Theorem objectToFirestoreFields_keys (ps fs : fields) :
  NoDup ps.*1 →
  objectToFirestoreFields (JObj ps) = Ret fs →
  fs.*1
  = (filter (λ p, typeof p.2 ≠ "function" ∧ p.1 ≠ "__proto__") ps).*1.
Proof.
  intros Hnd. rewrite objectToFirestoreFields_unfold.
  unfold objectToFirestoreFields_body.
  cbn [Object_entries own_entries mbind result_bind rbind].
  intros Hfs. by apply (encode_entries_keys _ []) in Hfs.
Qed.

(** *** What the encoder writes, the decoder reads *)

Lemma fun_free_own_entries (v : jsval) (k : string) (x : jsval) :
  fun_free v = true → (k, x) ∈ own_entries v → fun_free x = true.
Proof.
  intros Hf Hin. destruct v; cbn [own_entries] in Hin;
    try (by apply elem_of_nil in Hin).
  - apply elem_of_indexed_from in Hin. clear -Hin.
    induction s as [|c s IH]; cbn in Hin; [by apply elem_of_nil in Hin|].
    apply elem_of_cons in Hin as [->|Hin]; auto.
  - apply elem_of_indexed_from in Hin. cbn [fun_free] in Hf.
    apply (forallb_elem _ _ _ Hf Hin).
  - cbn [fun_free] in Hf. apply (forallb_elem _ _ _ Hf Hin).
Qed.

Lemma tagged_map_value (fs : fields) :
  (∀ k x, (k, x) ∈ fs → tagged x = true) → tagged (map_value fs) = true.
Proof.
  intros Hfs. unfold map_value. cbn. rewrite !andb_true_r.
  apply forallb_forall. intros [k x] Hin%list_elem_of_In. by apply (Hfs k).
Qed.

Lemma tagged_array_value (values : list jsval) :
  (∀ x, x ∈ values → tagged x = true) →
  tagged (JObj [("arrayValue", JObj [("values", JArr values)])]) = true.
Proof.
  intros Hvs. cbn. rewrite !andb_true_r.
  apply forallb_forall. intros x Hin%list_elem_of_In. by apply Hvs.
Qed.

Lemma encode_entry_tagged acc key value acc' :
  (∀ y, (0 < height value)%nat → (height y ≤ height value)%nat →
        (∀ k v, (k, v) ∈ own_entries y → fun_free v = true) →
        ∀ fs, objectToFirestoreFields y = Ret fs →
              ∀ k x, (k, x) ∈ fs → tagged x = true) →
  fun_free value = true →
  (∀ k x, (k, x) ∈ acc → tagged x = true) →
  encode_entry objectToFirestoreFields acc key value = Ret acc' →
  ∀ k x, (k, x) ∈ acc' → tagged x = true.
Proof.
  intros IH Hf Hacc He k x Hin.
  assert (∀ new, tagged new = true → acc' = assign key new acc →
                 tagged x = true) as Hset.
  { intros new Hnew ->. unfold assign in Hin.
    destruct (String.eqb key "__proto__"); [by apply (Hacc k)|].
    apply elem_of_set_prop in Hin as [[_ ->]|Hin]; [done|by apply (Hacc k)]. }
  destruct value as [| | | | |[t|]| |items|ps];
    try discriminate Hf;
    cbn [encode_entry Date_toISOString mbind result_bind rbind] in He;
    try discriminate He;
    try (injection He as He; eapply Hset; [|symmetry; exact He];
         reflexivity).
  - destruct (mapR _ items) as [values|] eqn:Hmap;
      cbn [mbind result_bind rbind] in He; [|discriminate].
    injection He as <-. eapply Hset; [|done].
    apply tagged_array_value. intros y Hy.
    destruct (mapR_returned _ _ _ Hmap y Hy) as (item & Hitem & Hy').
    pose proof (height_item _ _ Hitem) as Hlt.
    cbn [fun_free] in Hf. pose proof (forallb_elem _ _ _ Hf Hitem) as Hfi.
    destruct (String.eqb (typeof item) "object") eqn:Et.
    + destruct (objectToFirestoreFields item) as [fs|] eqn:Hi;
        cbn [mbind result_bind rbind] in Hy'; [|discriminate].
      injection Hy' as <-. apply tagged_map_value.
      apply (IH item); [cbn; lia|lia| |done].
      intros k' v'. by apply fun_free_own_entries.
    + rewrite encode_primitive_item in Hy' by done.
      injection Hy' as <-. by destruct item.
  - destruct (objectToFirestoreFields (JObj ps)) as [fs|] eqn:Hi;
      cbn [mbind result_bind rbind] in He; [|discriminate].
    injection He as <-. eapply Hset; [|done].
    apply tagged_map_value.
    apply (IH (JObj ps)); [cbn; lia|lia| |done].
    intros k' v'. by apply fun_free_own_entries.
Qed.

Lemma encode_entries_tagged acc entries fs :
  (∀ k v y, (k, v) ∈ entries → (0 < height v)%nat →
            (height y ≤ height v)%nat →
            (∀ k v, (k, v) ∈ own_entries y → fun_free v = true) →
            ∀ fs, objectToFirestoreFields y = Ret fs →
                  ∀ k x, (k, x) ∈ fs → tagged x = true) →
  (∀ k v, (k, v) ∈ entries → fun_free v = true) →
  (∀ k x, (k, x) ∈ acc → tagged x = true) →
  encode_entries objectToFirestoreFields acc entries = Ret fs →
  ∀ k x, (k, x) ∈ fs → tagged x = true.
Proof.
  revert acc. induction entries as [|[k v] es IH]; intros acc Hs Hf Hacc.
  - cbn. by intros [= <-].
  - cbn [encode_entries].
    destruct (encode_entry objectToFirestoreFields acc k v) as [acc'|]
      eqn:He; cbn [mbind result_bind rbind]; [|discriminate].
    apply IH.
    + intros k' v' y Hin. apply (Hs k'). by right.
    + intros k' v' Hin. apply (Hf k'). by right.
    + apply (encode_entry_tagged acc k v acc'); [|by apply (Hf k); left|done..].
      intros y ??. apply (Hs k v); [left|done..].
Qed.

Lemma objectToFirestoreFields_tagged (obj : jsval) (fs : fields) :
  (∀ k v, (k, v) ∈ own_entries obj → fun_free v = true) →
  objectToFirestoreFields obj = Ret fs →
  ∀ k x, (k, x) ∈ fs → tagged x = true.
Proof.
  revert fs. induction obj as [obj IH] using height_ind. intros fs Hf.
  rewrite objectToFirestoreFields_unfold. unfold objectToFirestoreFields_body.
  destruct (Object_entries obj) as [es|] eqn:E;
    cbn [mbind result_bind rbind]; [|discriminate].
  apply Object_entries_ret in E as ->.
  apply encode_entries_tagged; [|done|by intros ?? ?%elem_of_nil].
  intros k v y Hin Hpos Hle Hy fs'. apply IH; [|done].
  pose proof (own_entries_height _ _ _ Hin Hpos). lia.
Qed.

(** X28: For an object that holds no function, whenever the encoder returns, the
    decoder returns on the result: the encoded fields, wrapped in a map tag
    as [updateGameData] wraps them, are a tagged wire value, and the round
    trip does not throw. *)
Theorem roundtrip_returns (ps fs : fields) :
  fun_free (JObj ps) = true →
  objectToFirestoreFields (JObj ps) = Ret fs →
  tagged (map_value fs) = true ∧ ∃ r, roundtrip (JObj ps) = Ret r.
Proof.
  intros Hf Hfs.
  assert (tagged (map_value fs) = true) as Ht.
  { apply tagged_map_value. apply (objectToFirestoreFields_tagged (JObj ps));
      [|done].
    intros k v. by apply fun_free_own_entries. }
  split; [done|]. unfold roundtrip. rewrite Hfs.
  cbn [mbind result_bind rbind]. by apply parseFirestoreValue_tagged.
Qed.

(** X29: The round trip is the identity on the objects without a key
    [__proto__] whose values are numbers, strings, booleans, [null], valid
    dates, nested objects, and arrays of numbers, strings, booleans and
    objects. *)
Theorem roundtrip_plain_record (ps : fields) :
  plain (JObj ps) = true → proto_free (JObj ps) = true →
  roundtrip (JObj ps) = Ret (JObj ps).
Proof. apply roundtrip_plain. Qed.

End CodecExtra.

(** * More runs on the example worlds *)

(** Before any sign-in, a read is refused locally. *)
Lemma data_access_requires_session_witness :
  readUserData (H:=example_host) (H0:=example_config) unavailable
    (initial_world ())
  = (Throw (Error "User not authenticated"), initial_world ()).
Proof.
  refine (proj1 (data_access_requires_session (H:=example_host)
                   (H0:=example_config) unavailable "stroop" JNull JNull
                   (initial_world ()) _)).
  intros [Hu _]. vm_compute in Hu. discriminate Hu.
Defined.

(** The first read of a new user against the store. *)
Lemma readUserData_creates_missing_document_witness :
  readUserData (H:=example_host) (H0:=example_config) firestore
    (example_world (example_store None))
  = createUserDocument (H:=example_host) (H0:=example_config) firestore
      (sent (first_read (H:=example_host) (H0:=example_config)
               (example_world (example_store None)))
         (example_store None) (example_world (example_store None))).
Proof.
  refine (proj1 (readUserData_creates_missing_document (H:=example_host)
                   (H0:=example_config) firestore
                   (example_world (example_store None))
                   (Response 404 (Some (JObj [("error", JStr "NOT_FOUND")])))
                   _ _ _)).
  - split; reflexivity.
  - reflexivity.
  - reflexivity.
Defined.

(** A read while the store is out of service. *)
Lemma readUserData_single_request_witness :
  (readUserData (H:=example_host) (H0:=example_config) unavailable
     (example_world ())).1 = Throw (Error "Failed to read user data")
  ∧ req_method
    <$> requests (readUserData (H:=example_host) (H0:=example_config)
                    unavailable (example_world ())).2 = ["GET"].
Proof.
  rewrite (readUserData_single_request (H:=example_host)
             (H0:=example_config) unavailable (example_world ())
             (Response 503 None)).
  - split; reflexivity.
  - split; reflexivity.
  - reflexivity.
  - discriminate.
  - discriminate.
Defined.

(** An expired access token and no refresh token. *)
Lemma readUserData_expired_without_refresh_token_witness :
  (readUserData (H:=example_host) (H0:=example_config) expired
     (with_sessionStorage (delete "refreshToken") (example_world ()))).1
  = Throw (Error "No refresh token available").
Proof.
  rewrite (readUserData_expired_without_refresh_token (H:=example_host)
             (H0:=example_config) expired
             (with_sessionStorage (delete "refreshToken") (example_world ()))
             (Response 401 None)).
  - reflexivity.
  - split; reflexivity.
  - reflexivity.
  - reflexivity.
  - reflexivity.
Defined.

(** An update without personal bests: the read is sent, the write is not. *)
Lemma updateGameData_no_write_on_failure_witness :
  (updateGameData (H:=example_host) (H0:=example_config) read_only "stroop"
     (JObj [("score", JNum 1%float)]) JNull (example_world ())).1
  = Throw (TypeError "Cannot convert undefined or null to object")
  ∧ req_method
    <$> requests
          (updateGameData (H:=example_host) (H0:=example_config) read_only
             "stroop" (JObj [("score", JNum 1%float)]) JNull
             (example_world ())).2 = ["GET"].
Proof.
  destruct (updateGameData_no_write_on_failure (H:=example_host)
              (H0:=example_config) read_only "stroop"
              (JObj [("score", JNum 1%float)]) JNull (example_world ()))
    as (_ & Hbody & _).
  - split; reflexivity.
  - rewrite (Hbody (JObj [])
               (TypeError "Cannot convert undefined or null to object")
               (readUserData (H:=example_host) (H0:=example_config)
                  read_only (example_world ())).2);
      [split; reflexivity|reflexivity|reflexivity].
Defined.

(** A migration attempted after sign-out keeps the legacy record. *)
Lemma migrateLocalStorage_nothing_sent_witness :
  (migrateLocalStorage (H:=example_host) (H0:=example_config) unavailable
     "stroop" "focus-games-stroop" (signed_out (example_world ()))).1
  = Ret false
  ∧ requests
      (migrateLocalStorage (H:=example_host) (H0:=example_config)
         unavailable "stroop" "focus-games-stroop"
         (signed_out (example_world ()))).2 = [].
Proof.
  destruct (migrateLocalStorage_nothing_sent (H:=example_host)
              (H0:=example_config) unavailable "stroop" "focus-games-stroop"
              (signed_out (example_world ()))) as (Hr & Hq & _).
  - right. right. intros [Hu _]. vm_compute in Hu. discriminate Hu.
  - split; [exact Hr|exact Hq].
Defined.

(** The session made of the legacy record of the examples. *)
Lemma migrateLocalStorage_session_fields_witness :
  ∃ session,
    lookup_prop "timestamp" session = Some (JStr "2024-01-01")
    ∧ lookup_prop "lastPlayed" session = None
    ∧ lookup_prop "highScore" session = Some (JNum 50%float).
Proof.
  destruct (migrateLocalStorage_session_fields (H:=example_host)
              (H0:=example_config) unavailable "stroop" "focus-games-stroop"
              (example_world ())
              [("highScore", JNum 50%float);
               ("lastPlayed", JStr "2024-01-01")])
    as (timestamp & w0 & session & -> & _ & Hlp & Hts & Hother).
  - reflexivity.
  - reflexivity.
  - apply (bool_decide_unpack _). by vm_compute.
  - exists session. split_and!; [exact Hts|exact Hlp|].
    rewrite Hother by discriminate. reflexivity.
Defined.

(** A document with one string field. *)
Lemma parseFirestoreDocument_fieldwise_witness :
  ∃ data,
    parseFirestoreDocument (H:=example_host)
      (JObj [("fields", JObj [("name", JObj [("stringValue", JStr "x")])])])
    = Ret (JObj data)
    ∧ data.*1 = ["name"].
Proof.
  destruct (parseFirestoreDocument_fieldwise (H:=example_host)
              [("name", JObj [("stringValue", JStr "x")])])
    as (data & Hd & Hk & _).
  - split_and!.
    + apply (bool_decide_unpack _). by vm_compute.
    + apply (bool_decide_unpack _). by vm_compute.
    + intros k v [[= -> ->]|Hin%elem_of_nil]%elem_of_cons; [|done].
      by eexists.
  - exists data. split; [exact Hd|exact Hk].
Defined.



(** The first two reads of a new user. *)
Lemma readUserData_first_read_witness :
  ∃ data w1 w2,
    readUserData (H:=example_host) (H0:=example_config) firestore
      (example_world (example_store None)) = (Ret (JObj data), w1)
    ∧ readUserData (H:=example_host) (H0:=example_config) firestore w1
      = (Ret (JObj data), w2)
    ∧ data.*1 = "profile" :: game_names.
Proof.
  destruct (readUserData_first_read (H:=example_host) (H0:=example_config)
              (example_world (example_store None))
              [("uid", JStr "u1"); ("email", JStr "u1@example.org");
               ("displayName", JStr "U"); ("photoURL", JStr "")])
    as (data & w1 & w2 & H1 & _ & H2 & _ & Hk & _).
  - exists "u1", "t1". split_and!; done.
  - reflexivity.
  - reflexivity.
  - exists data, w1, w2. split_and!; [exact H1|exact H2|exact Hk].
Defined.

(** The page as loaded has no session to restore. *)
Lemma initAuth_without_session_witness :
  initAuth (H0:=example_config) identity_toolkit (initial_world ())
  = (Ret (), initial_world ()).
Proof.
  refine (proj1 (initAuth_without_session (H0:=example_config)
                   identity_toolkit (initial_world ()) _)).
  intros [Hu _]. vm_compute in Hu. discriminate Hu.
Defined.

(** A reload with a valid token. *)
Lemma initAuth_restores_session_witness :
  currentUser
    (initAuth (H0:=example_config) identity_toolkit
       (example_world ())).2
  = JObj [("uid", JStr "u1"); ("email", JNull); ("displayName", JNull);
          ("photoURL", JNull)]
  ∧ notified
      (initAuth (H0:=example_config) identity_toolkit
         (example_world ())).2
    = [JObj [("uid", JStr "u1"); ("email", JNull); ("displayName", JNull);
             ("photoURL", JNull)]].
Proof.
  destruct (initAuth_restores_session (H0:=example_config)
              identity_toolkit (example_world ())
              (JObj [("localId", JStr "u1")]))
    as (_ & Hcu & _ & _ & Hn & _).
  - split; reflexivity.
  - reflexivity.
  - reflexivity.
  - split; [exact Hcu|exact Hn].
Defined.

(** A reload when the verification answers without any user: the session is
    dropped. *)
Lemma initAuth_invalid_session_signs_out_witness :
  sessionStorage
    (initAuth (H0:=example_config) empty_answers
       (example_world ())).2 !! "firebaseToken" = None
  ∧ currentUser
      (initAuth (H0:=example_config) empty_answers
         (example_world ())).2 = JNull.
Proof.
  destruct (initAuth_invalid_session_signs_out (H0:=example_config)
              empty_answers (example_world ())
              (TypeError "Cannot read properties of undefined"))
    as (_ & Hss & Hcu & _).
  - split; reflexivity.
  - reflexivity.
  - split; [|exact Hcu]. apply Hss. repeat constructor.
Defined.


(** The user of the sign-in, after a reload. *)
Lemma initAuth_restores_signed_in_user_witness :
  currentUser
    (initAuth (H0:=example_config) identity_toolkit
       (with_sessionStorage (with_session (H:=example_host) example_answer)
          (initial_world ()))).2
  = signed_in_user example_answer.
Proof.
  apply (initAuth_restores_signed_in_user (H:=example_host)
           (H0:=example_config) identity_toolkit example_answer ∅
           (with_sessionStorage (with_session (H:=example_host) example_answer)
              (initial_world ()))
           (JObj [("localId", JStr "u1")]) "u1" "u1@example.org" "" "").
  - reflexivity.
  - reflexivity.
  - reflexivity.
  - reflexivity.
  - reflexivity.
  - split; reflexivity.
  - reflexivity.
  - reflexivity.
Defined.

(** The encoder on [null]. *)
Lemma objectToFirestoreFields_errors_witness :
  encoder_error (TypeError "Cannot convert undefined or null to object").
Proof.
  apply (proj1 (objectToFirestoreFields_errors (H:=example_host)) JNull).
  reflexivity.
Defined.

(** The decoder on a map tag with a [null] entry. *)
Lemma parseFirestoreValue_errors_witness :
  type_error (TypeError "Cannot read properties of object").
Proof.
  apply (parseFirestoreValue_errors (H:=example_host)
           (map_value [("a", JNull)])).
  left. reflexivity.
Defined.

(** A function among the properties. *)
Lemma objectToFirestoreFields_keys_witness :
  ∃ fs,
    objectToFirestoreFields (H:=example_host)
      (JObj [("a", JNum 1%float); ("f", JFun "f"); ("b", JNull)]) = Ret fs
    ∧ fs.*1 = ["a"; "b"].
Proof.
  eexists. split; [reflexivity|].
  apply (objectToFirestoreFields_keys (H:=example_host)
           [("a", JNum 1%float); ("f", JFun "f"); ("b", JNull)]).
  - apply (bool_decide_unpack _). by vm_compute.
  - reflexivity.
Defined.

(** A date in an array: the round trip returns, with another value. *)
Lemma roundtrip_returns_witness :
  ∃ r, roundtrip (H:=example_host) (JObj [("a", JArr [JDate (Some 0)])])
       = Ret r.
Proof.
  destruct (roundtrip_returns (H:=example_host)
              [("a", JArr [JDate (Some 0)])]
              [("a", JObj [("arrayValue",
                            JObj [("values", JArr [map_value []])])])])
    as [_ Hr].
  - reflexivity.
  - reflexivity.
  - exact Hr.
Defined.

(** A record with a date, a nested object and an array of objects. *)
Lemma roundtrip_plain_record_witness :
  roundtrip (H:=example_host)
    (JObj [("at", JDate (Some 0)); ("best", JObj [("score", JNum 1%float)]);
           ("runs", JArr [JObj [("ok", JBool true)]; JStr "x"])])
  = Ret (JObj [("at", JDate (Some 0));
               ("best", JObj [("score", JNum 1%float)]);
               ("runs", JArr [JObj [("ok", JBool true)]; JStr "x"])]).
Proof.
  apply (roundtrip_plain_record (H:=example_host)); reflexivity.
Defined.

(** A listener that throws on every call.  After a reload with a valid
    token it is told the restored user, then [null] by the sign-out that
    follows, and [initAuth] throws its error; the session is gone. *)
Lemma initAuth_listener_throws :
  (initAuth (H0:=example_config) identity_toolkit
     (onAuthStateChanged (JFun "crash") (example_world ())).2).1
  = Throw (Error "crash")
  ∧ notified
      (initAuth (H0:=example_config) identity_toolkit
         (onAuthStateChanged (JFun "crash") (example_world ())).2).2
    = [JObj [("uid", JStr "u1"); ("email", JNull); ("displayName", JNull);
             ("photoURL", JNull)]; JNull]
  ∧ currentUser
      (initAuth (H0:=example_config) identity_toolkit
         (onAuthStateChanged (JFun "crash") (example_world ())).2).2
    = JNull
  ∧ sessionStorage
      (initAuth (H0:=example_config) identity_toolkit
         (onAuthStateChanged (JFun "crash") (example_world ())).2).2
    !! "firebaseToken" = None.
Proof. split_and!; reflexivity. Qed.

(** The same listener at a sign-in: the sign-in stays in place,
    [handleGoogleSignIn] returns, and the error event follows a second
    switching off of the indicator. *)
Lemma handleGoogleSignIn_listener_throws :
  (handleGoogleSignIn (H:=example_host) (H0:=example_config)
     (H1:=example_window) identity_toolkit (JObj [("credential", JStr "g")])
     (Page (onAuthStateChanged (JFun "crash") (initial_world ())).2 [])).1
  = Ret ()
  ∧ dispatched
      (handleGoogleSignIn (H:=example_host) (H0:=example_config)
         (H1:=example_window) identity_toolkit
         (JObj [("credential", JStr "g")])
         (Page (onAuthStateChanged (JFun "crash") (initial_world ())).2
            [])).2
    = [loading_on; loading_off; loading_off; sign_in_failed]
  ∧ currentUser
      (page_world
         (handleGoogleSignIn (H:=example_host) (H0:=example_config)
            (H1:=example_window) identity_toolkit
            (JObj [("credential", JStr "g")])
            (Page (onAuthStateChanged (JFun "crash") (initial_world ())).2
               [])).2)
    = signed_in_user (H:=example_host) example_answer.
Proof. split_and!; reflexivity. Qed.
